(** * met-tools: the coordinate loader, palette generator and bounds
      aggregator of [geoloc/view.py]

    The development embeds the three pure functions of [geoloc/view.py]
    ([load_csv_points], [generate_palette], [fit_bounds_from_points]) and the
    helpers they call ([parse_float], [hls_to_rgb], [rgb_to_hex]).

    Modelling choices.
    - A Python [float] is an IEEE 754 binary64 number: [spec_float] of the
      standard library at precision 53 and maximal exponent 1024, with its
      correctly rounded operations.
    - A Python [str] is a [string]; a character is a code point below 256
      (the Latin-1 range), on which [str.strip], [str.lower] and [float] are
      modelled in full.
    - An exception is an explicit [Raise] result.
    - [csv.reader] is a collaborator: a file is the list of rows it yields.

    The rest of [geoloc/view.py] that computes ([add_legend], [build_map],
    [main]) follows, with folium as a collaborator: a map is the record of
    what the code hands to it, and the checks folium makes of what it is
    handed (no NaN in a location, a tile set it knows) raise [ValueError].
    Then come the list of addresses of
    [geoloc/get_loc_ipv4.py] and, of [24_data/process_data.py], [parse_json]
    and the tick indices and abscissas of [graph_data]; there the file
    system, [json.load] and matplotlib are collaborators. *)

From Stdlib Require Import ZArith List String Ascii HexString Bool Lia SpecFloat.
From Stdlib Require Import QArith Qpower Lqa.
From Stdlib Require Import Sorted.
Import ListNotations.

Local Open Scope string_scope.
Local Open Scope Z_scope.

(** ** Exceptions *)

Inductive exn : Type :=
  | IndexError
  | ValueError
  | OverflowError
  | ZeroDivisionError.

Inductive result (A : Type) : Type :=
  | Ok (a : A)
  | Raise (e : exn).

Arguments Ok {A} a.
Arguments Raise {A} e.

Definition bind {A B : Type} (r : result A) (k : A -> result B) : result B :=
  match r with
  | Ok a => k a
  | Raise e => Raise e
  end.

Notation "x <- r ;; k" := (bind r (fun x => k))
  (at level 61, r at next level, right associativity).

(** ** Binary64 floating point *)

Module B64.

Definition prec : Z := 53.
Definition emax : Z := 1024.

Definition float : Type := spec_float.

Definition add : float -> float -> float := SFadd prec emax.
Definition sub : float -> float -> float := SFsub prec emax.
Definition mul : float -> float -> float := SFmul prec emax.
Definition div : float -> float -> float := SFdiv prec emax.
Definition eqb : float -> float -> bool := SFeqb.
Definition ltb : float -> float -> bool := SFltb.
Definition leb : float -> float -> bool := SFleb.

Definition is_nan (x : float) : bool :=
  match x with S754_nan => true | _ => false end.

(** The double nearest to the integer [z] (ties to even). *)
Definition of_Z (z : Z) : float := binary_normalize prec emax z 0 false.

(** The double nearest to [(-1)^neg * m * 10^e], for [0 <= m]: the quotient
    of two integers, rounded once. *)
Definition of_decimal (neg : bool) (m e : Z) : float :=
  match m with
  | Zpos p =>
      div (S754_finite neg (p * Z.to_pos (10 ^ Z.max e 0)) 0)
          (S754_finite false (Z.to_pos (10 ^ Z.max (- e) 0)) 0)
  | _ => S754_zero neg
  end.

(** The IEEE 754 interchange encoding, for reading values against the bit
    patterns Python prints with [float.hex] or [struct.pack]. *)
Definition bits (x : float) : Z :=
  let sgn (s : bool) := if s then 2 ^ 63 else 0 in
  match x with
  | S754_zero s => sgn s
  | S754_infinity s => sgn s + 2047 * 2 ^ 52
  | S754_nan => 2047 * 2 ^ 52 + 2 ^ 51
  | S754_finite s m e =>
      if Z.pos m <? 2 ^ 52 then sgn s + Z.pos m
      else sgn s + (e + 1075) * 2 ^ 52 + (Z.pos m - 2 ^ 52)
  end.

End B64.

Abbreviation float := B64.float.

(** ** Python strings *)

Module Str.

Definition code (c : ascii) : N := N_of_ascii c.

Definition between (lo hi : N) (c : ascii) : bool :=
  ((lo <=? code c) && (code c <=? hi))%N.

(** [str.isspace] on one character: the white space of Unicode below 256. *)
Definition isspace (c : ascii) : bool :=
  between 9 13 c || between 28 32 c || (code c =? 133)%N || (code c =? 160)%N.

Definition isdigit (c : ascii) : bool := between 48 57 c.

(** [str.lower] on one character: the upper-case letters of ASCII and of
    Latin-1 ([U+00C0] to [U+00DE] but the multiplication sign [U+00D7]). *)
Definition lower_char (c : ascii) : ascii :=
  if between 65 90 c || (between 192 222 c && negb (code c =? 215)%N)
  then ascii_of_N (code c + 32)
  else c.

Fixpoint lower (s : string) : string :=
  match s with
  | EmptyString => EmptyString
  | String c s' => String (lower_char c) (lower s')
  end.

Fixpoint lstrip (s : string) : string :=
  match s with
  | EmptyString => EmptyString
  | String c s' => if isspace c then lstrip s' else s
  end.

Fixpoint rev_append (s acc : string) : string :=
  match s with
  | EmptyString => acc
  | String c s' => rev_append s' (String c acc)
  end.

Definition rev (s : string) : string := rev_append s EmptyString.

Definition rstrip (s : string) : string := rev (lstrip (rev s)).

Definition strip (s : string) : string := rstrip (lstrip s).

(** [sub in s] for a one-character [sub]. *)
Fixpoint contains (c : ascii) (s : string) : bool :=
  match s with
  | EmptyString => false
  | String d s' => Ascii.eqb c d || contains c s'
  end.

(** [s.split(sep, 1)] for a one-character [sep]: one part when [sep] does not
    occur, else the text before its first occurrence and the text after. *)
Fixpoint split1 (sep : ascii) (s : string) : list string :=
  match s with
  | EmptyString => [EmptyString]
  | String c s' =>
      if Ascii.eqb c sep then [EmptyString; s']
      else match split1 sep s' with
           | p :: ps => String c p :: ps
           | [] => []
           end
  end.

(** [x in xs] for a list of strings. *)
Definition mem (x : string) (xs : list string) : bool :=
  existsb (String.eqb x) xs.

End Str.

(** ** The built-in [float(str)] *)

Module PyFloat.

Import Str.

Definition digit_val (c : ascii) : Z := Z.of_N (code c) - 48.

Definition digits_val (ds : list ascii) : Z :=
  fold_left (fun acc c => 10 * acc + digit_val c) ds 0.

(** Underscores are dropped when each stands between two digits, as
    [_Py_string_to_number_with_underscores] does; [None] for any other. *)
Fixpoint drop_underscores (prev : ascii) (s : string) : option (list ascii) :=
  match s with
  | EmptyString => if Ascii.eqb prev "_" then None else Some []
  | String c s' =>
      if Ascii.eqb c "_" then
        if isdigit prev then drop_underscores c s' else None
      else if Ascii.eqb prev "_" && negb (isdigit c) then None
      else option_map (cons c) (drop_underscores c s')
  end.

Fixpoint span_digits (s : list ascii) : list ascii * list ascii :=
  match s with
  | c :: s' =>
      if isdigit c then let '(ds, r) := span_digits s' in (c :: ds, r)
      else ([], s)
  | [] => ([], [])
  end.

Definition read_sign (s : list ascii) : bool * list ascii :=
  match s with
  | "-"%char :: r => (true, r)
  | "+"%char :: r => (false, r)
  | _ => (false, s)
  end.

(** The exponent part: [e] or [E], an optional sign and at least one digit,
    up to the end of the text. An empty text is exponent 0. *)
Definition read_exponent (s : list ascii) : option Z :=
  match s with
  | [] => Some 0
  | c :: r =>
      if Ascii.eqb (lower_char c) "e" then
        let '(neg, r1) := read_sign r in
        match span_digits r1 with
        | ((_ :: _) as ds, []) =>
            Some (if neg then - digits_val ds else digits_val ds)
        | _ => None
        end
      else None
  end.

(** A decimal numeral: digits, an optional point and digits, with a digit on
    one side of the point at least; then the exponent part. *)
Definition read_number (neg : bool) (s : list ascii) : option float :=
  let '(ip, r) := span_digits s in
  let '(fp, r1) :=
    match r with
    | "."%char :: r' => span_digits r'
    | _ => ([], r)
    end in
  match (ip ++ fp)%list with
  | [] => None
  | ds =>
      match read_exponent r1 with
      | Some e =>
          Some (B64.of_decimal neg (digits_val ds) (e - Z.of_nat (List.length fp)))
      | None => None
      end
  end.

Definition read_special (neg : bool) (s : list ascii) : option float :=
  let w := lower (string_of_list_ascii s) in
  if String.eqb w "inf" || String.eqb w "infinity" then Some (S754_infinity neg)
  else if String.eqb w "nan" then Some S754_nan
  else None.

(** [float(s)]: surrounding white space is dropped, then the whole text has
    to be a signed numeral, infinity or nan; [ValueError] otherwise. *)
Definition of_string (s : string) : result float :=
  match drop_underscores "000"%char (strip s) with
  | None => Raise ValueError
  | Some t =>
      let '(neg, r) := read_sign t in
      match read_special neg r with
      | Some v => Ok v
      | None =>
          match read_number neg r with
          | Some v => Ok v
          | None => Raise ValueError
          end
      end
  end.

(** A float literal of the source text denotes what [float] reads from it. *)
Definition lit (s : string) : float :=
  match of_string s with
  | Ok v => v
  | Raise _ => S754_nan
  end.

End PyFloat.

(** ** [geoloc/view.py]: the coordinate loader *)

Definition LatLng : Type := float * float.

(** [parse_float]: [None] when [float] raises or reads a NaN. *)
Definition parse_float (value : string) : option float :=
  match PyFloat.of_string (Str.strip value) with
  | Ok v => if negb (B64.eqb v v) then None else Some v
  | Raise _ => None
  end.

Definition lat_candidates : list string := ["latitude"; "lat"; "y"].
Definition lon_candidates : list string := ["longitude"; "lon"; "lng"; "x"].

Definition is_none {A : Type} (o : option A) : bool :=
  match o with None => true | Some _ => false end.

(** [enumerate(cols)] *)
Definition enumerate {A : Type} (l : list A) : list (nat * A) :=
  combine (seq 0 (List.length l)) l.

(** One turn of the loop over [enumerate(cols)]. *)
Definition resolve_step (st : option nat * option nat) (ic : nat * string)
  : option nat * option nat :=
  let '(lat_idx, lon_idx) := st in
  let '(i, c) := ic in
  let lat_idx :=
    if is_none lat_idx && Str.mem c lat_candidates then Some i else lat_idx in
  let lon_idx :=
    if is_none lon_idx && Str.mem c lon_candidates then Some i else lon_idx in
  (lat_idx, lon_idx).

(** The indices after the [if header:] branch, for a non-empty header. *)
Definition header_indices (header : list string) : option nat * option nat :=
  let cols := map (fun c => Str.lower (Str.strip c)) header in
  let '(lat_idx, lon_idx) := fold_left resolve_step (enumerate cols) (None, None) in
  if is_none lat_idx || is_none lon_idx then
    if (3 <=? List.length cols)%nat then (Some 1%nat, Some 2%nat)
    else if (2 <=? List.length cols)%nat then (Some 0%nat, Some 1%nat)
    else (lat_idx, lon_idx)
  else (lat_idx, lon_idx).

(** The indices the loop over the data rows runs with. *)
Definition resolve_indices (header : list string) : nat * nat :=
  match header_indices header with
  | (Some lat_idx, Some lon_idx) => (lat_idx, lon_idx)
  | _ => (1%nat, 2%nat)
  end.

(** [row[i]] *)
Definition index (row : list string) (i : nat) : result string :=
  match nth_error row i with
  | Some x => Ok x
  | None => Raise IndexError
  end.

(** [-90.0 <= lat <= 90.0] and [-180.0 <= lon <= 180.0] *)
Definition lat_in_range (lat : float) : bool :=
  B64.leb (PyFloat.lit "-90.0") lat && B64.leb lat (PyFloat.lit "90.0").

Definition lon_in_range (lon : float) : bool :=
  B64.leb (PyFloat.lit "-180.0") lon && B64.leb lon (PyFloat.lit "180.0").

Definition in_range (p : LatLng) : bool :=
  let '(lat, lon) := p in lat_in_range lat && lon_in_range lon.

(** The row the body reads its fields from: the row itself when it is long
    enough, the row rebuilt from a two-field row whose second field holds a
    comma, [None] where the body says [continue]. *)
Definition repair (lat_idx lon_idx : nat) (row : list string)
  : result (option (list string)) :=
  if (List.length row <=? Nat.max lat_idx lon_idx)%nat then
    match row with
    | [r0; r1] =>
        if Str.contains "," r1 then
          let loc_parts := Str.split1 "," r1 in
          p0 <- index loc_parts 0 ;;
          p1 <- index loc_parts 1 ;;
          Ok (Some [r0; p0; p1])
        else Ok None
    | _ => Ok None
    end
  else Ok (Some row).

(** The fields of a row that is ready to be read. *)
Definition read_point (lat_idx lon_idx : nat) (row : list string)
  : result (option LatLng) :=
  lat_s <- index row lat_idx ;;
  let lat := parse_float lat_s in
  lon_s <- index row lon_idx ;;
  let lon := parse_float lon_s in
  match lat, lon with
  | Some lat, Some lon =>
      if in_range (lat, lon) then Ok (Some (lat, lon)) else Ok None
  | _, _ => Ok None
  end.

(** The body of [for row in reader]: the point the row adds, if any. *)
Definition process_row (lat_idx lon_idx : nat) (row : list string)
  : result (option LatLng) :=
  match row with
  | [] => Ok None
  | _ =>
      row' <- repair lat_idx lon_idx row ;;
      match row' with
      | None => Ok None
      | Some row' => read_point lat_idx lon_idx row'
      end
  end.

(** [for row in reader], with [points] the list built so far. *)
Fixpoint load_rows (lat_idx lon_idx : nat) (rows : list (list string))
  (points : list LatLng) : result (list LatLng) :=
  match rows with
  | [] => Ok points
  | row :: rows' =>
      p <- process_row lat_idx lon_idx row ;;
      load_rows lat_idx lon_idx rows'
        (match p with Some pt => points ++ [pt] | None => points end)
  end.

(** [load_csv_points], on the rows [csv.reader] yields for the file. *)
Definition load_csv_points (reader : list (list string))
  : result (list LatLng) :=
  match reader with
  | [] => Ok []
  | [] :: _ => Ok []
  | header :: rows =>
      let '(lat_idx, lon_idx) := resolve_indices header in
      load_rows lat_idx lon_idx rows []
  end.

(** ** Python arithmetic used by the palette *)

Module Py.

(** [a / b] on integers: the quotient rounded once to the nearest double. *)
Definition true_div (a b : Z) : result float :=
  if b =? 0 then Raise ZeroDivisionError
  else
    let neg := xorb (a <? 0) (b <? 0) in
    match Z.abs a with
    | Zpos p =>
        match B64.div (S754_finite neg p 0) (S754_finite false (Z.to_pos (Z.abs b)) 0) with
        | S754_infinity _ => Raise OverflowError
        | q => Ok q
        end
    | _ => Ok (S754_zero neg)
    end.

Definition is_zero (x : float) : bool :=
  match x with S754_zero _ => true | _ => false end.

Definition signbit (x : float) : bool :=
  match x with
  | S754_zero s | S754_infinity s | S754_finite s _ _ => s
  | S754_nan => false
  end.

(** C's [fmod]: the exact remainder of the division truncated towards zero,
    with the sign of [x]. *)
Definition fmod (x y : float) : float :=
  match x, y with
  | S754_nan, _ | _, S754_nan => S754_nan
  | S754_infinity _, _ => S754_nan
  | _, S754_zero _ => S754_nan
  | _, S754_infinity _ => x
  | S754_zero _, _ => x
  | S754_finite sx mx ex, S754_finite _ my ey =>
      let e := Z.min ex ey in
      let r := Z.rem (Z.pos mx * 2 ^ (ex - e)) (Z.pos my * 2 ^ (ey - e)) in
      binary_normalize B64.prec B64.emax (if sx then - r else r) e sx
  end.

(** [x % y] on floats ([float_rem]): [fmod], then moved to the sign of [y]. *)
Definition float_rem (x y : float) : result float :=
  let zero := S754_zero false in
  if B64.eqb y zero then Raise ZeroDivisionError
  else
    let m := fmod x y in
    if negb (B64.eqb m zero) then
      if negb (Bool.eqb (B64.ltb y zero) (B64.ltb m zero))
      then Ok (B64.add m y)
      else Ok m
    else Ok (S754_zero (signbit y)).

(** [int(x)]: truncation towards zero. *)
Definition int (x : float) : result Z :=
  match x with
  | S754_nan => Raise ValueError
  | S754_infinity _ => Raise OverflowError
  | S754_zero _ => Ok 0
  | S754_finite s m e =>
      let a := match e with
               | Zneg k => Z.pos m / 2 ^ Z.pos k
               | _ => Z.pos m * 2 ^ e
               end in
      Ok (if s then - a else a)
  end.

(** [format(z, "02x")]: lower-case hexadecimal, the sign first, filled with
    zeros to two characters. *)
Definition hex_digits (z : Z) : string :=
  match z with
  | Z0 => "0"
  | Zpos p | Zneg p => HexString.Raw.of_pos p ""
  end.

Definition format_02x (z : Z) : string :=
  let ds := hex_digits z in
  if z <? 0 then "-" ++ ds
  else if (String.length ds <? 2)%nat then "0" ++ ds
  else ds.

(** [min(xs)] and [max(xs)]: the first item is kept until a later one
    compares strictly below (above) it. *)
Definition min_step (m item : float) : float :=
  if B64.ltb item m then item else m.

Definition max_step (m item : float) : float :=
  if B64.ltb m item then item else m.

Definition min (xs : list float) : result float :=
  match xs with
  | [] => Raise ValueError
  | x :: xs' => Ok (fold_left min_step xs' x)
  end.

Definition max (xs : list float) : result float :=
  match xs with
  | [] => Raise ValueError
  | x :: xs' => Ok (fold_left max_step xs' x)
  end.

End Py.

(** ** [colorsys.hls_to_rgb] *)

Module Colorsys.

Definition ONE_THIRD : float := B64.div (PyFloat.lit "1.0") (PyFloat.lit "3.0").
Definition ONE_SIXTH : float := B64.div (PyFloat.lit "1.0") (PyFloat.lit "6.0").
Definition TWO_THIRD : float := B64.div (PyFloat.lit "2.0") (PyFloat.lit "3.0").

Definition _v (m1 m2 hue : float) : result float :=
  hue <- Py.float_rem hue (PyFloat.lit "1.0") ;;
  if B64.ltb hue ONE_SIXTH then
    Ok (B64.add m1 (B64.mul (B64.mul (B64.sub m2 m1) hue) (PyFloat.lit "6.0")))
  else if B64.ltb hue (PyFloat.lit "0.5") then Ok m2
  else if B64.ltb hue TWO_THIRD then
    Ok (B64.add m1
          (B64.mul (B64.mul (B64.sub m2 m1) (B64.sub TWO_THIRD hue))
             (PyFloat.lit "6.0")))
  else Ok m1.

Definition hls_to_rgb (h l s : float) : result (float * float * float) :=
  if B64.eqb s (PyFloat.lit "0.0") then Ok (l, l, l)
  else
    let m2 :=
      if B64.leb l (PyFloat.lit "0.5") then B64.mul l (B64.add (PyFloat.lit "1.0") s)
      else B64.sub (B64.add l s) (B64.mul l s) in
    let m1 := B64.sub (B64.mul (PyFloat.lit "2.0") l) m2 in
    r <- _v m1 m2 (B64.add h ONE_THIRD) ;;
    g <- _v m1 m2 h ;;
    b <- _v m1 m2 (B64.sub h ONE_THIRD) ;;
    Ok (r, g, b).

End Colorsys.

(** ** [geoloc/view.py]: the palette generator *)

Definition hls_to_rgb (h l s : float) : result (Z * Z * Z) :=
  rgb <- Colorsys.hls_to_rgb h l s ;;
  let '(r, g, b) := rgb in
  r' <- Py.int (B64.mul r (PyFloat.lit "255")) ;;
  g' <- Py.int (B64.mul g (PyFloat.lit "255")) ;;
  b' <- Py.int (B64.mul b (PyFloat.lit "255")) ;;
  Ok (r', g', b').

Definition rgb_to_hex (r g b : Z) : string :=
  "#" ++ Py.format_02x r ++ Py.format_02x g ++ Py.format_02x b.

(** The color of index [i] among [n]: one turn of [for i in range(n)]. *)
Definition palette_color (n i : Z) : result string :=
  q <- Py.true_div i (Z.max 1 n) ;;
  h <- Py.float_rem q (PyFloat.lit "1.0") ;;
  let l := PyFloat.lit "0.5" in
  let s := PyFloat.lit "0.8" in
  rgb <- hls_to_rgb h l s ;;
  let '(r, g, b) := rgb in
  Ok (rgb_to_hex r g b).

(** [for i in range(n)], over the indices still to come. *)
Fixpoint palette_loop (n : Z) (idxs : list Z) (colors : list string)
  : result (list string) :=
  match idxs with
  | [] => Ok colors
  | i :: is' =>
      c <- palette_color n i ;;
      palette_loop n is' (colors ++ [c])
  end.

(** [range(n)] *)
Definition range (n : Z) : list Z := map Z.of_nat (seq 0 (Z.to_nat n)).

Definition generate_palette (n : Z) : result (list string) :=
  if n <=? 0 then Ok []
  else palette_loop n (range n) [].

(** ** [geoloc/view.py]: the bounds aggregator *)

(** A [dict] in insertion order: [values()] yields the lists in that order. *)
Definition points_dict : Type := list (string * list LatLng).

Definition values (d : points_dict) : list (list LatLng) := map snd d.

(** The two nested loops: every latitude, and every longitude, in order. *)
Definition collect_lats (d : points_dict) : list float :=
  map fst (List.concat (values d)).

Definition collect_lons (d : points_dict) : list float :=
  map snd (List.concat (values d)).

Definition is_nil {A : Type} (l : list A) : bool :=
  match l with [] => true | _ => false end.

Definition fit_bounds_from_points (points_by_file : points_dict)
  : result (option (list LatLng)) :=
  let lats := collect_lats points_by_file in
  let lons := collect_lons points_by_file in
  if is_nil lats || is_nil lons then Ok None
  else
    min_lat <- Py.min lats ;;
    min_lon <- Py.min lons ;;
    max_lat <- Py.max lats ;;
    max_lon <- Py.max lons ;;
    Ok (Some [(min_lat, min_lon); (max_lat, max_lon)]).

(** ** Definitions the statements are written with *)

(** Header names as the loader compares them: trimmed and lower-cased. *)
Definition normalize (c : string) : string := Str.lower (Str.strip c).

(** The first column, counted from [i], whose name is one of [cands]. *)
Fixpoint first_match (cands cols : list string) (i : nat) : option nat :=
  match cols with
  | [] => None
  | c :: cols' =>
      if Str.mem c cands then Some i else first_match cands cols' (S i)
  end.



(** What a pair of fields yields: the point when both read as numbers that
    lie in range. *)
Definition point_of_fields (lat_s lon_s : string) : option LatLng :=
  match parse_float lat_s, parse_float lon_s with
  | Some lat, Some lon => if in_range (lat, lon) then Some (lat, lon) else None
  | _, _ => None
  end.

(** A point of some trajectory of the mapping. *)
Definition point_in (d : points_dict) (p : LatLng) : Prop :=
  exists k pts, In (k, pts) d /\ In p pts.

(** No coordinate of the mapping is NaN. *)
Definition nan_free (d : points_dict) : Prop :=
  forall lat lon, point_in d (lat, lon) -> lat <> S754_nan /\ lon <> S754_nan.

(** The four extremes of the mapping, each taken on its own axis: each is a
    coordinate of some point and bounds that coordinate of every point. *)
Definition is_bounds (d : points_dict) (min_lat min_lon max_lat max_lon : float)
  : Prop :=
  ((exists lon, point_in d (min_lat, lon))
   /\ forall lat lon, point_in d (lat, lon) -> B64.leb min_lat lat = true)
  /\ ((exists lat, point_in d (lat, min_lon))
      /\ forall lat lon, point_in d (lat, lon) -> B64.leb min_lon lon = true)
  /\ ((exists lon, point_in d (max_lat, lon))
      /\ forall lat lon, point_in d (lat, lon) -> B64.leb lat max_lat = true)
  /\ ((exists lat, point_in d (lat, max_lon))
      /\ forall lat lon, point_in d (lat, lon) -> B64.leb lon max_lon = true).

(** Pairwise distinct strings, as a test. *)
Fixpoint distinct (l : list string) : bool :=
  match l with
  | [] => true
  | x :: l' => negb (Str.mem x l') && distinct l'
  end.

(** The rational [m * 2^e]: what a mantissa and an exponent stand for. *)
Definition F2Q (m e : Z) : Q := inject_Z m * 2 ^ e.

(** The value of a double; 0 for the infinities and NaN. *)
Definition val (x : float) : Q :=
  match x with
  | S754_finite s m e => F2Q (cond_Zopp s (Z.pos m)) e
  | _ => 0%Q
  end.

(** [+0.0], or a positive double in canonical form. *)
Definition nonneg (x : float) : Prop :=
  x = S754_zero false
  \/ exists m e, x = S754_finite false m e /\ bounded B64.prec B64.emax m e = true.

(** A non-negative double of value at most [b]. *)
Definition pos_le (x : float) (b : Q) : Prop := nonneg x /\ (val x <= b)%Q.

(** Bits were lost in the shifts recorded by [r]. *)
Definition inexact (r : shr_record) : bool := shr_r r || shr_s r.

(** A positive double in canonical form: one that can serve as a bound. *)
Definition bound_ok (b : float) : bool :=
  match b with
  | S754_finite false m e => bounded B64.prec B64.emax m e
  | _ => false
  end.

(** 1.0 *)
Definition one : float := S754_finite false 4503599627370496 (-52).

(** What [float_rem] does with the result of [fmod] when the divisor is 1.0. *)
Definition rem_post (m : float) : result float :=
  let zero := S754_zero false in
  if negb (B64.eqb m zero) then
    if negb (Bool.eqb (B64.ltb one zero) (B64.ltb m zero))
    then Ok (B64.add m one)
    else Ok m
  else Ok (S754_zero false).

(** The constants [m2] and [m1] of [colorsys.hls_to_rgb] at lightness 0.5 and
    saturation 0.8. *)
Definition palette_m2 : float :=
  B64.mul (PyFloat.lit "0.5") (B64.add (PyFloat.lit "1.0") (PyFloat.lit "0.8")).
Definition palette_m1 : float :=
  B64.sub (B64.mul (PyFloat.lit "2.0") (PyFloat.lit "0.5")) palette_m2.

(** A color string: [#] and six lower-case hexadecimal digits. *)
Definition is_hex_digit (c : ascii) : bool :=
  Str.between 48 57 c || Str.between 97 102 c.

Fixpoint all_hex (s : string) : bool :=
  match s with
  | EmptyString => true
  | String c s' => is_hex_digit c && all_hex s'
  end.

Definition is_color (s : string) : bool :=
  match s with
  | String "#" r => (String.length r =? 6)%nat && all_hex r
  | _ => false
  end.

(** Two hexadecimal digits: one channel. *)
Definition is_hex2 (s : string) : bool := (String.length s =? 2)%nat && all_hex s.

(** A color built from three channels, each written with two digits. *)
Definition channel_color (c : string) : Prop :=
  exists r g b : Z,
    c = rgb_to_hex r g b
    /\ is_hex2 (Py.format_02x r) = true
    /\ is_hex2 (Py.format_02x g) = true
    /\ is_hex2 (Py.format_02x b) = true.

(** ** More of [geoloc/view.py]: legend, map and [main] *)

(** More of Python's strings and lists. *)
Module Str2.

(** [s.replace(old, new)] for a one-character [old]. *)
Fixpoint replace (old : ascii) (new s : string) : string :=
  match s with
  | EmptyString => EmptyString
  | String c s' =>
      if Ascii.eqb c old then new ++ replace old new s'
      else String c (replace old new s')
  end.

(** [sep.join(parts)] *)
Fixpoint join (sep : string) (parts : list string) : string :=
  match parts with
  | [] => ""
  | [p] => p
  | p :: ps => p ++ sep ++ join sep ps
  end.

(** [s.split(sep)] for a one-character [sep]. *)
Fixpoint split (sep : ascii) (s : string) : list string :=
  match s with
  | EmptyString => [EmptyString]
  | String c s' =>
      if Ascii.eqb c sep then EmptyString :: split sep s'
      else match split sep s' with
           | p :: ps => String c p :: ps
           | [] => []
           end
  end.

(** [s.strip(chars)]: the characters of [chars] are dropped at both ends. *)
Fixpoint lstrip_chars (chars s : string) : string :=
  match s with
  | EmptyString => EmptyString
  | String c s' => if Str.contains c chars then lstrip_chars chars s' else s
  end.

Definition strip_chars (chars s : string) : string :=
  Str.rev (lstrip_chars chars (Str.rev (lstrip_chars chars s))).

(** The number of occurrences of a character. *)
Fixpoint count (c : ascii) (s : string) : nat :=
  match s with
  | EmptyString => 0
  | String d s' => (if Ascii.eqb d c then 1 else 0) + count c s'
  end.

End Str2.

(** [l[i]], with Python's negative indices. *)
Definition py_index {A : Type} (l : list A) (i : Z) : result A :=
  let n := Z.of_nat (List.length l) in
  let j := if i <? 0 then i + n else i in
  if (j <? 0) || (n <=? j) then Raise IndexError
  else match nth_error l (Z.to_nat j) with
       | Some x => Ok x
       | None => Raise IndexError
       end.

(** A [dict] with string keys, in insertion order. *)
Module Dict.

Definition t (V : Type) : Type := list (string * V).

(** [d.get(k)] *)
Fixpoint get {V : Type} (k : string) (d : t V) : option V :=
  match d with
  | [] => None
  | (k', v) :: d' => if String.eqb k k' then Some v else get k d'
  end.

(** [d[k] = v]: the value is replaced where the key stands, or the pair is
    added last. *)
Fixpoint set {V : Type} (k : string) (v : V) (d : t V) : t V :=
  match d with
  | [] => [(k, v)]
  | (k', v') :: d' =>
      if String.eqb k k' then (k, v) :: d' else (k', v') :: set k v d'
  end.

Definition keys {V : Type} (d : t V) : list string := map fst d.

(** [{k: v for k, v in pairs}] *)
Definition of_pairs {V : Type} (pairs : list (string * V)) : t V :=
  fold_left (fun d kv => set (fst kv) (snd kv) d) pairs [].

End Dict.

(** [esc], the local function of [add_legend]. *)
Definition esc (s : string) : string :=
  Str2.replace ">" "&gt;" (Str2.replace "<" "&lt;" (Str2.replace "&" "&amp;" s)).

(** The double quote and the line feed, for the texts below. *)
Definition dq : string := String (ascii_of_N 34) "".
Definition nl : string := String (ascii_of_N 10) "".

(** One item of the legend: the color is put in as it is, the name through
    [esc]. *)
Definition legend_item_html (item : string * string) : string :=
  let '(name, color) := item in
  "<div style=" ++ dq ++ "display:flex;align-items:center;margin-bottom:4px;" ++ dq ++ ">"
  ++ "<span style=" ++ dq ++ "display:inline-block;width:14px;height:14px;background:"
  ++ color ++ ";"
  ++ "border:1px solid #333;margin-right:6px;" ++ dq ++ "></span>"
  ++ "<span style=" ++ dq ++ "font-size:12px;" ++ dq ++ ">" ++ esc name ++ "</span></div>".

Definition items_html (legend_items : list (string * string)) : string :=
  Str2.join nl (map legend_item_html legend_items).

Definition legend_html (legend_items : list (string * string)) : string :=
  nl ++ "<div style=" ++ dq ++ nl
  ++ "    position: fixed;" ++ nl
  ++ "    bottom: 18px;" ++ nl
  ++ "    left: 18px;" ++ nl
  ++ "    z-index: 9999999;" ++ nl
  ++ "    background: rgba(255,255,255,0.95);" ++ nl
  ++ "    padding: 10px 12px;" ++ nl
  ++ "    border: 1px solid #999;" ++ nl
  ++ "    border-radius: 6px;" ++ nl
  ++ "    box-shadow: 0 1px 4px rgba(0,0,0,0.2);" ++ nl
  ++ dq ++ ">" ++ nl
  ++ "    <div style=" ++ dq ++ "font-weight:600;margin-bottom:6px;" ++ dq
  ++ ">Trajectoires (CSV)</div>" ++ nl
  ++ "    " ++ items_html legend_items ++ nl
  ++ "</div>" ++ nl
  ++ "    ".

(** What the code hands to folium: the layers with their arguments. *)
Record PolyLine : Type := {
  pl_locations : list LatLng;
  pl_color : string;
  pl_weight : Z;
  pl_opacity : float;
  pl_dash_array : option string;
  pl_tooltip : string
}.

Record CircleMarker : Type := {
  cm_location : LatLng;
  cm_radius : Z;
  cm_color : string;
  cm_weight : Z;
  cm_fill : bool;
  cm_fill_color : string;
  cm_fill_opacity : float;
  cm_tooltip : string;
  cm_popup : string
}.

Inductive layer : Type :=
  | Line (l : PolyLine)
  | Circle (c : CircleMarker).

Record FeatureGroup : Type := {
  fg_name : string;
  fg_show : bool;
  fg_children : list layer
}.

(** The map: its creation arguments, then what was added to it. *)
Record Map : Type := {
  map_location : list Z;
  map_zoom_start : Z;
  map_tiles : string;
  map_control_scale : bool;
  map_groups : list FeatureGroup;
  map_layer_control : bool;
  map_fit_bounds : option (list LatLng * (Z * Z));
  map_html : list string
}.

(** [add_legend]: nothing is added for an empty legend, or when
    [branca.element.Element] could not be imported ([has_element] false). *)
Definition add_legend (has_element : bool) (m : Map)
  (legend_items : list (string * string)) : Map :=
  if is_nil legend_items || negb has_element then m
  else {| map_location := map_location m;
          map_zoom_start := map_zoom_start m;
          map_tiles := map_tiles m;
          map_control_scale := map_control_scale m;
          map_groups := map_groups m;
          map_layer_control := map_layer_control m;
          map_fit_bounds := map_fit_bounds m;
          map_html := (map_html m ++ [legend_html legend_items])%list |}.

(** The letter e with an acute accent, U+00E9. *)
Definition e_acute : string := String (ascii_of_N 233) "".

(** What folium checks of the locations it is given: a coordinate must not
    be a NaN, and the locations of a line must not be empty; [ValueError]
    otherwise ([validate_location] and [validate_locations] of
    [folium.utilities]). The locations are returned as they are. *)
Definition has_nan (p : LatLng) : bool :=
  B64.is_nan (fst p) || B64.is_nan (snd p).

Definition validate_location (location : LatLng) : result LatLng :=
  if has_nan location then Raise ValueError else Ok location.

Fixpoint validate_each (locations : list LatLng) : result (list LatLng) :=
  match locations with
  | [] => Ok []
  | p :: ps =>
      q <- validate_location p ;;
      qs <- validate_each ps ;;
      Ok (q :: qs)
  end.

Definition validate_locations (locations : list LatLng) : result (list LatLng) :=
  if is_nil locations then Raise ValueError else validate_each locations.

(** The feature group of one trajectory: the line, then the start and the
    end markers, each checked by folium as it is made. *)
Definition trajectory_group (name : string) (points : list LatLng) (color : string)
  : result FeatureGroup :=
  locations <- validate_locations points ;;
  let line :=
    {| pl_locations := locations; pl_color := color; pl_weight := 3;
       pl_opacity := PyFloat.lit "0.9"; pl_dash_array := None;
       pl_tooltip := "Trajectoire: " ++ name |} in
  start <- py_index points 0 ;;
  end_ <- py_index points (-1) ;;
  start_location <- validate_location start ;;
  let start_marker :=
    {| cm_location := start_location; cm_radius := 6; cm_color := "#1a7f37";
       cm_weight := 2; cm_fill := true; cm_fill_color := "#34c759";
       cm_fill_opacity := PyFloat.lit "1.0";
       cm_tooltip := "D" ++ e_acute ++ "part: " ++ name;
       cm_popup := "D" ++ e_acute ++ "part (" ++ name ++ ")" |} in
  end_location <- validate_location end_ ;;
  let end_marker :=
    {| cm_location := end_location; cm_radius := 6; cm_color := "#7f1a1a";
       cm_weight := 2; cm_fill := true; cm_fill_color := "#ff3b30";
       cm_fill_opacity := PyFloat.lit "1.0";
       cm_tooltip := "Arriv" ++ e_acute ++ "e: " ++ name;
       cm_popup := "Arriv" ++ e_acute ++ "e (" ++ name ++ ")" |} in
  Ok {| fg_name := name; fg_show := true;
        fg_children := [Line line; Circle start_marker; Circle end_marker] |}.

(** The loop of [build_map] over [points_by_file.items()], with the legend
    items and the groups added so far. *)
Fixpoint build_groups (items : list (string * list LatLng))
  (colors_by_file : Dict.t string)
  (legend_items : list (string * string)) (groups : list FeatureGroup)
  : result (list (string * string) * list FeatureGroup) :=
  match items with
  | [] => Ok (legend_items, groups)
  | (name, points) :: items' =>
      if is_nil points then build_groups items' colors_by_file legend_items groups
      else
        let color :=
          match Dict.get name colors_by_file with
          | Some c => c
          | None => "#3388ff"
          end in
        group <- trajectory_group name points color ;;
        build_groups items' colors_by_file
          (legend_items ++ [(name, color)])%list (groups ++ [group])%list
  end.

(** [build_map]. [folium.Map] comes first: it raises [ValueError] for a tile
    set that is given by a name folium does not know, the code passing no
    attribution; [tiles_known] says whether folium knows [tiles]. *)
Definition build_map (has_element tiles_known : bool) (points_by_file : points_dict)
  (colors_by_file : Dict.t string) (tiles : string) : result Map :=
  if negb tiles_known then Raise ValueError
  else
    lg <- build_groups points_by_file colors_by_file [] [] ;;
    let '(legend_items, groups) := lg in
    bounds <- fit_bounds_from_points points_by_file ;;
    let m :=
      {| map_location := [20; 0]; map_zoom_start := 2; map_tiles := tiles;
         map_control_scale := true; map_groups := groups;
         map_layer_control := true;
         map_fit_bounds :=
           match bounds with
           | Some b => Some (b, (30, 30))
           | None => None
           end;
         map_html := [] |} in
    Ok (add_legend has_element m legend_items).

(** The loop of [main] over the CSV files, a file being its name and the
    rows [csv.reader] yields for it. *)
Fixpoint load_files (csv_files : list (string * list (list string)))
  (points_by_file : points_dict) : result points_dict :=
  match csv_files with
  | [] => Ok points_by_file
  | (name, reader) :: rest =>
      pts <- load_csv_points reader ;;
      if is_nil pts then load_files rest points_by_file
      else load_files rest (Dict.set name pts points_by_file)
  end.

(** [main], from the list of CSV files on: the exit code, and the map that
    is saved when there is one. Printing, saving and the PNG snapshot are
    left to the collaborators. [build_map] is called with its default tile
    set, [CartoDB positron], which folium knows. *)
Definition main (has_element : bool)
  (csv_files : list (string * list (list string))) : result (Z * option Map) :=
  if is_nil csv_files then Ok (1, None)
  else
    points_by_file <- load_files csv_files [] ;;
    if is_nil points_by_file then Ok (1, None)
    else
      colors <- generate_palette (Z.of_nat (List.length points_by_file)) ;;
      let colors_by_file :=
        Dict.of_pairs (combine (Dict.keys points_by_file) colors) in
      m <- build_map has_element true points_by_file colors_by_file "CartoDB positron" ;;
      Ok (0, Some m).

(** ** [geoloc/get_loc_ipv4.py]: the list of addresses *)

(** One turn of [for line in file]: the line is trimmed, tested against the
    list built so far, and added with its surrounding asterisks removed. *)
Definition collect_step (ip_list : list string) (line : string) : list string :=
  let ip := Str.strip line in
  if negb (String.eqb ip "") && negb (Str.mem ip ip_list)
  then (ip_list ++ [Str2.strip_chars "*" ip])%list
  else ip_list.

Definition collect_ips (lines : list string) : list string :=
  fold_left collect_step lines [].

(** ** [24_data/process_data.py] *)

(** A result that is a value or a [KeyError] on a key. *)
Inductive keyed (A : Type) : Type :=
  | Found (a : A)
  | KeyError (key : string).

Arguments Found {A} a.
Arguments KeyError {A} key.

(** [parse_json], from the objects [json.load] returns for the files on:
    the loop over [args] for one object, then the loop over the objects. *)
Fixpoint parse_args {V : Type} (args : list string) (data : Dict.t V)
  (json_dict : Dict.t (list V)) : keyed (Dict.t (list V)) :=
  match args with
  | [] => Found json_dict
  | arg :: args' =>
      match Dict.get arg data with
      | None => KeyError arg
      | Some v =>
          match Dict.get arg json_dict with
          | Some ((_ :: _) as l) =>
              parse_args args' data (Dict.set arg (l ++ [v])%list json_dict)
          | _ => parse_args args' data (Dict.set arg [v] json_dict)
          end
      end
  end.

Fixpoint parse_files {V : Type} (args : list string) (datas : list (Dict.t V))
  (json_dict : Dict.t (list V)) : keyed (Dict.t (list V)) :=
  match datas with
  | [] => Found json_dict
  | data :: datas' =>
      match parse_args args data json_dict with
      | Found d => parse_files args datas' d
      | KeyError k => KeyError k
      end
  end.

Definition parse_json {V : Type} (args : list string) (datas : list (Dict.t V))
  : keyed (Dict.t (list V)) :=
  parse_files args datas [].

(** [range(0, stop, step)] for a positive [step]. *)
Definition range_step (stop step : Z) : list Z :=
  map (fun k => Z.of_nat k * step) (seq 0 (Z.to_nat ((stop + step - 1) / step))).

(** [sorted(set(l))] on integers: the members of [l], each once, in
    increasing order. *)
Fixpoint insert_sorted (z : Z) (l : list Z) : list Z :=
  match l with
  | [] => [z]
  | x :: l' =>
      if z <? x then z :: l
      else if z =? x then l
      else x :: insert_sorted z l'
  end.

Definition sorted_set (l : list Z) : list Z := fold_right insert_sorted [] l.

(** The tick indices of [graph_data], for [n = len(json_dict[key])]. *)
Definition tick_indices (n : Z) : list Z :=
  sorted_set ([0; n - 1] ++ range_step n 25)%list.

(** The abscissa [graph_data] makes of the path of a file:
    [j.split("_")[0].strip("data/")]. *)
Definition x_label (j : string) : result string :=
  p <- py_index (Str2.split "_" j) 0 ;;
  Ok (Str2.strip_chars "data/" p).

(** ** Definitions for the statements on the map, the addresses and the data *)

(** [esc] on one character *)
Definition esc_char (c : ascii) : string :=
  if Ascii.eqb c "&" then "&amp;"
  else if Ascii.eqb c "<" then "&lt;"
  else if Ascii.eqb c ">" then "&gt;"
  else String c "".

Fixpoint flat_map_string (f : ascii -> string) (s : string) : string :=
  match s with
  | EmptyString => EmptyString
  | String c s' => f c ++ flat_map_string f s'
  end.

(** the color [build_map] draws a trajectory with *)
Definition color_of (colors_by_file : Dict.t string) (name : string) : string :=
  match Dict.get name colors_by_file with
  | Some c => c
  | None => "#3388ff"
  end.

(** the trajectories that have a point *)
Definition kept (d : points_dict) : points_dict :=
  filter (fun kv => negb (is_nil (snd kv))) d.

(** [g] is the group of the trajectory [kv] drawn in [color] *)
Definition group_for (kv : string * list LatLng) (color : string) (g : FeatureGroup)
  : Prop :=
  fg_name g = fst kv
  /\ exists line s e,
       fg_children g = [Line line; Circle s; Circle e]
       /\ pl_locations line = snd kv
       /\ pl_color line = color
       /\ hd_error (snd kv) = Some (cm_location s)
       /\ last (snd kv) (cm_location s) = cm_location e.

(** what the loop keeps: every trajectory has a point, all of them in range,
    under distinct names *)
Definition kept_ok (d : points_dict) : Prop :=
  NoDup (Dict.keys d)
  /\ forall k pts, In (k, pts) d ->
       pts <> [] /\ Forall (fun p => in_range p = true) pts.

Definition is_finite (x : float) : bool :=
  match x with
  | S754_zero _ | S754_finite _ _ _ => true
  | _ => false
  end.

(** every character of [s] is one of [chars] *)
Fixpoint all_in (chars s : string) : bool :=
  match s with
  | EmptyString => true
  | String c s' => Str.contains c chars && all_in chars s'
  end.

(** [s] begins with one of [chars] *)
Definition starts_in (chars s : string) : bool :=
  match s with
  | EmptyString => false
  | String c _ => Str.contains c chars
  end.

(** [s] ends with one of [chars] *)
Definition ends_in (chars s : string) : bool := starts_in chars (Str.rev s).

(** the list [parse_json] stores under a key that held [old] *)
Definition appended {V : Type} (old : option (list V)) (v : V) : list V :=
  match old with
  | Some ((_ :: _) as l) => (l ++ [v])%list
  | _ => [v]
  end.

(** the value of [arg] in each object, in order *)
Definition column {V : Type} (arg : string) (datas : list (Dict.t V)) (l : list V) : Prop :=
  Forall2 (fun data v => Dict.get arg data = Some v) datas l.

(** what the dictionary holds once the objects [done] have been read *)
Definition parsed {V : Type} (args : list string) (done : list (Dict.t V))
  (d : Dict.t (list V)) : Prop :=
  match done with
  | [] => d = []
  | _ :: _ =>
      Dict.keys d = args
      /\ forall arg, In arg args -> exists l, Dict.get arg d = Some l /\ column arg done l
  end.

(** ** The decimal representation of a double *)

(** The character of the decimal digit [d], for [0 <= d < 10]. *)
Definition digit_char (d : Z) : ascii := ascii_of_N (Z.to_N (48 + d)).

(** The last [k] decimal digits of [n]. *)
Fixpoint last_digits (k : nat) (n : Z) : list ascii :=
  match k with
  | O => []
  | S k' => (last_digits k' (n / 10) ++ [digit_char (n mod 10)])%list
  end.

(** Leading zeros are dropped, but for the last digit. *)
Fixpoint drop_zeros (l : list ascii) : list ascii :=
  match l with
  | c :: r =>
      match r with
      | [] => l
      | _ :: _ => if Ascii.eqb c "0" then drop_zeros r else l
      end
  | [] => []
  end.

(** The decimal digits of [n >= 0], without a leading zero. *)
Definition int_digits (n : Z) : list ascii :=
  drop_zeros (last_digits (S (Z.to_nat (Z.log2 n))) n).

(** A signed numeral with a point: the digits [ip], a point, the digits
    [fp]. *)
Definition numeral (neg : bool) (ip fp : list ascii) : string :=
  string_of_list_ascii
    ((if neg then ["-"%char] else []) ++ ip ++ "."%char :: fp)%list.

(** The decimal representation of a double: its exact value, written with
    the digits of its integer part, a point, and the digits of its
    fractional part down to the weight of its last bit (one digit for an
    integer). *)
Definition decimal (x : float) : string :=
  match x with
  | S754_zero s => numeral s ["0"%char] ["0"%char]
  | S754_infinity s => if s then "-inf" else "inf"
  | S754_nan => "nan"
  | S754_finite s m e =>
      let k := Z.max (- e) 1 in
      let n := Z.pos m * 2 ^ (e + k) * 5 ^ k in
      numeral s (int_digits (n / 10 ^ k)) (last_digits (Z.to_nat k) n)
  end.

(* ------------------------------------------------------------------ *)
(** * Properties *)

(** ** Checks of the model on values Python prints *)

Section Checks.

(** [struct.unpack(">Q", struct.pack(">d", float(s)))] for a few texts. *)
Example float_bits :
  map (fun s => B64.bits (PyFloat.lit s)) ["37.4"; "-122.1"; "0.1"; "5e-324"; "1_0.5"; "-0.0"; "inf"]
  = [4630460399373988659; 13861664477455738470; 4591870180066957722; 1;
     4622100592565682176; 9223372036854775808; 9218868437227405312].
Proof. vm_compute. reflexivity. Qed.

(** Texts [float] refuses. *)
Example float_refused :
  map PyFloat.of_string [""; "."; "1e"; "1__0"; "_1"; "0x10"; "1 2"; "+-1"]
  = repeat (Raise ValueError) 8.
Proof. vm_compute. reflexivity. Qed.

(** [parse_float] gives [None] on NaN. *)
Example parse_float_nan : parse_float " nan " = None.
Proof. vm_compute. reflexivity. Qed.

(** [(-0.25) % 1.0 == 0.75] and [2.5 % 1.0 == 0.5]. *)
Example float_rem_examples :
  Py.float_rem (PyFloat.lit "-0.25") (PyFloat.lit "1.0") = Ok (PyFloat.lit "0.75")
  /\ Py.float_rem (PyFloat.lit "2.5") (PyFloat.lit "1.0") = Ok (PyFloat.lit "0.5").
Proof. split; vm_compute; reflexivity. Qed.

(** [generate_palette(3)] *)
Example palette_3 : generate_palette 3 = Ok ["#e51919"; "#19e519"; "#1919e5"].
Proof. vm_compute. reflexivity. Qed.

(** [format(z, "02x")] *)
Example format_examples :
  map Py.format_02x [0; 15; 16; 255; 256; -1] = ["00"; "0f"; "10"; "ff"; "100"; "-1"].
Proof. vm_compute. reflexivity. Qed.

End Checks.

(** ** Comparison of doubles *)

Section Compare.

Lemma compare_cont_refl (p : positive) : Pos.compare_cont Eq p p = Eq.
Proof. apply Pos.compare_cont_refl. Qed.

Lemma eqb_self_false (v : float) : B64.eqb v v = false <-> v = S754_nan.
Proof.
  unfold B64.eqb, SFeqb.
  destruct v as [s|s| |s m e]; simpl; split; try congruence;
    try (destruct s; discriminate).
  destruct s; rewrite Z.compare_refl, compare_cont_refl; discriminate.
Qed.

Ltac compare_cases :=
  repeat match goal with
    | H : context [Z.compare ?a ?b] |- _ => destruct (Z.compare_spec a b)
    | H : context [Pos.compare ?a ?b] |- _ => destruct (Pos.compare_spec a b)
    | |- context [Z.compare ?a ?b] => destruct (Z.compare_spec a b)
    | |- context [Pos.compare ?a ?b] => destruct (Pos.compare_spec a b)
    end;
  cbn in *; try discriminate; try reflexivity; try congruence; try lia.

Ltac float_cases x :=
  destruct x as [[|]|[|]| |[|] ? ?]; cbn in *;
  change (Pos.compare_cont Eq) with Pos.compare in *.

Lemma ltb_leb (x y : float) : B64.ltb x y = true -> B64.leb x y = true.
Proof.
  unfold B64.ltb, B64.leb, SFltb, SFleb.
  destruct (SFcompare x y) as [[| |]|]; congruence.
Qed.

Lemma leb_refl (x : float) : x <> S754_nan -> B64.leb x x = true.
Proof.
  unfold B64.leb, SFleb. intros N.
  float_cases x; try reflexivity; try congruence;
    rewrite Z.compare_refl, Pos.compare_refl; reflexivity.
Qed.

Lemma ltb_false_leb (x y : float) :
  x <> S754_nan -> y <> S754_nan -> B64.ltb x y = false -> B64.leb y x = true.
Proof.
  unfold B64.ltb, B64.leb, SFltb, SFleb. intros Nx Ny.
  float_cases x; float_cases y; try congruence; compare_cases.
Qed.

Lemma leb_trans (x y z : float) :
  B64.leb x y = true -> B64.leb y z = true -> B64.leb x z = true.
Proof.
  unfold B64.leb, SFleb.
  float_cases x; float_cases y; try discriminate;
    float_cases z; try discriminate; try reflexivity; compare_cases.
Qed.

End Compare.

(** ** Rounding to binary64 *)

Section Rounding.

Section Dyadic.

Local Open Scope Q_scope.

Lemma two_neq_0 : ~ 2 == 0.
Proof. discriminate. Qed.

Lemma pow2_pos (e : Z) : 0 < 2 ^ e.
Proof. apply Qpower_0_lt. reflexivity. Qed.

Lemma pow2_add (a b : Z) : 2 ^ (a + b) == 2 ^ a * 2 ^ b.
Proof. apply Qpower_plus, two_neq_0. Qed.

Lemma pow2_Z (n : Z) : (0 <= n)%Z -> 2 ^ n == inject_Z (2 ^ n).
Proof. intros H. rewrite Zpower_Qpower by exact H. reflexivity. Qed.

Lemma pow2_le (a b : Z) : (a <= b)%Z -> 2 ^ a <= 2 ^ b.
Proof. intros H. apply Qpower_le_compat_l; [exact H | discriminate]. Qed.

Lemma pow2_lt_inv (a b : Z) : 2 ^ a < 2 ^ b -> (a < b)%Z.
Proof. intros H. apply Qpower_lt_compat_l_inv with (q := 2); [exact H | reflexivity]. Qed.

Lemma F2Q_shift (m e k : Z) : (0 <= k)%Z -> F2Q (m * 2 ^ k) (e - k) == F2Q m e.
Proof.
  intros H. unfold F2Q. rewrite inject_Z_mult, <- pow2_Z by exact H.
  rewrite <- Qmult_assoc, <- pow2_add. 
  replace (k + (e - k))%Z with e by lia. reflexivity.
Qed.

Lemma F2Q_le (m1 m2 e : Z) : F2Q m1 e <= F2Q m2 e <-> (m1 <= m2)%Z.
Proof.
  unfold F2Q. pose proof (pow2_pos e) as P. rewrite Zle_Qle. split; intros H.
  - apply Qmult_le_r in H; assumption.
  - apply Qmult_le_r; assumption.
Qed.

Lemma F2Q_lt (m1 m2 e : Z) : F2Q m1 e < F2Q m2 e <-> (m1 < m2)%Z.
Proof.
  unfold F2Q. pose proof (pow2_pos e) as P. rewrite Zlt_Qlt. split; intros H.
  - apply Qmult_lt_r in H; assumption.
  - apply Qmult_lt_r; assumption.
Qed.

Lemma F2Q_mul (m1 e1 m2 e2 : Z) : F2Q m1 e1 * F2Q m2 e2 == F2Q (m1 * m2) (e1 + e2).
Proof. unfold F2Q. rewrite inject_Z_mult, pow2_add. ring. Qed.

Lemma F2Q_add (m1 m2 e : Z) : F2Q m1 e + F2Q m2 e == F2Q (m1 + m2) e.
Proof. unfold F2Q. rewrite inject_Z_plus. ring. Qed.

Lemma F2Q_nonneg (m e : Z) : (0 <= m)%Z -> 0 <= F2Q m e.
Proof.
  intros H. unfold F2Q. apply Qmult_le_0_compat.
  - change 0 with (inject_Z 0). rewrite <- Zle_Qle. exact H.
  - apply Qlt_le_weak, pow2_pos.
Qed.

End Dyadic.

Lemma digits_size (p : positive) : digits2_pos p = Pos.size p.
Proof. induction p; simpl; congruence. Qed.

Lemma digits_log2 (p : positive) : Z.pos (digits2_pos p) = Z.log2 (Z.pos p) + 1.
Proof.
  rewrite digits_size. destruct p; simpl; try reflexivity; rewrite Pos.add_1_r; reflexivity.
Qed.

Lemma Zdigits2_log2 (m : Z) : 0 < m -> Zdigits2 m = Z.log2 m + 1.
Proof. destruct m; try lia. intros _. apply digits_log2. Qed.

Lemma Zdigits2_bounds (m : Z) :
  0 < m -> 2 ^ (Zdigits2 m - 1) <= m < 2 ^ Zdigits2 m.
Proof.
  intros H. rewrite Zdigits2_log2 by exact H.
  replace (Z.log2 m + 1 - 1) with (Z.log2 m) by lia.
  apply Z.log2_spec, H.
Qed.

Lemma Zdigits2_nonneg (m : Z) : 0 <= m -> 0 <= Zdigits2 m.
Proof. destruct m; simpl; lia. Qed.

Lemma Zdigits2_unique (m d : Z) : 2 ^ (d - 1) <= m < 2 ^ d -> 0 < d -> Zdigits2 m = d.
Proof.
  intros H D. assert (0 < m) by (pose proof (Z.pow_pos_nonneg 2 (d - 1)); lia).
  rewrite Zdigits2_log2 by assumption.
  assert (Z.log2 m = d - 1); [|lia].
  apply Z.log2_unique; [lia|]. replace (Z.succ (d - 1)) with d by lia. exact H.
Qed.

Lemma Zdigits2_div (m n : Z) :
  0 < m -> 0 <= n < Zdigits2 m -> Zdigits2 (m / 2 ^ n) = Zdigits2 m - n.
Proof.
  intros Hm Hn. pose proof (Zdigits2_bounds m Hm) as B.
  apply Zdigits2_unique; [|lia].
  assert (P : 0 < 2 ^ n) by (apply Z.pow_pos_nonneg; lia).
  assert (E1 : 2 ^ (Zdigits2 m - 1) = 2 ^ (Zdigits2 m - n - 1) * 2 ^ n)
    by (rewrite <- Z.pow_add_r by lia; f_equal; lia).
  assert (E2 : 2 ^ Zdigits2 m = 2 ^ (Zdigits2 m - n) * 2 ^ n)
    by (rewrite <- Z.pow_add_r by lia; f_equal; lia).
  split.
  - apply Z.div_le_lower_bound; [exact P|]. lia.
  - apply Z.div_lt_upper_bound; [exact P|]. lia.
Qed.

Lemma Zdigits2_le (a b : Z) : 0 <= a <= b -> Zdigits2 a <= Zdigits2 b.
Proof.
  intros [Ha Hab]. destruct (Z.eq_dec a 0) as [->|N].
  - apply Zdigits2_nonneg. lia.
  - rewrite !Zdigits2_log2 by lia. pose proof (Z.log2_le_mono a b Hab). lia.
Qed.

(** Iterated shifts. *)
Lemma iter_pos_nat {A : Type} (f : A -> A) (p : positive) (x : A) :
  SpecFloat.iter_pos f p x = Nat.iter (Pos.to_nat p) f x.
Proof.
  revert x. induction p as [p IH|p IH|]; intros x; cbn [SpecFloat.iter_pos].
  - rewrite !IH, Pos2Nat.inj_xI, Nat.iter_succ_r.
    replace (2 * Pos.to_nat p)%nat with (Pos.to_nat p + Pos.to_nat p)%nat by lia.
    rewrite Nat.iter_add. reflexivity.
  - rewrite !IH, Pos2Nat.inj_xO.
    replace (2 * Pos.to_nat p)%nat with (Pos.to_nat p + Pos.to_nat p)%nat by lia.
    rewrite Nat.iter_add. reflexivity.
  - reflexivity.
Qed.


Lemma shr_1_m (r : shr_record) : 0 <= shr_m r -> shr_m (shr_1 r) = shr_m r / 2.
Proof.
  destruct r as [m r s]. cbn [shr_m]. intros H.
  destruct m as [|[p|p|]|p]; cbn [shr_1 shr_m]; try lia; try reflexivity.
  - rewrite Pos2Z.inj_xI. apply Z.div_unique with 1; lia.
  - rewrite Pos2Z.inj_xO. apply Z.div_unique with 0; lia.
Qed.

Lemma shr_1_inexact (r : shr_record) :
  0 <= shr_m r -> inexact (shr_1 r) = true -> inexact r = true \/ shr_m r mod 2 <> 0.
Proof.
  destruct r as [m r s]. unfold inexact. cbn [shr_m shr_r shr_s]. intros H.
  destruct m as [|[p|p|]|p]; cbn [shr_1 shr_m shr_r shr_s]; try lia;
    intros I; try (left; rewrite orb_false_l in I; exact I).
  - right. rewrite Pos2Z.inj_xI. rewrite Z.add_comm, Z.mul_comm, Z.mod_add by lia. discriminate.
  - right. discriminate.
Qed.

Lemma shr_iter (k : nat) (r : shr_record) :
  0 <= shr_m r ->
  shr_m (Nat.iter k shr_1 r) = shr_m r / 2 ^ Z.of_nat k
  /\ (inexact (Nat.iter k shr_1 r) = true ->
      inexact r = true \/ shr_m r mod 2 ^ Z.of_nat k <> 0).
Proof.
  intros H. induction k as [|k IH]; [|rewrite Nat.iter_succ].
  - cbn. rewrite Z.div_1_r. split; [reflexivity | intros I; left; exact I].
  - destruct IH as [IHm IHi].
    assert (P : 0 < 2 ^ Z.of_nat k) by (apply Z.pow_pos_nonneg; lia).
    assert (H' : 0 <= shr_m (Nat.iter k shr_1 r)) by (rewrite IHm; apply Z.div_pos; lia).
    assert (E : 2 ^ Z.of_nat (S k) = 2 ^ Z.of_nat k * 2)
      by (rewrite Nat2Z.inj_succ, Z.pow_succ_r by lia; lia).
    split.
    + rewrite shr_1_m by exact H'. rewrite IHm, E, Z.div_div by lia. reflexivity.
    + intros I. apply shr_1_inexact in I; [|exact H'].
      destruct I as [I|I].
      * destruct (IHi I) as [J|J]; [left; exact J|]. right.
        rewrite E. intros Z0. apply J.
        apply Z.mod_divide in Z0; [|lia]. destruct Z0 as [q Hq].
        rewrite Hq. replace (q * (2 ^ Z.of_nat k * 2)) with (q * 2 * 2 ^ Z.of_nat k) by ring.
        apply Z.mod_mul. lia.
      * right. rewrite IHm in I. rewrite E. intros Z0. apply I.
        apply Z.mod_divide in Z0; [|lia]. destruct Z0 as [q Hq].
        rewrite Hq. replace (q * (2 ^ Z.of_nat k * 2)) with (q * 2 * 2 ^ Z.of_nat k) by ring.
        rewrite Z.div_mul by lia. apply Z.mod_mul. lia.
Qed.


Lemma fexp_eq (e : Z) : fexp B64.prec B64.emax e = Z.max (e - 53) (-1074).
Proof. reflexivity. Qed.

Lemma shr_spec (m e n : Z) (l : location) :
  0 <= m ->
  snd (shr (shr_record_of_loc m l) e n) = e + Z.max 0 n
  /\ shr_m (fst (shr (shr_record_of_loc m l) e n)) = m / 2 ^ Z.max 0 n
  /\ (inexact (fst (shr (shr_record_of_loc m l) e n)) = true ->
      l <> loc_Exact \/ m mod 2 ^ Z.max 0 n <> 0).
Proof.
  intros H.
  assert (M : shr_m (shr_record_of_loc m l) = m) by (destruct l as [|[]]; reflexivity).
  assert (I : inexact (shr_record_of_loc m l) = true -> l <> loc_Exact)
    by (destruct l as [|[]]; cbn; congruence).
  destruct n as [|p|p]; cbn [shr fst snd].
  - rewrite Z.max_id, Z.add_0_r, Z.div_1_r. auto.
  - rewrite iter_pos_nat.
    destruct (shr_iter (Pos.to_nat p) (shr_record_of_loc m l)) as [A B];
      [rewrite M; exact H|].
    rewrite positive_nat_Z, M in A, B.
    replace (Z.max 0 (Z.pos p)) with (Z.pos p) by lia.
    repeat split; [exact A|]. intros J. destruct (B J); auto.
  - replace (Z.max 0 (Z.neg p)) with 0 by lia.
    rewrite Z.add_0_r, Z.div_1_r. auto.
Qed.

Lemma rne_bounds (r : shr_record) :
  let m' := round_nearest_even (shr_m r) (loc_of_shr_record r) in
  shr_m r <= m' <= shr_m r + 1 /\ (inexact r = false -> m' = shr_m r).
Proof.
  destruct r as [m [|] [|]]; cbn; try destruct (Z.even m); split; try lia; congruence.
Qed.

(** The two shifts of [binary_round_aux], as arithmetic. *)
Lemma round_aux_cases (sx : bool) (mx ex : Z) (lx : location) :
  0 <= mx ->
  let n := Z.max 0 (fexp B64.prec B64.emax (Zdigits2 mx + ex) - ex) in
  exists m' : Z,
    (mx / 2 ^ n <= m' <= mx / 2 ^ n + 1)
    /\ (lx = loc_Exact -> mx mod 2 ^ n = 0 -> m' = mx / 2 ^ n)
    /\ binary_round_aux B64.prec B64.emax sx mx ex lx =
       let e' := ex + n in
       let n2 := Z.max 0 (fexp B64.prec B64.emax (Zdigits2 m' + e') - e') in
       match m' / 2 ^ n2 with
       | Z0 => S754_zero sx
       | Zpos m => if e' + n2 <=? B64.emax - B64.prec then S754_finite sx m (e' + n2)
                   else S754_infinity sx
       | Zneg _ => S754_nan
       end.
Proof.
  intros H n. unfold binary_round_aux, shr_fexp.
  destruct (shr_spec mx ex (fexp B64.prec B64.emax (Zdigits2 mx + ex) - ex) lx H) as (E1 & M1 & I1).
  fold n in E1, M1, I1.
  destruct (shr (shr_record_of_loc mx lx) ex (fexp B64.prec B64.emax (Zdigits2 mx + ex) - ex))
    as [r1 e1]. cbn [fst snd] in E1, M1, I1.
  destruct (rne_bounds r1) as [B1 X1].
  set (m' := round_nearest_even (shr_m r1) (loc_of_shr_record r1)) in *.
  exists m'. rewrite M1 in B1, X1. split; [exact B1|]. split.
  - intros -> Z0. apply X1. destruct (inexact r1) eqn:E; [|reflexivity].
    destruct (I1 eq_refl); congruence.
  - assert (H' : 0 <= m').
    { assert (0 <= mx / 2 ^ n) by (apply Z.div_pos; [lia | apply Z.pow_pos_nonneg; lia]). lia. }
    destruct (shr_spec m' e1 (fexp B64.prec B64.emax (Zdigits2 m' + e1) - e1) loc_Exact H')
      as (E2 & M2 & _).
    destruct (shr (shr_record_of_loc m' loc_Exact) e1 (fexp B64.prec B64.emax (Zdigits2 m' + e1) - e1))
      as [r2 e2]. cbn [fst snd] in E2, M2.
    rewrite M2, E2, E1. reflexivity.
Qed.

Lemma F2Q_mag_lower (m e : Z) : 0 < m -> (2 ^ (Zdigits2 m + e - 1) <= F2Q m e)%Q.
Proof.
  intros H. pose proof (Zdigits2_bounds m H) as [B _].
  assert (D : 0 <= Zdigits2 m - 1).
  { rewrite Zdigits2_log2 by exact H. pose proof (Z.log2_nonneg m). lia. }
  replace (Zdigits2 m + e - 1) with ((Zdigits2 m - 1) + e) by lia.
  rewrite pow2_add, pow2_Z by exact D.
  apply (proj2 (F2Q_le _ _ e)). exact B.
Qed.

Lemma F2Q_mag_upper (m e : Z) : 0 < m -> (F2Q m e < 2 ^ (Zdigits2 m + e))%Q.
Proof.
  intros H. pose proof (Zdigits2_bounds m H) as [_ B].
  assert (D : 0 <= Zdigits2 m) by (apply Zdigits2_nonneg; lia).
  rewrite pow2_add, pow2_Z by exact D.
  apply (proj2 (F2Q_lt _ _ e)). exact B.
Qed.

Lemma F2Q_le_mag (m1 e1 m2 e2 : Z) :
  0 < m1 -> 0 < m2 -> (F2Q m1 e1 <= F2Q m2 e2)%Q ->
  Zdigits2 m1 + e1 <= Zdigits2 m2 + e2.
Proof.
  intros H1 H2 L.
  pose proof (F2Q_mag_lower m1 e1 H1) as A.
  pose proof (F2Q_mag_upper m2 e2 H2) as B.
  assert (C : (2 ^ (Zdigits2 m1 + e1 - 1) < 2 ^ (Zdigits2 m2 + e2))%Q).
  { eapply Qle_lt_trans; [exact A|]. eapply Qle_lt_trans; [exact L | exact B]. }
  apply pow2_lt_inv in C. lia.
Qed.

Lemma F2Q_div_le (m e n : Z) :
  0 <= m -> 0 <= n -> (F2Q (m / 2 ^ n) (e + n) <= F2Q m e)%Q.
Proof.
  intros Hm Hn.
  rewrite <- (F2Q_shift (m / 2 ^ n) (e + n) n) by exact Hn.
  replace (e + n - n) with e by lia.
  apply (proj2 (F2Q_le _ _ e)).
  assert (P : 0 < 2 ^ n) by (apply Z.pow_pos_nonneg; lia).
  rewrite Z.mul_comm. apply Z.mul_div_le, P.
Qed.

(** Rounding an exact value that is already aligned on the format's grid
    or below it: the result is a zero or a double in canonical form, and
    it does not exceed any double [bm * 2^be] that the exact value does not
    exceed. *)
Theorem round_exact_le (sx : bool) (mx ex : Z) (bm : positive) (be : Z) :
  0 < mx ->
  ex <= fexp B64.prec B64.emax (Zdigits2 mx + ex) ->
  canonical_mantissa B64.prec B64.emax bm be = true ->
  be <= B64.emax - B64.prec ->
  (F2Q mx ex <= F2Q (Z.pos bm) be)%Q ->
  binary_round_aux B64.prec B64.emax sx mx ex loc_Exact = S754_zero sx
  \/ exists m e,
       binary_round_aux B64.prec B64.emax sx mx ex loc_Exact = S754_finite sx m e
       /\ bounded B64.prec B64.emax m e = true
       /\ (F2Q (Z.pos m) e <= F2Q (Z.pos bm) be)%Q.
Proof.
  intros Hm Hpre Hcan Hbe Hle.
  destruct (round_aux_cases sx mx ex loc_Exact) as (m' & Bm' & Xm' & ->); [lia|].
  cbv zeta.
  set (d := Zdigits2 mx) in *. set (fe := fexp B64.prec B64.emax (d + ex)) in *.
  replace (Z.max 0 (fe - ex)) with (fe - ex) in * by lia.
  replace (ex + (fe - ex)) with fe by lia.
  set (n := fe - ex) in *.
  unfold canonical_mantissa in Hcan. apply Z.eqb_eq in Hcan.
  change (Z.pos (digits2_pos bm)) with (Zdigits2 (Z.pos bm)) in Hcan.
  set (dB := Zdigits2 (Z.pos bm)) in *.
  assert (Hmag : d + ex <= dB + be) by (apply F2Q_le_mag; [lia | lia | exact Hle]).
  assert (Hfe : fe = Z.max (d + ex - 53) (-1074)) by reflexivity.
  rewrite fexp_eq in Hcan.
  assert (Hfebe : fe <= be) by lia.
  assert (Pn : 0 < 2 ^ n) by (apply Z.pow_pos_nonneg; lia).
  set (bZ := Z.pos bm * 2 ^ (be - fe)).
  assert (EB : (F2Q bZ fe == F2Q (Z.pos bm) be)%Q).
  { unfold bZ. rewrite <- (F2Q_shift (Z.pos bm) be (be - fe)) by lia.
    replace (be - (be - fe)) with fe by lia. reflexivity. }
  assert (Hmx : mx <= bZ * 2 ^ n).
  { apply (proj1 (F2Q_le _ _ ex)).
    replace ex with (fe - n) at 2 by (unfold n; lia).
    rewrite F2Q_shift by lia. rewrite EB. exact Hle. }
  assert (Hm'b : m' <= bZ).
  { assert (mx / 2 ^ n <= bZ) by (apply Z.div_le_upper_bound; lia).
    destruct (Z.eq_dec (mx mod 2 ^ n) 0) as [Z0|NZ].
    - rewrite (Xm' eq_refl Z0). assumption.
    - assert (mx <> bZ * 2 ^ n) by (intros E; apply NZ; rewrite E; apply Z.mod_mul; lia).
      assert (mx / 2 ^ n < bZ) by (apply Z.div_lt_upper_bound; lia).
      lia. }
  assert (Hm1 : 0 <= mx / 2 ^ n) by (apply Z.div_pos; lia).
  assert (Hm'0 : 0 <= m') by lia.
  set (d' := Zdigits2 m') in *.
  set (n2 := Z.max 0 (fexp B64.prec B64.emax (d' + fe) - fe)).
  assert (Hn2 : 0 <= n2) by lia.
  assert (Hval : (F2Q (m' / 2 ^ n2) (fe + n2) <= F2Q (Z.pos bm) be)%Q).
  { eapply Qle_trans; [apply F2Q_div_le; lia|].
    rewrite <- EB. apply (proj2 (F2Q_le _ _ fe)). exact Hm'b. }
  destruct (m' / 2 ^ n2) as [|m|m] eqn:Em''.
  - left. reflexivity.
  - right.
    assert (Hm'pos : 0 < m').
    { destruct (Z.eq_dec m' 0) as [Z0|]; [|lia]. rewrite Z0 in Em''.
      rewrite Z.div_0_l in Em'' by (apply Z.pow_nonzero; lia). discriminate. }
    (* digits of the rounded mantissa *)
    assert (Hd'53 : -1074 < fe -> 53 <= d').
    { intros F. assert (Hn : 0 <= n < d) by lia.
      pose proof (Zdigits2_div mx n Hm Hn) as Q1. fold d in Q1.
      assert (Zdigits2 (mx / 2 ^ n) <= d') by (apply Zdigits2_le; lia).
      lia. }
    assert (Hcan' : fexp B64.prec B64.emax (Zdigits2 (Z.pos m) + (fe + n2)) = fe + n2).
    { rewrite <- Em''. rewrite fexp_eq. unfold n2. rewrite fexp_eq.
      destruct (Z_le_gt_dec (Z.max (d' + fe - 53) (-1074)) fe) as [C|C].
      - replace (Z.max 0 (Z.max (d' + fe - 53) (-1074) - fe)) with 0 by lia.
        rewrite Z.div_1_r. fold d'. lia.
      - assert (E : Z.max 0 (Z.max (d' + fe - 53) (-1074) - fe) = d' - 53) by lia.
        rewrite E. rewrite Zdigits2_div by (fold d'; lia). fold d'. lia. }
    assert (Hmag' : Zdigits2 (Z.pos m) + (fe + n2) <= dB + be)
      by (apply F2Q_le_mag; [lia | lia | exact Hval]).
    assert (He : fe + n2 <= B64.emax - B64.prec).
    { rewrite <- Hcan'. rewrite fexp_eq. lia. }
    exists m, (fe + n2). split; [|split].
    + destruct (Z.leb_spec (fe + n2) (B64.emax - B64.prec)); [reflexivity | lia].
    + unfold bounded, canonical_mantissa.
      change (Z.pos (digits2_pos m)) with (Zdigits2 (Z.pos m)).
      rewrite Hcan', Z.eqb_refl. apply Z.leb_le in He. rewrite He. reflexivity.
    + exact Hval.
  - exfalso. assert (0 <= m' / 2 ^ n2) by (apply Z.div_pos; [lia | apply Z.pow_pos_nonneg; lia]).
    lia.
Qed.

Lemma Zdigits2_mul_pow2 (m k : Z) :
  0 < m -> 0 <= k -> Zdigits2 (m * 2 ^ k) = Zdigits2 m + k.
Proof.
  intros Hm Hk.
  assert (0 < 2 ^ k) by (apply Z.pow_pos_nonneg; lia).
  rewrite !Zdigits2_log2 by lia. rewrite Z.log2_mul_pow2 by lia. lia.
Qed.

Lemma shl_align_spec (mx : positive) (ex ex' : Z) :
  snd (shl_align mx ex ex') = Z.min ex ex'
  /\ Z.pos (fst (shl_align mx ex ex')) = Z.pos mx * 2 ^ (ex - Z.min ex ex').
Proof.
  unfold shl_align. destruct (ex' - ex) as [|p|p] eqn:E; cbn [fst snd].
  - replace (Z.min ex ex') with ex by lia. rewrite Z.sub_diag. lia.
  - replace (Z.min ex ex') with ex by lia. rewrite Z.sub_diag. lia.
  - replace (Z.min ex ex') with ex' by lia.
    replace (ex - ex') with (Z.pos p) by lia.
    change (Pos.iter xO mx p) with (shift_pos p mx).
    rewrite shift_pos_correct. change (Z.pow_pos 2 p) with (2 ^ Z.pos p). lia.
Qed.

Lemma shl_align_val (mx : positive) (ex ex' : Z) :
  (F2Q (Z.pos (fst (shl_align mx ex ex'))) (snd (shl_align mx ex ex')) == F2Q (Z.pos mx) ex)%Q.
Proof.
  destruct (shl_align_spec mx ex ex') as [-> ->].
  rewrite <- (F2Q_shift (Z.pos mx) ex (ex - Z.min ex ex')) by lia.
  replace (ex - (ex - Z.min ex ex')) with (Z.min ex ex') by lia. reflexivity.
Qed.

(** The same for [binary_round], which aligns the mantissa first. *)
Theorem binary_round_le (sx : bool) (mx : positive) (ex : Z) (bm : positive) (be : Z) :
  bounded B64.prec B64.emax bm be = true ->
  (F2Q (Z.pos mx) ex <= F2Q (Z.pos bm) be)%Q ->
  binary_round B64.prec B64.emax sx mx ex = S754_zero sx
  \/ exists m e,
       binary_round B64.prec B64.emax sx mx ex = S754_finite sx m e
       /\ bounded B64.prec B64.emax m e = true
       /\ (F2Q (Z.pos m) e <= F2Q (Z.pos bm) be)%Q.
Proof.
  intros Hb Hle. unfold binary_round.
  pose proof (shl_align_spec mx ex (fexp B64.prec B64.emax (Z.pos (digits2_pos mx) + ex))) as [S1 S2].
  pose proof (shl_align_val mx ex (fexp B64.prec B64.emax (Z.pos (digits2_pos mx) + ex))) as SV.
  destruct (shl_align mx ex (fexp B64.prec B64.emax (Z.pos (digits2_pos mx) + ex))) as [mz ez].
  cbn [fst snd] in S1, S2, SV.
  unfold bounded in Hb. apply andb_true_iff in Hb. destruct Hb as [Hc Hbe].
  apply Z.leb_le in Hbe.
  apply round_exact_le; try assumption; try lia.
  - rewrite S2. rewrite Zdigits2_mul_pow2 by lia.
    change (Zdigits2 (Z.pos mx)) with (Z.pos (digits2_pos mx)).
    replace (Z.pos (digits2_pos mx) + (ex - Z.min ex (fexp B64.prec B64.emax (Z.pos (digits2_pos mx) + ex))) + ez)
      with (Z.pos (digits2_pos mx) + ex) by lia.
    lia.
  - rewrite SV. exact Hle.
Qed.

Lemma bounded_digits (m : positive) (e : Z) :
  bounded B64.prec B64.emax m e = true ->
  e = Z.max (Zdigits2 (Z.pos m) + e - 53) (-1074) /\ e <= 971 /\ 1 <= Zdigits2 (Z.pos m).
Proof.
  unfold bounded, canonical_mantissa. rewrite andb_true_iff, Z.eqb_eq, Z.leb_le.
  rewrite fexp_eq. change (Z.pos (digits2_pos m)) with (Zdigits2 (Z.pos m)).
  intros [H1 H2]. repeat split; try (symmetry; exact H1); try exact H2.
  cbn. lia.
Qed.

(** The product of two positive doubles stays below any double that bounds
    the exact product. *)
Theorem mul_le (mx : positive) (ex : Z) (my : positive) (ey : Z) (bm : positive) (be : Z) :
  bounded B64.prec B64.emax mx ex = true ->
  bounded B64.prec B64.emax my ey = true ->
  bounded B64.prec B64.emax bm be = true ->
  (F2Q (Z.pos mx) ex * F2Q (Z.pos my) ey <= F2Q (Z.pos bm) be)%Q ->
  pos_le (SFmul B64.prec B64.emax (S754_finite false mx ex) (S754_finite false my ey))
         (F2Q (Z.pos bm) be).
Proof.
  intros Hx Hy Hb Hle. cbn [SFmul xorb].
  pose proof (bounded_digits _ _ Hx) as (Cx & _ & Dx).
  pose proof (bounded_digits _ _ Hy) as (Cy & _ & Dy).
  unfold bounded in Hb. apply andb_true_iff in Hb. destruct Hb as [Hc Hbe].
  apply Z.leb_le in Hbe.
  assert (Hd : Zdigits2 (Z.pos mx) + Zdigits2 (Z.pos my) - 1 <= Zdigits2 (Z.pos (mx * my))).
  { rewrite !Zdigits2_log2 by lia. rewrite Pos2Z.inj_mul.
    pose proof (Z.log2_mul_below (Z.pos mx) (Z.pos my)). lia. }
  destruct (round_exact_le false (Z.pos (mx * my)) (ex + ey) bm be) as [E|(m & e & E & B & L)];
    try assumption; try lia.
  - rewrite fexp_eq. lia.
  - rewrite Pos2Z.inj_mul, <- F2Q_mul. exact Hle.
  - rewrite E. split; [left; reflexivity|]. cbn [val].
    eapply Qle_trans; [|exact Hle].
    apply Qmult_le_0_compat; apply F2Q_nonneg; lia.
  - rewrite E. split; [right; eauto|]. exact L.
Qed.

(** [binary_normalize] on a non-negative integer mantissa. *)
Theorem normalize_le (z e : Z) (bm : positive) (be : Z) :
  0 <= z ->
  bounded B64.prec B64.emax bm be = true ->
  (F2Q z e <= F2Q (Z.pos bm) be)%Q ->
  pos_le (binary_normalize B64.prec B64.emax z e false) (F2Q (Z.pos bm) be).
Proof.
  intros Hz Hb Hle. destruct z as [|p|p]; [| |lia]; cbn [binary_normalize].
  - split; [left; reflexivity|]. cbn [val]. apply F2Q_nonneg. lia.
  - destruct (binary_round_le false p e bm be Hb Hle) as [E|(m & e' & E & B & L)]; rewrite E.
    + split; [left; reflexivity|]. cbn [val]. apply F2Q_nonneg. lia.
    + split; [right; eauto|]. exact L.
Qed.

End Rounding.

(** ** Bounds on the operations *)

Ltac closed_bool := vm_compute; reflexivity.
Ltac closed_Qle := apply Qle_bool_imp_le; vm_compute; reflexivity.

Section FloatBounds.

Lemma bound_ok_inv (b : float) :
  bound_ok b = true ->
  exists m e, b = S754_finite false m e /\ bounded B64.prec B64.emax m e = true
              /\ val b = F2Q (Z.pos m) e.
Proof.
  destruct b as [| | |[|] m e]; try discriminate. intros H. exists m, e. auto.
Qed.

Lemma bound_ok_nonneg (b : float) : bound_ok b = true -> nonneg b.
Proof. intros H. destruct (bound_ok_inv b H) as (m & e & -> & B & _). right. eauto. Qed.

Lemma nonneg_val (x : float) : nonneg x -> (0 <= val x)%Q.
Proof.
  intros [->|(m & e & -> & _)]; cbn [val cond_Zopp]; [apply Qle_refl|].
  apply F2Q_nonneg. lia.
Qed.

(** On canonical doubles the order of the exponents is the order of the
    values. *)
Lemma canon_lt (mx : positive) (ex : Z) (my : positive) (ey : Z) :
  bounded B64.prec B64.emax mx ex = true ->
  bounded B64.prec B64.emax my ey = true ->
  ex < ey -> (F2Q (Z.pos mx) ex < F2Q (Z.pos my) ey)%Q.
Proof.
  intros Hx Hy L.
  pose proof (bounded_digits _ _ Hx) as (Cx & _ & Dx).
  pose proof (bounded_digits _ _ Hy) as (Cy & _ & Dy).
  eapply Qlt_le_trans; [apply F2Q_mag_upper; lia|].
  eapply Qle_trans; [|apply F2Q_mag_lower; lia].
  apply pow2_le. lia.
Qed.

Lemma ltb_true_val (x y : float) :
  nonneg x -> bound_ok y = true -> B64.ltb x y = true -> (val x < val y)%Q.
Proof.
  intros Nx By. destruct (bound_ok_inv y By) as (my & ey & -> & Hy & _).
  destruct Nx as [->|(mx & ex & -> & Hx)]; unfold B64.ltb, SFltb; cbn [SFcompare val cond_Zopp].
  - intros _.
    eapply Qlt_le_trans; [apply (pow2_pos (Zdigits2 (Z.pos my) + ey - 1))|].
    apply F2Q_mag_lower. lia.
  - change (Pos.compare_cont Eq mx my) with (Pos.compare mx my).
    destruct (Z.compare_spec ex ey) as [->|L|L]; try discriminate.
    + destruct (Pos.compare_spec mx my); try discriminate. intros _.
      apply F2Q_lt. lia.
    + intros _. apply canon_lt; assumption.
Qed.

Lemma ltb_false_val (x y : float) :
  nonneg x -> bound_ok y = true -> B64.ltb x y = false ->
  (val y <= val x)%Q /\ exists m e, x = S754_finite false m e /\ bounded B64.prec B64.emax m e = true.
Proof.
  intros Nx By. destruct (bound_ok_inv y By) as (my & ey & -> & Hy & _).
  destruct Nx as [->|(mx & ex & -> & Hx)]; unfold B64.ltb, SFltb; cbn [SFcompare val cond_Zopp].
  - discriminate.
  - change (Pos.compare_cont Eq mx my) with (Pos.compare mx my).
    intros H. split; [|eauto].
    destruct (Z.compare_spec ex ey) as [->|L|L]; try discriminate.
    + destruct (Pos.compare_spec mx my); try discriminate; apply F2Q_le; lia.
    + apply Qlt_le_weak, canon_lt; assumption.
Qed.

(** Multiplication of non-negative doubles, against a bound. *)
Theorem mul_pos_le (x y b : float) (bx by_ : Q) :
  pos_le x bx -> pos_le y by_ -> bound_ok b = true ->
  (bx * by_ <= val b)%Q ->
  pos_le (B64.mul x y) (val b).
Proof.
  intros [Nx Lx] [Ny Ly] Hb Hle.
  destruct (bound_ok_inv b Hb) as (bm & be & Eb & Bb & Vb).
  pose proof (nonneg_val x Nx) as Px. pose proof (nonneg_val y Ny) as Py.
  assert (Hprod : (val x * val y <= val b)%Q).
  { assert (S1 : (val x * val y <= val x * by_)%Q).
    { rewrite !(Qmult_comm (val x)). apply Qmult_le_compat_r; assumption. }
    assert (S2 : (val x * by_ <= bx * by_)%Q).
    { apply Qmult_le_compat_r; [exact Lx | lra]. }
    lra. }
  assert (Z0 : pos_le (S754_zero false) (val b)).
  { split; [left; reflexivity|]. apply nonneg_val, bound_ok_nonneg, Hb. }
  destruct Nx as [->|(mx & ex & -> & Hx)], Ny as [->|(my & ey & -> & Hy)];
    try exact Z0.
  rewrite Vb. apply mul_le; try assumption. rewrite <- Vb. exact Hprod.
Qed.

Lemma F2Q_opp (m e : Z) : (F2Q (- m) e == - F2Q m e)%Q.
Proof. unfold F2Q. rewrite inject_Z_opp. ring. Qed.

Lemma finite_add (sx : bool) (mx : positive) (ex : Z) (sy : bool) (my : positive) (ey : Z) :
  exists zx zy : Z,
    B64.add (S754_finite sx mx ex) (S754_finite sy my ey)
    = binary_normalize B64.prec B64.emax (zx + zy) (Z.min ex ey) false
    /\ (F2Q zx (Z.min ex ey) == val (S754_finite sx mx ex))%Q
    /\ (F2Q zy (Z.min ex ey) == val (S754_finite sy my ey))%Q.
Proof.
  eexists. eexists. split; [reflexivity|].
  pose proof (shl_align_spec mx ex (Z.min ex ey)) as [S1 S2].
  pose proof (shl_align_spec my ey (Z.min ex ey)) as [T1 T2].
  pose proof (shl_align_val mx ex (Z.min ex ey)) as SV.
  pose proof (shl_align_val my ey (Z.min ex ey)) as TV.
  rewrite S1 in SV. rewrite T1 in TV.
  replace (Z.min ex (Z.min ex ey)) with (Z.min ex ey) in SV by lia.
  replace (Z.min ey (Z.min ex ey)) with (Z.min ex ey) in TV by lia.
  cbn [val]. split.
  - destruct sx; unfold cond_Zopp; [|exact SV].
    rewrite !F2Q_opp, SV. reflexivity.
  - destruct sy; unfold cond_Zopp; [|exact TV].
    rewrite !F2Q_opp, TV. reflexivity.
Qed.

Lemma finite_sub (sx : bool) (mx : positive) (ex : Z) (sy : bool) (my : positive) (ey : Z) :
  exists zx zy : Z,
    B64.sub (S754_finite sx mx ex) (S754_finite sy my ey)
    = binary_normalize B64.prec B64.emax (zx - zy) (Z.min ex ey) false
    /\ (F2Q zx (Z.min ex ey) == val (S754_finite sx mx ex))%Q
    /\ (F2Q zy (Z.min ex ey) == val (S754_finite sy my ey))%Q.
Proof.
  eexists. eexists. split; [reflexivity|].
  pose proof (shl_align_spec mx ex (Z.min ex ey)) as [S1 S2].
  pose proof (shl_align_spec my ey (Z.min ex ey)) as [T1 T2].
  pose proof (shl_align_val mx ex (Z.min ex ey)) as SV.
  pose proof (shl_align_val my ey (Z.min ex ey)) as TV.
  rewrite S1 in SV. rewrite T1 in TV.
  replace (Z.min ex (Z.min ex ey)) with (Z.min ex ey) in SV by lia.
  replace (Z.min ey (Z.min ex ey)) with (Z.min ex ey) in TV by lia.
  cbn [val]. split.
  - destruct sx; unfold cond_Zopp; [|exact SV].
    rewrite !F2Q_opp, SV. reflexivity.
  - destruct sy; unfold cond_Zopp; [|exact TV].
    rewrite !F2Q_opp, TV. reflexivity.
Qed.

Lemma F2Q_sub (m1 m2 e : Z) : (F2Q m1 e - F2Q m2 e == F2Q (m1 - m2) e)%Q.
Proof. unfold F2Q, Z.sub. rewrite inject_Z_plus, inject_Z_opp. ring. Qed.

Lemma F2Q_sign (m e : Z) : (0 <= F2Q m e)%Q -> 0 <= m.
Proof.
  intros H. apply (proj1 (F2Q_le 0 m e)).
  assert (E : (F2Q 0 e == 0)%Q) by (unfold F2Q; ring).
  rewrite E. exact H.
Qed.

(** The sum of two finite doubles, when it is not negative. *)
Theorem add_finite_le (x y b : float) :
  (exists sx mx ex, x = S754_finite sx mx ex) ->
  (exists sy my ey, y = S754_finite sy my ey) ->
  bound_ok b = true ->
  (0 <= val x + val y)%Q -> (val x + val y <= val b)%Q ->
  pos_le (B64.add x y) (val b).
Proof.
  intros (sx & mx & ex & ->) (sy & my & ey & ->) Hb H0 Hle.
  destruct (bound_ok_inv b Hb) as (bm & be & Eb & Bb & Vb).
  destruct (finite_add sx mx ex sy my ey) as (zx & zy & -> & Vx & Vy).
  rewrite <- Vx, <- Vy, F2Q_add in H0, Hle.
  rewrite Vb. apply normalize_le; [apply (F2Q_sign _ _ H0) | exact Bb|].
  rewrite <- Vb. exact Hle.
Qed.

(** The difference of two finite doubles, when it is not negative. *)
Theorem sub_finite_le (x y b : float) :
  (exists sx mx ex, x = S754_finite sx mx ex) ->
  (exists sy my ey, y = S754_finite sy my ey) ->
  bound_ok b = true ->
  (0 <= val x - val y)%Q -> (val x - val y <= val b)%Q ->
  pos_le (B64.sub x y) (val b).
Proof.
  intros (sx & mx & ex & ->) (sy & my & ey & ->) Hb H0 Hle.
  destruct (bound_ok_inv b Hb) as (bm & be & Eb & Bb & Vb).
  destruct (finite_sub sx mx ex sy my ey) as (zx & zy & -> & Vx & Vy).
  rewrite <- Vx, <- Vy, F2Q_sub in H0, Hle.
  rewrite Vb. apply normalize_le; [apply (F2Q_sign _ _ H0) | exact Bb|].
  rewrite <- Vb. exact Hle.
Qed.

Lemma pos_le_weaken (x : float) (a b : Q) : pos_le x a -> (a <= b)%Q -> pos_le x b.
Proof. intros [N L] H. split; [exact N | eapply Qle_trans; eassumption]. Qed.

(** The sum of two non-negative doubles. *)
Theorem add_pos_le (x y b : float) (bx by_ : Q) :
  pos_le x bx -> pos_le y by_ -> bound_ok b = true ->
  (bx + by_ <= val b)%Q ->
  pos_le (B64.add x y) (val b).
Proof.
  intros [Nx Lx] [Ny Ly] Hb Hle.
  pose proof (nonneg_val x Nx) as Px. pose proof (nonneg_val y Ny) as Py.
  destruct Nx as [->|(mx & ex & -> & Hx)], Ny as [->|(my & ey & -> & Hy)].
  - change (B64.add (S754_zero false) (S754_zero false)) with (S754_zero false).
    split; [left; reflexivity|]. cbn [val] in *. lra.
  - change (B64.add (S754_zero false) (S754_finite false my ey)) with (S754_finite false my ey).
    split; [right; eauto|]. cbn [val] in *. lra.
  - change (B64.add (S754_finite false mx ex) (S754_zero false)) with (S754_finite false mx ex).
    split; [right; eauto|]. cbn [val] in *. lra.
  - apply add_finite_le; eauto; lra.
Qed.

Lemma lit_one : PyFloat.lit "1.0" = one.
Proof. vm_compute. reflexivity. Qed.

Lemma val_one : (val one == 1)%Q.
Proof. vm_compute. reflexivity. Qed.

Lemma bound_ok_one : bound_ok one = true.
Proof. reflexivity. Qed.

Lemma float_rem_one (x : float) : Py.float_rem x one = rem_post (Py.fmod x one).
Proof. reflexivity. Qed.

Lemma pos_le_zero (b : Q) : (0 <= b)%Q -> pos_le (S754_zero false) b.
Proof. intros H. split; [left; reflexivity | exact H]. Qed.

Lemma rem_post_nonneg (m : float) :
  pos_le m 1 -> exists h, rem_post m = Ok h /\ pos_le h 1.
Proof.
  intros [[->|(p & e & -> & B)] L].
  - exists (S754_zero false). split; [reflexivity | apply pos_le_zero; lra].
  - exists (S754_finite false p e). split; [reflexivity|].
    split; [right; eauto | exact L].
Qed.

Lemma rem_post_neg (p : positive) (e : Z) :
  bounded B64.prec B64.emax p e = true ->
  (F2Q (Z.pos p) e <= 1)%Q ->
  exists h, rem_post (S754_finite true p e) = Ok h /\ pos_le h 1.
Proof.
  intros B L. exists (B64.add (S754_finite true p e) one). split; [reflexivity|].
  apply pos_le_weaken with (val one); [|rewrite val_one; lra].
  apply add_finite_le; eauto.
  - unfold one. eauto.
  - rewrite val_one. cbn [val cond_Zopp]. change (- Z.pos p) with (Z.opp (Z.pos p)).
    change (Z.neg p) with (- Z.pos p). rewrite F2Q_opp. lra.
  - cbn [val cond_Zopp]. change (Z.neg p) with (- Z.pos p). rewrite F2Q_opp.
    assert (0 <= F2Q (Z.pos p) e)%Q by (apply F2Q_nonneg; lia). lra.
Qed.

(** [x % 1.0] never raises: it is NaN (for an infinite or NaN [x]) or a
    non-negative double in canonical form, at most 1.0. *)
Theorem float_rem_one_range (x : float) :
  exists h, Py.float_rem x one = Ok h /\ (h = S754_nan \/ pos_le h 1).
Proof.
  rewrite float_rem_one.
  destruct x as [s|s| |sx mx ex].
  - exists (S754_zero false). split; [destruct s; reflexivity|].
    right. apply pos_le_zero. lra.
  - exists S754_nan. split; [reflexivity | left; reflexivity].
  - exists S754_nan. split; [reflexivity | left; reflexivity].
  - unfold Py.fmod, one.
    set (e := Z.min ex (-52)).
    set (Y := 4503599627370496 * 2 ^ (-52 - e)).
    set (r := Z.rem (Z.pos mx * 2 ^ (ex - e)) Y).
    assert (PY : 0 < Y) by (apply Z.mul_pos_pos; [lia | apply Z.pow_pos_nonneg; lia]).
    assert (Hr : 0 <= r < Y).
    { apply Z.rem_bound_pos; [|exact PY].
      apply Z.mul_nonneg_nonneg; [lia | apply Z.pow_nonneg; lia]. }
    assert (VY : (F2Q Y e == 1)%Q).
    { unfold Y. rewrite <- val_one. unfold one. cbn [val cond_Zopp].
      rewrite <- (F2Q_shift 4503599627370496 (-52) (-52 - e)) by lia.
      replace (-52 - (-52 - e)) with e by lia. reflexivity. }
    assert (Lr : (F2Q r e <= 1)%Q).
    { rewrite <- VY. apply F2Q_le. lia. }
    destruct r as [|r|r]; [| |lia].
    + exists (S754_zero false). split; [destruct sx; reflexivity|].
      right. apply pos_le_zero. lra.
    + destruct sx.
      * change (binary_normalize B64.prec B64.emax (- Z.pos r) e true)
          with (binary_round B64.prec B64.emax true r e).
        destruct (binary_round_le true r e 4503599627370496 (-52) eq_refl)
          as [E|(m & e' & E & B & L)].
        { change (F2Q 4503599627370496 (-52)) with (val one). rewrite val_one. exact Lr. }
        { rewrite E. exists (S754_zero false). split; [reflexivity|].
          right. apply pos_le_zero. lra. }
        { rewrite E. change (F2Q 4503599627370496 (-52)) with (val one) in L.
          rewrite val_one in L.
          destruct (rem_post_neg m e' B L) as (h & Hh & Ph). eauto. }
      * assert (P : pos_le (binary_normalize B64.prec B64.emax (Z.pos r) e false) 1).
        { apply pos_le_weaken with (val one); [|rewrite val_one; lra].
          apply (normalize_le (Z.pos r) e 4503599627370496 (-52));
            [lia | reflexivity|].
          change (F2Q 4503599627370496 (-52)) with (val one). rewrite val_one. exact Lr. }
        destruct (rem_post_nonneg _ P) as (h & Hh & Ph). eauto.
Qed.

(** Division of a natural number by a larger one. *)
Lemma F2Q_le_pow_mag (m e k : Z) :
  0 < m -> (F2Q m e <= 2 ^ k)%Q -> Zdigits2 m + e <= k + 1.
Proof.
  intros H L. pose proof (F2Q_mag_lower m e H) as A.
  assert (C : (2 ^ (Zdigits2 m + e - 1) < 2 ^ (k + 1))%Q).
  { eapply Qle_lt_trans; [exact A|]. eapply Qle_lt_trans; [exact L|].
    rewrite pow2_add. pose proof (pow2_pos k). 
    change (2 ^ 1)%Q with 2%Q. lra. }
  apply pow2_lt_inv in C. lia.
Qed.

(** Rounding a value of at most 1 never overflows to an infinity. *)
Theorem round_aux_finite (sx : bool) (mx ex : Z) (lx : location) :
  0 <= mx -> ex <= 0 -> (F2Q mx ex <= 1)%Q ->
  forall s, binary_round_aux B64.prec B64.emax sx mx ex lx <> S754_infinity s.
Proof.
  intros Hm He Hv s.
  destruct (round_aux_cases sx mx ex lx Hm) as (m' & Bm' & _ & ->). cbv zeta.
  set (n := Z.max 0 (fexp B64.prec B64.emax (Zdigits2 mx + ex) - ex)) in *.
  set (e' := ex + n).
  set (n2 := Z.max 0 (fexp B64.prec B64.emax (Zdigits2 m' + e') - e')).
  assert (Hn : 0 <= n) by lia.
  assert (Hmu : Zdigits2 mx + ex <= 1).
  { destruct (Z.eq_dec mx 0) as [->|N]; [cbn; lia|].
    apply (F2Q_le_pow_mag mx ex 0); [lia | exact Hv]. }
  assert (He' : e' <= 0).
  { unfold e', n. rewrite fexp_eq. lia. }
  assert (Hm1 : 0 <= mx / 2 ^ n) by (apply Z.div_pos; [lia | apply Z.pow_pos_nonneg; lia]).
  assert (Hv' : (F2Q m' e' <= 2 ^ 1)%Q).
  { apply Qle_trans with (F2Q (mx / 2 ^ n + 1) e').
    - apply F2Q_le. lia.
    - rewrite <- F2Q_add.
      assert (A : (F2Q (mx / 2 ^ n) e' <= 1)%Q)
        by (eapply Qle_trans; [apply F2Q_div_le; lia | exact Hv]).
      assert (B : (F2Q 1 e' <= 1)%Q).
      { unfold F2Q. change (inject_Z 1) with 1%Q. rewrite Qmult_1_l.
        apply Qle_trans with (2 ^ 0)%Q; [apply pow2_le; exact He' | apply Qle_refl]. }
      change (2 ^ 1)%Q with 2%Q. lra. }
  assert (Hmu' : Zdigits2 m' + e' <= 2).
  { destruct (Z.eq_dec m' 0) as [->|N]; [cbn; lia|].
    apply (F2Q_le_pow_mag m' e' 1); [lia | exact Hv']. }
  assert (Hfin : e' + n2 <= B64.emax - B64.prec).
  { unfold n2. rewrite fexp_eq. change (B64.emax - B64.prec) with 971. lia. }
  destruct (m' / 2 ^ n2); try discriminate.
  apply Z.leb_le in Hfin. rewrite Hfin. discriminate.
Qed.

(** [i / max(1, n)] never raises for [0 <= i < n]. *)
Theorem true_div_below_one (i n : Z) :
  0 <= i < n -> exists q, Py.true_div i (Z.max 1 n) = Ok q.
Proof.
  intros H. replace (Z.max 1 n) with n by lia. unfold Py.true_div.
  destruct (Z.eqb_spec n 0) as [|_]; [lia|].
  replace (Z.abs i) with i by lia. replace (Z.abs n) with n by lia.
  destruct i as [|p|p]; [eauto| |lia].
  destruct n as [|pn|pn]; try lia. cbn [Z.to_pos].
  set (neg := xorb (Z.pos p <? 0) (Z.pos pn <? 0)).
  assert (F : forall s, B64.div (S754_finite neg p 0) (S754_finite false pn 0) <> S754_infinity s).
  { unfold B64.div. cbn [SFdiv]. unfold SFdiv_core_binary.
    set (e' := Z.min (fexp B64.prec B64.emax (Zdigits2 (Z.pos p) + 0 - (Zdigits2 (Z.pos pn) + 0))) (0 - 0)).
    assert (He' : e' <= 0) by (unfold e'; lia).
    set (m' := match 0 - 0 - e' with
               | 0 => Z.pos p
               | Z.pos _ => Z.shiftl (Z.pos p) (0 - 0 - e')
               | Z.neg _ => 0
               end).
    assert (Hm' : m' = Z.pos p * 2 ^ (- e')).
    { unfold m'. replace (0 - 0 - e') with (- e') by lia.
      destruct (- e') as [|k|k] eqn:E; [lia| |lia].
      rewrite Z.shiftl_mul_pow2 by lia. reflexivity. }
    assert (P2 : 0 < 2 ^ (- e')) by (apply Z.pow_pos_nonneg; lia).
    pose proof (Z.div_eucl_eq m' (Z.pos pn) ltac:(lia)) as Eq.
    pose proof (Z.mod_pos_bound m' (Z.pos pn) ltac:(lia)) as Bd.
    unfold Z.modulo in Bd.
    destruct (Z.div_eucl m' (Z.pos pn)) as [q r].
    assert (Hq0 : 0 <= q) by nia.
    assert (Hq : q < 2 ^ (- e')) by nia.
    intros s. apply round_aux_finite; [exact Hq0 | exact He'|].
    rewrite <- (F2Q_shift 1 0 (- e')) by lia.
    replace (0 - - e') with e' by lia. apply F2Q_le. lia. }
  destruct (B64.div (S754_finite neg p 0) (S754_finite false pn 0)) eqn:E; eauto.
  elim (F s). reflexivity.
Qed.

End FloatBounds.

(** ** The coordinate loader *)

Section Loader.


Lemma parse_float_some (s : string) (v : float) :
  parse_float s = Some v <-> PyFloat.of_string (Str.strip s) = Ok v /\ v <> S754_nan.
Proof.
  unfold parse_float.
  destruct (PyFloat.of_string (Str.strip s)) as [w|e].
  - destruct (B64.eqb w w) eqn:E; simpl; split.
    + intros [= <-]. split; [reflexivity|]. intros ->. discriminate.
    + intros [[= <-] _]. reflexivity.
    + discriminate.
    + intros [[= <-] N]. elim N. apply eqb_self_false, E.
  - split; [discriminate | intros [H _]; discriminate].
Qed.

Lemma read_point_fields (li lo : nat) (row : list string) (a b : string) :
  nth_error row li = Some a -> nth_error row lo = Some b ->
  read_point li lo row = Ok (point_of_fields a b).
Proof.
  intros Ha Hb. unfold read_point, index, point_of_fields.
  rewrite Ha, Hb. cbn [bind].
  destruct (parse_float a) as [lat|], (parse_float b) as [lon|];
    try reflexivity.
  destruct (in_range (lat, lon)); reflexivity.
Qed.

Lemma point_of_fields_in_range (a b : string) (p : LatLng) :
  point_of_fields a b = Some p -> in_range p = true.
Proof.
  unfold point_of_fields.
  destruct (parse_float a) as [lat|], (parse_float b) as [lon|];
    try discriminate.
  destruct (in_range (lat, lon)) eqn:E; [intros [= <-]; exact E | discriminate].
Qed.

Lemma read_point_in_range (li lo : nat) (row : list string) (p : LatLng) :
  read_point li lo row = Ok (Some p) -> in_range p = true.
Proof.
  unfold read_point, index.
  destruct (nth_error row li) as [a|]; cbn [bind]; [|discriminate].
  destruct (nth_error row lo) as [b|]; cbn [bind]; [|discriminate].
  destruct (parse_float a) as [lat|], (parse_float b) as [lon|];
    try discriminate.
  destruct (in_range (lat, lon)) eqn:E; [intros [= <-]; exact E | discriminate].
Qed.

Lemma process_row_in_range (li lo : nat) (row : list string) (p : LatLng) :
  process_row li lo row = Ok (Some p) -> in_range p = true.
Proof.
  unfold process_row. destruct row as [|r0 row]; [discriminate|].
  destruct (repair li lo (r0 :: row)) as [[row'|]|e]; simpl; try discriminate.
  apply read_point_in_range.
Qed.

Lemma load_rows_in_range (li lo : nat) (rows : list (list string)) :
  forall acc points,
    Forall (fun p => in_range p = true) acc ->
    load_rows li lo rows acc = Ok points ->
    Forall (fun p => in_range p = true) points.
Proof.
  induction rows as [|row rows IH]; simpl; intros acc points Hacc H.
  - injection H as <-. exact Hacc.
  - destruct (process_row li lo row) as [[p|]|e] eqn:E; simpl in H;
      try discriminate.
    + apply IH with (acc := (acc ++ [p])%list); [|exact H].
      apply Forall_app. split; [exact Hacc|].
      constructor; [|constructor]. eapply process_row_in_range, E.
    + eapply IH; eassumption.
Qed.

Lemma load_csv_points_rows (header : list string) (rows : list (list string)) :
  header <> [] ->
  load_csv_points (header :: rows) =
    load_rows (fst (resolve_indices header)) (snd (resolve_indices header)) rows [].
Proof.
  intros H. unfold load_csv_points. destruct header; [congruence|].
  destruct (resolve_indices _); reflexivity.
Qed.


(** *** Column resolution *)

Lemma resolve_fold (cols : list string) :
  forall (k : nat) (a b : option nat),
    fold_left resolve_step (combine (seq k (List.length cols)) cols) (a, b) =
    (match a with Some _ => a | None => first_match lat_candidates cols k end,
     match b with Some _ => b | None => first_match lon_candidates cols k end).
Proof.
  induction cols as [|c cols IH]; intros k a b.
  - destruct a, b; reflexivity.
  - cbn [List.length seq combine fold_left first_match].
    destruct (resolve_step (a, b) (k, c)) as [a' b'] eqn:E. rewrite IH.
    unfold resolve_step in E.
    destruct a, b, (Str.mem c lat_candidates), (Str.mem c lon_candidates);
      cbn [is_none andb] in E; injection E as <- <-; reflexivity.
Qed.

Lemma first_match_none (cands cols : list string) :
  forall k, first_match cands cols k = None ->
            forall c, In c cols -> Str.mem c cands = false.
Proof.
  induction cols as [|c0 cols IH]; simpl; intros k H c Hin; [contradiction|].
  destruct (Str.mem c0 cands) eqn:E; [discriminate|].
  destruct Hin as [<-|Hin]; [exact E | eapply IH; eassumption].
Qed.

Lemma first_match_some (cands cols : list string) :
  forall k i, first_match cands cols k = Some i ->
    (k <= i)%nat
    /\ (exists c, nth_error cols (i - k) = Some c /\ Str.mem c cands = true)
    /\ (forall j c, (j < i - k)%nat -> nth_error cols j = Some c ->
                    Str.mem c cands = false).
Proof.
  induction cols as [|c0 cols IH]; simpl; intros k i H; [discriminate|].
  destruct (Str.mem c0 cands) eqn:E.
  - injection H as <-. rewrite Nat.sub_diag. repeat split.
    + apply Nat.le_refl.
    + exists c0. split; [reflexivity | exact E].
    + intros j c Hj. inversion Hj.
  - destruct (IH _ _ H) as (Hle & (c & Hc & Hm) & Hbefore).
    assert (Hi : (i - k = S (i - S k))%nat) by lia.
    repeat split.
    + lia.
    + exists c. rewrite Hi. split; assumption.
    + intros j c' Hj Hn. destruct j as [|j]; simpl in Hn.
      * injection Hn as <-. exact E.
      * apply (Hbefore j c'); [lia | exact Hn].
Qed.

Lemma header_indices_eq (header : list string) :
  let cols := map normalize header in
  let lat := first_match lat_candidates cols 0 in
  let lon := first_match lon_candidates cols 0 in
  header_indices header =
    if is_none lat || is_none lon then
      if (3 <=? List.length header)%nat then (Some 1%nat, Some 2%nat)
      else if (2 <=? List.length header)%nat then (Some 0%nat, Some 1%nat)
      else (lat, lon)
    else (lat, lon).
Proof.
  intros cols lat lon. unfold header_indices, enumerate.
  fold normalize. fold cols. rewrite resolve_fold. fold lat. fold lon.
  unfold cols at 1 2. rewrite length_map. reflexivity.
Qed.

Lemma candidates_disjoint (c : string) :
  Str.mem c lat_candidates = true -> Str.mem c lon_candidates = false.
Proof.
  unfold Str.mem, lat_candidates. cbn [existsb].
  destruct (String.eqb_spec c "latitude") as [->|_]; [reflexivity|].
  destruct (String.eqb_spec c "lat") as [->|_]; [reflexivity|].
  destruct (String.eqb_spec c "y") as [->|_]; [reflexivity|].
  discriminate.
Qed.

(** *** Rows *)

Lemma split1_comma (s : string) :
  Str.contains "," s = true ->
  exists p0 p1, Str.split1 "," s = [p0; p1] /\ s = p0 ++ "," ++ p1
                /\ Str.contains "," p0 = false.
Proof.
  induction s as [|c s IH]; cbn [Str.contains Str.split1]; [discriminate|].
  rewrite (Ascii.eqb_sym c ",").
  destruct (Ascii.eqb_spec "," c) as [<-|Hc]; cbn [orb].
  - intros _. exists "", s. repeat split.
  - intros H. destruct (IH H) as (p0 & p1 & Hs & Hr & Hp). rewrite Hs.
    exists (String c p0), p1. repeat split.
    + cbn [append]. f_equal. exact Hr.
    + cbn [Str.contains].
      destruct (Ascii.eqb_spec "," c) as [E|_]; [contradiction | exact Hp].
Qed.

Lemma repair_long (li lo : nat) (row : list string) :
  (Nat.max li lo < List.length row)%nat -> repair li lo row = Ok (Some row).
Proof.
  intros H. unfold repair.
  destruct (Nat.leb_spec (List.length row) (Nat.max li lo)); [lia | reflexivity].
Qed.

Lemma repair_short_comma (li lo : nat) (r0 r1 : string) :
  (2 <= Nat.max li lo)%nat -> Str.contains "," r1 = true ->
  exists p0 p1, r1 = p0 ++ "," ++ p1 /\ Str.contains "," p0 = false
                /\ repair li lo [r0; r1] = Ok (Some [r0; p0; p1]).
Proof.
  intros H C. destruct (split1_comma r1 C) as (p0 & p1 & Hs & Hr & Hp).
  exists p0, p1. repeat split; try assumption.
  unfold repair. cbn [List.length].
  destruct (Nat.leb_spec 2 (Nat.max li lo)); [|lia].
  rewrite C, Hs. reflexivity.
Qed.

Lemma repair_short_other (li lo : nat) (row : list string) :
  (List.length row <= Nat.max li lo)%nat ->
  (forall r0 r1, row = [r0; r1] -> Str.contains "," r1 = false) ->
  repair li lo row = Ok None.
Proof.
  intros H N. unfold repair.
  destruct (Nat.leb_spec (List.length row) (Nat.max li lo)); [|lia].
  destruct row as [|r0 [|r1 [|r2 row]]]; try reflexivity.
  rewrite (N r0 r1 eq_refl). reflexivity.
Qed.

Lemma process_row_skip (li lo : nat) (row : list string) :
  repair li lo row = Ok None -> process_row li lo row = Ok None.
Proof.
  intros H. unfold process_row. rewrite H. destruct row; reflexivity.
Qed.

Lemma process_row_repaired (li lo : nat) (row row' : list string) :
  row <> [] -> repair li lo row = Ok (Some row') ->
  process_row li lo row = read_point li lo row'.
Proof.
  intros N H. unfold process_row. rewrite H. destruct row; [congruence|reflexivity].
Qed.

Lemma load_header_only (header : list string) :
  load_csv_points [header] = Ok [].
Proof.
  unfold load_csv_points. destruct header; [reflexivity|].
  destruct (resolve_indices _). reflexivity.
Qed.

Lemma load_no_header : load_csv_points [] = Ok [].
Proof. reflexivity. Qed.

Lemma load_empty_header (rows : list (list string)) :
  load_csv_points ([] :: rows) = Ok [].
Proof. reflexivity. Qed.

End Loader.

(** ** The bounds aggregator *)

Section Bounds.

Lemma fold_min (xs : list float) :
  forall m : float,
    m <> S754_nan -> Forall (fun x => x <> S754_nan) xs ->
    let r := fold_left Py.min_step xs m in
    In r (m :: xs) /\ Forall (fun x => B64.leb r x = true) (m :: xs).
Proof.
  induction xs as [|x xs IH]; intros m Nm Nxs; cbn [fold_left].
  - split; [left; reflexivity|].
    constructor; [apply leb_refl, Nm | constructor].
  - inversion Nxs as [|? ? Nx Nxs']; subst.
    assert (Ns : Py.min_step m x <> S754_nan)
      by (unfold Py.min_step; destruct (B64.ltb x m); assumption).
    destruct (IH (Py.min_step m x) Ns Nxs') as [Hin Hle].
    inversion Hle as [|? ? Hstep Hrest]; subst.
    assert (Hm : B64.leb (Py.min_step m x) m = true /\ B64.leb (Py.min_step m x) x = true).
    { unfold Py.min_step. destruct (B64.ltb x m) eqn:E.
      - split; [apply ltb_leb, E | apply leb_refl, Nx].
      - split; [apply leb_refl, Nm | apply ltb_false_leb; assumption]. }
    split.
    + destruct Hin as [Hin|Hin]; [|right; right; exact Hin].
      rewrite <- Hin. unfold Py.min_step.
      destruct (B64.ltb x m); [right; left | left]; reflexivity.
    + constructor; [eapply leb_trans; [exact Hstep | apply Hm]|].
      constructor; [eapply leb_trans; [exact Hstep | apply Hm] | exact Hrest].
Qed.

Lemma fold_max (xs : list float) :
  forall m : float,
    m <> S754_nan -> Forall (fun x => x <> S754_nan) xs ->
    let r := fold_left Py.max_step xs m in
    In r (m :: xs) /\ Forall (fun x => B64.leb x r = true) (m :: xs).
Proof.
  induction xs as [|x xs IH]; intros m Nm Nxs; cbn [fold_left].
  - split; [left; reflexivity|].
    constructor; [apply leb_refl, Nm | constructor].
  - inversion Nxs as [|? ? Nx Nxs']; subst.
    assert (Ns : Py.max_step m x <> S754_nan)
      by (unfold Py.max_step; destruct (B64.ltb m x); assumption).
    destruct (IH (Py.max_step m x) Ns Nxs') as [Hin Hle].
    inversion Hle as [|? ? Hstep Hrest]; subst.
    assert (Hm : B64.leb m (Py.max_step m x) = true /\ B64.leb x (Py.max_step m x) = true).
    { unfold Py.max_step. destruct (B64.ltb m x) eqn:E.
      - split; [apply ltb_leb, E | apply leb_refl, Nx].
      - split; [apply leb_refl, Nm | apply ltb_false_leb; assumption]. }
    split.
    + destruct Hin as [Hin|Hin]; [|right; right; exact Hin].
      rewrite <- Hin. unfold Py.max_step.
      destruct (B64.ltb m x); [right; left | left]; reflexivity.
    + constructor; [eapply leb_trans; [apply Hm | exact Hstep]|].
      constructor; [eapply leb_trans; [apply Hm | exact Hstep] | exact Hrest].
Qed.

Lemma py_min_spec (xs : list float) :
  xs <> [] -> Forall (fun x => x <> S754_nan) xs ->
  exists r, Py.min xs = Ok r /\ In r xs /\ Forall (fun x => B64.leb r x = true) xs.
Proof.
  destruct xs as [|x xs]; [congruence|]. intros _ N.
  inversion N; subst. eexists. split; [reflexivity|].
  apply (fold_min xs x); assumption.
Qed.

Lemma py_max_spec (xs : list float) :
  xs <> [] -> Forall (fun x => x <> S754_nan) xs ->
  exists r, Py.max xs = Ok r /\ In r xs /\ Forall (fun x => B64.leb x r = true) xs.
Proof.
  destruct xs as [|x xs]; [congruence|]. intros _ N.
  inversion N; subst. eexists. split; [reflexivity|].
  apply (fold_max xs x); assumption.
Qed.

Lemma point_in_concat (d : points_dict) (p : LatLng) :
  point_in d p <-> In p (List.concat (values d)).
Proof.
  unfold point_in, values. rewrite in_concat. split.
  - intros (k & pts & Hd & Hp). exists pts. split; [|exact Hp].
    apply (in_map snd) in Hd. exact Hd.
  - intros (pts & Hd & Hp). apply in_map_iff in Hd.
    destruct Hd as ([k pts'] & E & Hd). simpl in E. subst.
    exists k, pts. split; assumption.
Qed.

Lemma in_lats (d : points_dict) (lat : float) :
  In lat (collect_lats d) <-> exists lon, point_in d (lat, lon).
Proof.
  unfold collect_lats. rewrite in_map_iff. split.
  - intros ([a b] & E & H). simpl in E. subst. exists b.
    apply point_in_concat, H.
  - intros (lon & H). exists (lat, lon). split; [reflexivity|].
    apply point_in_concat, H.
Qed.

Lemma in_lons (d : points_dict) (lon : float) :
  In lon (collect_lons d) <-> exists lat, point_in d (lat, lon).
Proof.
  unfold collect_lons. rewrite in_map_iff. split.
  - intros ([a b] & E & H). simpl in E. subst. exists a.
    apply point_in_concat, H.
  - intros (lat & H). exists (lat, lon). split; [reflexivity|].
    apply point_in_concat, H.
Qed.

Lemma no_point_iff (d : points_dict) :
  List.concat (values d) = [] <-> (forall k pts, In (k, pts) d -> pts = []).
Proof.
  split.
  - intros E k pts H. destruct pts as [|p pts]; [reflexivity|].
    assert (I : In p (List.concat (values d)))
      by (apply point_in_concat; exists k, (p :: pts); split; [exact H | left; reflexivity]).
    rewrite E in I. contradiction.
  - intros H. destruct (List.concat (values d)) as [|p l] eqn:E; [reflexivity|].
    assert (I : point_in d p) by (apply point_in_concat; rewrite E; left; reflexivity).
    destruct I as (k & pts & Hd & Hp). rewrite (H _ _ Hd) in Hp. contradiction.
Qed.

End Bounds.

(** ** The palette generator *)

Section Palette.

Lemma pos_le_const (x : float) : bound_ok x = true -> pos_le x (val x).
Proof. intros H. split; [apply bound_ok_nonneg, H | apply Qle_refl]. Qed.

(** [int] of a non-negative double of value at most [k]. *)
Theorem int_range (x : float) (k : Z) :
  pos_le x (inject_Z k) -> exists z, Py.int x = Ok z /\ 0 <= z <= k.
Proof.
  intros [[->|(m & e & -> & B)] L]; cbn [val cond_Zopp] in L.
  - exists 0. split; [reflexivity|]. split; [lia|].
    rewrite Zle_Qle. exact L.
  - cbn [Py.int].
    assert (E : (inject_Z k == F2Q k 0)%Q) by (unfold F2Q; cbn; ring).
    rewrite E in L.
    destruct e as [|p|p].
    + eexists. split; [reflexivity|]. apply F2Q_le in L. lia.
    + eexists. split; [reflexivity|].
      assert (P : 0 < 2 ^ Z.pos p) by (apply Z.pow_pos_nonneg; lia).
      rewrite <- (F2Q_shift (Z.pos m) (Z.pos p) (Z.pos p)) in L by lia.
      rewrite Z.sub_diag in L. apply F2Q_le in L. nia.
    + eexists. split; [reflexivity|].
      assert (P : 0 < 2 ^ Z.pos p) by (apply Z.pow_pos_nonneg; lia).
      rewrite <- (F2Q_shift k 0 (Z.pos p)) in L by lia.
      change (0 - Z.pos p) with (Z.neg p) in L. apply F2Q_le in L.
      split; [apply Z.div_pos; lia|].
      apply Z.div_le_upper_bound; lia.
Qed.


Lemma pos_le_closed (x : float) (b : Q) :
  bound_ok x = true -> Qle_bool (val x) b = true -> pos_le x b.
Proof.
  intros H L. apply pos_le_weaken with (val x); [apply pos_le_const, H|].
  apply Qle_bool_imp_le, L.
Qed.

(** The ramp [m1 + (m2 - m1) * t * 6.0], for [t] up to 0.171875. *)
Lemma ramp_range (t : float) :
  pos_le t (val (PyFloat.lit "0.171875")) ->
  pos_le (B64.add palette_m1
            (B64.mul (B64.mul (B64.sub palette_m2 palette_m1) t) (PyFloat.lit "6.0")))
         1.
Proof.
  intros Ht.
  assert (T1 : pos_le (B64.mul (B64.sub palette_m2 palette_m1) t)
                      (val (PyFloat.lit "0.140625"))).
  { apply (mul_pos_le _ _ _ (val (B64.sub palette_m2 palette_m1))
                      (val (PyFloat.lit "0.171875")));
      [apply pos_le_const; closed_bool | exact Ht | closed_bool | closed_Qle]. }
  assert (T2 : pos_le (B64.mul (B64.mul (B64.sub palette_m2 palette_m1) t) (PyFloat.lit "6.0"))
                      (val (PyFloat.lit "0.84375"))).
  { apply (mul_pos_le _ _ _ (val (PyFloat.lit "0.140625")) (val (PyFloat.lit "6.0")));
      [exact T1 | apply pos_le_const; closed_bool | closed_bool | closed_Qle]. }
  apply pos_le_weaken with (val one); [|rewrite val_one; apply Qle_refl].
  apply (add_pos_le _ _ _ (val palette_m1) (val (PyFloat.lit "0.84375")));
    [apply pos_le_const; closed_bool | exact T2 | closed_bool | closed_Qle].
Qed.

(** [colorsys._v] at the palette's [m1] and [m2]: whatever the hue, the
    channel is a non-negative double of value at most 1. *)
Theorem v_range (x : float) :
  exists c, Colorsys._v palette_m1 palette_m2 x = Ok c /\ pos_le c 1.
Proof.
  unfold Colorsys._v. rewrite lit_one.
  assert (P1 : pos_le palette_m1 1) by (apply pos_le_closed; closed_bool).
  assert (P2 : pos_le palette_m2 1) by (apply pos_le_closed; closed_bool).
  destruct (float_rem_one_range x) as (h & -> & [->|[N L]]); cbn [bind].
  - exists palette_m1. split; [reflexivity | exact P1].
  - destruct (B64.ltb h Colorsys.ONE_SIXTH) eqn:A.
    + eexists. split; [reflexivity|]. apply ramp_range.
      split; [exact N|].
      apply ltb_true_val in A; [|exact N|closed_bool].
      apply Qle_trans with (val Colorsys.ONE_SIXTH); [apply Qlt_le_weak, A | closed_Qle].
    + destruct (B64.ltb h (PyFloat.lit "0.5")) eqn:B.
      * exists palette_m2. split; [reflexivity | exact P2].
      * destruct (B64.ltb h Colorsys.TWO_THIRD) eqn:C.
        -- eexists. split; [reflexivity|]. apply ramp_range.
           apply ltb_false_val in B; [|exact N|closed_bool].
           destruct B as (B & m & e & -> & Hb).
           apply ltb_true_val in C; [|exact N|closed_bool].
           assert (VT : (val Colorsys.TWO_THIRD - val (PyFloat.lit "0.5")
                         <= val (PyFloat.lit "0.171875"))%Q) by closed_Qle.
           apply sub_finite_le; [|eauto|closed_bool|lra|lra].
           vm_compute. eauto.
        -- exists palette_m1. split; [reflexivity | exact P1].
Qed.

Lemma hls_palette (h : float) :
  Colorsys.hls_to_rgb h (PyFloat.lit "0.5") (PyFloat.lit "0.8") =
  (r <- Colorsys._v palette_m1 palette_m2 (B64.add h Colorsys.ONE_THIRD) ;;
   g <- Colorsys._v palette_m1 palette_m2 h ;;
   b <- Colorsys._v palette_m1 palette_m2 (B64.sub h Colorsys.ONE_THIRD) ;;
   Ok (r, g, b)).
Proof.
  unfold Colorsys.hls_to_rgb.
  replace (B64.eqb (PyFloat.lit "0.8") (PyFloat.lit "0.0")) with false by closed_bool.
  replace (B64.leb (PyFloat.lit "0.5") (PyFloat.lit "0.5")) with true by closed_bool.
  reflexivity.
Qed.

(** [int(c * 255)] for such a channel. *)
Lemma channel_range (c : float) :
  pos_le c 1 ->
  exists z, Py.int (B64.mul c (PyFloat.lit "255")) = Ok z /\ 0 <= z <= 255.
Proof.
  intros H. apply int_range.
  apply pos_le_weaken with (val (PyFloat.lit "255")); [|closed_Qle].
  apply (mul_pos_le _ _ _ 1%Q (val (PyFloat.lit "255")));
    [exact H | apply pos_le_const; closed_bool | closed_bool | closed_Qle].
Qed.

Lemma range_In (n z : Z) : 0 <= z < n -> In z (range n).
Proof.
  intros H. unfold range. apply in_map_iff. exists (Z.to_nat z).
  split; [lia|]. apply in_seq. lia.
Qed.

Lemma In_range (n z : Z) : In z (range n) -> 0 <= z < n.
Proof.
  unfold range. intros H. apply in_map_iff in H. destruct H as (k & <- & H).
  apply in_seq in H. lia.
Qed.

(** Every value from 0 to 255 is written with two hexadecimal digits. *)
Lemma format_02x_byte (z : Z) : 0 <= z <= 255 -> is_hex2 (Py.format_02x z) = true.
Proof.
  intros H.
  assert (A : forallb (fun z => is_hex2 (Py.format_02x z)) (range 256) = true)
    by closed_bool.
  rewrite forallb_forall in A. apply A, range_In. lia.
Qed.

Lemma is_hex2_inv (s : string) :
  is_hex2 s = true ->
  exists a b, s = String a (String b "") /\ is_hex_digit a = true /\ is_hex_digit b = true.
Proof.
  unfold is_hex2. destruct s as [|a [|b [|c s]]]; try discriminate.
  cbn [String.length Nat.eqb all_hex andb]. rewrite andb_true_r.
  intros H. apply andb_true_iff in H. exists a, b. split; [reflexivity | exact H].
Qed.

Lemma rgb_to_hex_color (r g b : Z) :
  0 <= r <= 255 -> 0 <= g <= 255 -> 0 <= b <= 255 ->
  is_color (rgb_to_hex r g b) = true.
Proof.
  intros Hr Hg Hb. unfold rgb_to_hex.
  destruct (is_hex2_inv _ (format_02x_byte r Hr)) as (r1 & r2 & -> & R1 & R2).
  destruct (is_hex2_inv _ (format_02x_byte g Hg)) as (g1 & g2 & -> & G1 & G2).
  destruct (is_hex2_inv _ (format_02x_byte b Hb)) as (b1 & b2 & -> & B1 & B2).
  cbn [append is_color String.length Nat.eqb all_hex].
  rewrite R1, R2, G1, G2, B1, B2. reflexivity.
Qed.

Lemma hls_to_rgb_range (h : float) :
  exists r g b : Z,
    hls_to_rgb h (PyFloat.lit "0.5") (PyFloat.lit "0.8") = Ok (r, g, b)
    /\ 0 <= r <= 255 /\ 0 <= g <= 255 /\ 0 <= b <= 255.
Proof.
  unfold hls_to_rgb. rewrite hls_palette.
  destruct (v_range (B64.add h Colorsys.ONE_THIRD)) as (r & -> & Pr).
  destruct (v_range h) as (g & -> & Pg).
  destruct (v_range (B64.sub h Colorsys.ONE_THIRD)) as (b & -> & Pb).
  cbn [bind].
  destruct (channel_range r Pr) as (zr & -> & Hr).
  destruct (channel_range g Pg) as (zg & -> & Hg).
  destruct (channel_range b Pb) as (zb & -> & Hb).
  cbn [bind]. exists zr, zg, zb. auto.
Qed.

(** One turn of the palette loop. *)
Theorem palette_color_ok (n i : Z) :
  0 <= i < n ->
  exists c, palette_color n i = Ok c /\ is_color c = true /\ channel_color c.
Proof.
  intros H. unfold palette_color.
  destruct (true_div_below_one i n H) as (q & ->). cbn [bind].
  rewrite lit_one.
  destruct (float_rem_one_range q) as (h & -> & _). cbn [bind].
  destruct (hls_to_rgb_range h) as (r & g & b & -> & Hr & Hg & Hb). cbn [bind].
  eexists. split; [reflexivity|]. split.
  - apply rgb_to_hex_color; assumption.
  - exists r, g, b. repeat split; apply format_02x_byte; assumption.
Qed.

Lemma palette_loop_ok (n : Z) (idxs : list Z) :
  (forall i, In i idxs -> 0 <= i < n) ->
  forall acc : list string,
    exists cs, palette_loop n idxs acc = Ok (acc ++ cs)%list
               /\ List.length cs = List.length idxs
               /\ Forall (fun c => is_color c = true /\ channel_color c) cs.
Proof.
  induction idxs as [|i idxs IH]; intros Hin acc; cbn [palette_loop].
  - exists []. rewrite app_nil_r. repeat split. constructor.
  - destruct (palette_color_ok n i) as (c & -> & Hc); [apply Hin; left; reflexivity|].
    cbn [bind].
    destruct (IH (fun j Hj => Hin j (or_intror Hj)) (acc ++ [c])%list) as (cs & -> & L & F).
    exists (c :: cs). rewrite <- app_assoc. repeat split.
    + cbn [List.length]. rewrite L. reflexivity.
    + constructor; assumption.
Qed.

End Palette.

(** ** Reading back the decimal representation *)

Section Decimal.

Import Str PyFloat.

(** Rounding a double: an integer multiple [m * 2^j] of its mantissa, with
    the exponent lowered by [j], rounds to the double itself. *)
Lemma round_aux_exact (sx : bool) (m : positive) (e j : Z) :
  0 <= j ->
  bounded B64.prec B64.emax m e = true ->
  binary_round_aux B64.prec B64.emax sx (Z.pos m * 2 ^ j) (e - j) loc_Exact
  = S754_finite sx m e.
Proof.
  intros Hj B. destruct (bounded_digits m e B) as (C & L & D1).
  assert (P : 0 < 2 ^ j) by (apply Z.pow_pos_nonneg; lia).
  assert (Hm : 0 <= Z.pos m * 2 ^ j) by lia.
  destruct (round_aux_cases sx (Z.pos m * 2 ^ j) (e - j) loc_Exact Hm) as (m' & _ & X & ->).
  rewrite Zdigits2_mul_pow2, fexp_eq in * by lia.
  replace (Z.max 0 (Z.max (Zdigits2 (Z.pos m) + j + (e - j) - 53) (-1074) - (e - j)))
    with j in * by lia.
  rewrite Z.div_mul in X by lia.
  assert (Nz : 2 ^ j <> 0) by lia.
  rewrite (X eq_refl (Z.mod_mul (Z.pos m) (2 ^ j) Nz)).
  cbn zeta. rewrite fexp_eq.
  replace (Z.max 0 (Z.max (Zdigits2 (Z.pos m) + (e - j + j) - 53) (-1074) - (e - j + j)))
    with 0 by lia.
  rewrite Z.div_1_r, Z.add_0_r. replace (e - j + j) with e by lia.
  destruct (Z.leb_spec e (B64.emax - B64.prec)); [reflexivity|].
  unfold B64.emax, B64.prec in *. lia.
Qed.

(** The quotient of two integers that is a double: [SFdiv] returns it. *)
Lemma div_exact (sx : bool) (m : positive) (e : Z) (n d : positive) :
  bounded B64.prec B64.emax m e = true ->
  Z.pos n * 2 ^ Z.max (- e) 0 = Z.pos m * 2 ^ Z.max e 0 * Z.pos d ->
  B64.div (S754_finite sx n 0) (S754_finite false d 0) = S754_finite sx m e.
Proof.
  intros B E. destruct (bounded_digits m e B) as (C & L & D1).
  unfold B64.div, SFdiv, SFdiv_core_binary.
  rewrite !Z.add_0_r, !Z.sub_0_r, Z.sub_0_l, fexp_eq.
  set (a := Z.max (- e) 0) in *. set (b := Z.max e 0) in *.
  set (d1 := Zdigits2 (Z.pos n)). set (d2 := Zdigits2 (Z.pos d)).
  set (D := Zdigits2 (Z.pos m)) in *.
  assert (Bn : 2 ^ (d1 - 1) <= Z.pos n < 2 ^ d1) by (apply Zdigits2_bounds; lia).
  assert (Bd : 2 ^ (d2 - 1) <= Z.pos d < 2 ^ d2) by (apply Zdigits2_bounds; lia).
  assert (Bm : 2 ^ (D - 1) <= Z.pos m < 2 ^ D) by (apply Zdigits2_bounds; lia).
  assert (P1 : 1 <= d1) by (unfold d1; cbn; lia).
  assert (P2 : 1 <= d2) by (unfold d2; cbn; lia).
  assert (Pa : 0 < 2 ^ a) by (apply Z.pow_pos_nonneg; lia).
  assert (Pb : 0 < 2 ^ b) by (apply Z.pow_pos_nonneg; lia).
  assert (U : d1 - d2 <= D + e).
  { destruct (Z_le_gt_dec (d1 - d2) (D + e)) as [|G]; [assumption|exfalso].
    assert (A1 : 2 ^ (d1 - 1) * 2 ^ a <= Z.pos n * 2 ^ a).
    { apply Z.mul_le_mono_nonneg_r; lia. }
    rewrite <- Z.pow_add_r in A1 by lia.
    assert (A2 : 2 ^ (D + d2 + b) <= 2 ^ (d1 - 1 + a)) by (apply Z.pow_le_mono_r; lia).
    assert (A3 : Z.pos m * Z.pos d < 2 ^ D * 2 ^ d2).
    { apply Z.mul_lt_mono_nonneg; lia. }
    rewrite <- Z.pow_add_r in A3 by lia.
    assert (A4 : Z.pos m * Z.pos d * 2 ^ b < 2 ^ (D + d2) * 2 ^ b).
    { apply Z.mul_lt_mono_pos_r; lia. }
    rewrite <- Z.pow_add_r in A4 by lia. lia. }
  set (e' := Z.min (Z.max (d1 - d2 - 53) (-1074)) 0).
  assert (Le : e' <= e) by (unfold e'; lia).
  assert (Le0 : e' <= 0) by (unfold e'; lia).
  assert (Q : (match - e' with
               | 0 => Z.pos n
               | Z.pos _ => Z.shiftl (Z.pos n) (- e')
               | Z.neg _ => 0
               end) = Z.pos n * 2 ^ (- e')).
  { destruct (- e') as [|p|p] eqn:Es; [rewrite Z.mul_1_r; reflexivity | | lia].
    rewrite Z.shiftl_mul_pow2 by lia. reflexivity. }
  rewrite Q.
  assert (V : Z.pos n * 2 ^ (- e') = Z.pos d * (Z.pos m * 2 ^ (e - e'))).
  { apply (Z.mul_reg_r _ _ (2 ^ a)); [lia|].
    replace (Z.pos n * 2 ^ (- e') * 2 ^ a) with (Z.pos n * 2 ^ a * 2 ^ (- e')) by ring.
    rewrite E.
    replace (Z.pos d * (Z.pos m * 2 ^ (e - e')) * 2 ^ a)
      with (Z.pos m * (2 ^ (e - e') * 2 ^ a) * Z.pos d) by ring.
    rewrite <- Z.pow_add_r by lia.
    replace (e - e' + a) with (b + - e') by lia.
    rewrite Z.pow_add_r by lia. ring. }
  assert (DE : Z.div_eucl (Z.pos n * 2 ^ (- e')) (Z.pos d) = (Z.pos m * 2 ^ (e - e'), 0)).
  { pose proof (Z.div_eucl_eq (Z.pos n * 2 ^ (- e')) (Z.pos d) ltac:(lia)) as Eq.
    pose proof (Z.mod_pos_bound (Z.pos n * 2 ^ (- e')) (Z.pos d) ltac:(lia)) as Bd'.
    unfold Z.modulo in Bd'.
    destruct (Z.div_eucl (Z.pos n * 2 ^ (- e')) (Z.pos d)) as [q r].
    assert (q = Z.pos m * 2 ^ (e - e') /\ r = 0); [|intuition congruence].
    rewrite V in Eq.
    assert (Z.pos d * (Z.pos m * 2 ^ (e - e') - q) = r) by lia.
    assert (Z.pos m * 2 ^ (e - e') - q = 0) by nia. lia. }
  rewrite DE.
  assert (NL : new_location (Z.pos d) 0 = loc_Exact).
  { unfold new_location, new_location_even, new_location_odd.
    destruct (Z.even (Z.pos d)); reflexivity. }
  rewrite NL, xorb_false_r.
  replace e' with (e - (e - e')) at 2 by lia. apply round_aux_exact; [lia | exact B].
Qed.

Lemma isdigit_cases (c : ascii) :
  isdigit c = true ->
  In c ["0"; "1"; "2"; "3"; "4"; "5"; "6"; "7"; "8"; "9"]%char.
Proof.
  unfold isdigit, between, code. intros H.
  apply andb_prop in H. destruct H as [A B].
  apply N.leb_le in A, B.
  rewrite <- (ascii_N_embedding c).
  set (n := N_of_ascii c) in *.
  assert (C : (n = 48 \/ n = 49 \/ n = 50 \/ n = 51 \/ n = 52 \/ n = 53 \/ n = 54
               \/ n = 55 \/ n = 56 \/ n = 57)%N) by lia.
  cbn [In].
  repeat (destruct C as [->|C]; [tauto|]). subst n. rewrite C. tauto.
Qed.

Ltac digit_cases c H :=
  let I := fresh "I" in
  pose proof (isdigit_cases c H) as I; cbn [In] in I;
  repeat (destruct I as [<-|I]); [..|destruct I].

Lemma digit_char_spec (d : Z) :
  0 <= d < 10 -> isdigit (digit_char d) = true /\ digit_val (digit_char d) = d.
Proof.
  intros H.
  assert (C : d = 0 \/ d = 1 \/ d = 2 \/ d = 3 \/ d = 4 \/ d = 5 \/ d = 6
              \/ d = 7 \/ d = 8 \/ d = 9) by lia.
  repeat (destruct C as [->|C]; [split; reflexivity|]). subst d. split; reflexivity.
Qed.

Lemma digits_val_snoc (l : list ascii) (c : ascii) :
  digits_val (l ++ [c]) = 10 * digits_val l + digit_val c.
Proof. unfold digits_val. rewrite fold_left_app. reflexivity. Qed.

Lemma digits_val_acc (l : list ascii) :
  forall acc,
    fold_left (fun acc c => 10 * acc + digit_val c) l acc
    = acc * 10 ^ Z.of_nat (List.length l) + digits_val l.
Proof.
  unfold digits_val. induction l as [|c l IH]; intros acc.
  - cbn. lia.
  - cbn [fold_left List.length]. rewrite (IH (10 * acc + digit_val c)), (IH (10 * 0 + digit_val c)).
    rewrite Nat2Z.inj_succ, Z.pow_succ_r by lia. ring.
Qed.

Lemma digits_val_app (a b : list ascii) :
  digits_val (a ++ b) = digits_val a * 10 ^ Z.of_nat (List.length b) + digits_val b.
Proof.
  unfold digits_val at 1. rewrite fold_left_app. apply digits_val_acc.
Qed.

Lemma last_digits_spec (k : nat) :
  forall n, 0 <= n ->
    Forall (fun c => isdigit c = true) (last_digits k n)
    /\ List.length (last_digits k n) = k
    /\ digits_val (last_digits k n) = n mod 10 ^ Z.of_nat k.
Proof.
  induction k as [|k IH]; intros n Hn; cbn [last_digits].
  - repeat split; [constructor|]. cbn. rewrite Z.mod_1_r. reflexivity.
  - destruct (IH (n / 10)) as (F & L & V); [apply Z.div_pos; lia|].
    assert (B : 0 <= n mod 10 < 10) by (apply Z.mod_pos_bound; lia).
    destruct (digit_char_spec _ B) as [Dd Dv].
    split; [|split].
    + apply Forall_app. split; [exact F | constructor; [exact Dd | constructor]].
    + rewrite length_app, L. cbn. lia.
    + rewrite digits_val_snoc, V, Dv, Nat2Z.inj_succ, Z.pow_succ_r by lia.
      rewrite (Z.rem_mul_r n 10 (10 ^ Z.of_nat k)); [lia | lia|].
      apply Z.pow_pos_nonneg; lia.
Qed.

Lemma drop_zeros_spec (l : list ascii) :
  l <> [] ->
  drop_zeros l <> []
  /\ digits_val (drop_zeros l) = digits_val l
  /\ (Forall (fun c => isdigit c = true) l ->
      Forall (fun c => isdigit c = true) (drop_zeros l)).
Proof.
  induction l as [|c l IH]; intros N; [congruence|].
  cbn [drop_zeros]. destruct l as [|c' l].
  - repeat split; [discriminate | auto].
  - destruct (Ascii.eqb_spec c "0") as [->|_].
    + destruct IH as (A & B & C); [discriminate|].
      split; [exact A|]. split; [rewrite B; reflexivity|].
      intros F. inversion F; subst. auto.
    + repeat split; [discriminate | auto].
Qed.

Lemma int_digits_spec (n : Z) :
  0 <= n ->
  int_digits n <> []
  /\ Forall (fun c => isdigit c = true) (int_digits n)
  /\ digits_val (int_digits n) = n.
Proof.
  intros Hn. unfold int_digits.
  set (k := S (Z.to_nat (Z.log2 n))).
  destruct (last_digits_spec k n Hn) as (F & L & V).
  assert (N : last_digits k n <> []).
  { intros E. rewrite E in L. discriminate L. }
  destruct (drop_zeros_spec _ N) as (A & B & C).
  split; [exact A|]. split; [exact (C F)|].
  rewrite B, V. apply Z.mod_small. split; [exact Hn|].
  unfold k. rewrite Nat2Z.inj_succ, Z2Nat.id by apply Z.log2_nonneg.
  destruct (Z.eq_dec n 0) as [->|Nz]; [cbn; lia|].
  pose proof (Z.log2_spec n ltac:(lia)) as [_ U].
  assert (2 ^ Z.succ (Z.log2 n) <= 10 ^ Z.succ (Z.log2 n)).
  { apply Z.pow_le_mono_l. lia. }
  lia.
Qed.

(** *** Reading a numeral *)

Lemma digit_plain (c : ascii) :
  isdigit c = true -> isspace c = false /\ Ascii.eqb c "_" = false.
Proof. intros H. digit_cases c H; split; reflexivity. Qed.

Lemma rev_append_list (l : list ascii) :
  forall a, Str.rev_append (string_of_list_ascii l) (string_of_list_ascii a)
            = string_of_list_ascii (List.rev_append l a).
Proof.
  induction l as [|c l IH]; intros a; cbn [string_of_list_ascii Str.rev_append List.rev_append];
    [reflexivity|].
  apply (IH (c :: a)).
Qed.

Lemma rev_list (l : list ascii) :
  Str.rev (string_of_list_ascii l) = string_of_list_ascii (List.rev l).
Proof. unfold Str.rev. rewrite List.rev_alt. apply (rev_append_list l []). Qed.

Lemma lstrip_list (l : list ascii) :
  Forall (fun c => isspace c = false) l ->
  lstrip (string_of_list_ascii l) = string_of_list_ascii l.
Proof.
  intros F. destruct F as [|c l Hc F]; cbn [string_of_list_ascii lstrip]; [reflexivity|].
  rewrite Hc. reflexivity.
Qed.

Lemma strip_list (l : list ascii) :
  Forall (fun c => isspace c = false) l ->
  strip (string_of_list_ascii l) = string_of_list_ascii l.
Proof.
  intros F. unfold strip, rstrip.
  rewrite (lstrip_list l F), rev_list, lstrip_list by (apply Forall_rev, F).
  rewrite rev_list, List.rev_involutive. reflexivity.
Qed.

Lemma drop_underscores_list (l : list ascii) :
  Forall (fun c => Ascii.eqb c "_" = false) l ->
  forall prev, Ascii.eqb prev "_" = false ->
    drop_underscores prev (string_of_list_ascii l) = Some l.
Proof.
  induction 1 as [|c l Hc F IH]; intros prev Hp; cbn [string_of_list_ascii drop_underscores].
  - rewrite Hp. reflexivity.
  - rewrite Hc, Hp. cbn [andb]. rewrite (IH c Hc). reflexivity.
Qed.

Lemma span_digits_app (l r : list ascii) :
  Forall (fun c => isdigit c = true) l ->
  span_digits r = ([], r) ->
  span_digits (l ++ r) = (l, r).
Proof.
  intros F R. induction F as [|c l Hc F IH]; cbn [app span_digits]; [exact R|].
  rewrite Hc, IH. reflexivity.
Qed.

Lemma read_number_numeral (neg : bool) (ip fp : list ascii) :
  ip <> [] ->
  Forall (fun c => isdigit c = true) ip ->
  Forall (fun c => isdigit c = true) fp ->
  read_number neg (ip ++ "."%char :: fp)
  = Some (B64.of_decimal neg (digits_val (ip ++ fp)) (- Z.of_nat (List.length fp))).
Proof.
  intros N Fi Ff. unfold read_number.
  rewrite (span_digits_app ip ("."%char :: fp) Fi eq_refl).
  pose proof (span_digits_app fp [] Ff eq_refl) as S. rewrite app_nil_r in S.
  rewrite S. cbn [read_exponent].
  destruct ip as [|c ip]; [congruence|]. cbn [app]. reflexivity.
Qed.

Lemma read_sign_digit (c : ascii) (r : list ascii) :
  isdigit c = true -> read_sign (c :: r) = (false, c :: r).
Proof. intros H. digit_cases c H; reflexivity. Qed.

Lemma read_special_digit (neg : bool) (c : ascii) (r : list ascii) :
  isdigit c = true -> read_special neg (c :: r) = None.
Proof. intros H. digit_cases c H; reflexivity. Qed.

(** [float] on a numeral: the number its digits denote. *)
Lemma of_string_numeral (neg : bool) (ip fp : list ascii) :
  ip <> [] ->
  Forall (fun c => isdigit c = true) ip ->
  Forall (fun c => isdigit c = true) fp ->
  of_string (numeral neg ip fp)
  = Ok (B64.of_decimal neg (digits_val (ip ++ fp)) (- Z.of_nat (List.length fp))).
Proof.
  intros N Fi Ff. unfold of_string, numeral.
  set (l := ((if neg then ["-"%char] else []) ++ ip ++ "."%char :: fp)%list).
  assert (P : Forall (fun c => isspace c = false /\ Ascii.eqb c "_" = false) l).
  { unfold l. apply Forall_app. split; [destruct neg; repeat constructor|].
    apply Forall_app. split.
    - eapply Forall_impl; [|exact Fi]. intros c Hc. apply digit_plain, Hc.
    - constructor; [split; reflexivity|].
      eapply Forall_impl; [|exact Ff]. intros c Hc. apply digit_plain, Hc. }
  rewrite strip_list by (eapply Forall_impl; [|exact P]; intros c Hc; apply Hc).
  rewrite drop_underscores_list;
    [|eapply Forall_impl; [|exact P]; intros c Hc; apply Hc | reflexivity].
  destruct ip as [|c ip]; [congruence|].
  assert (Hc : isdigit c = true) by (inversion Fi; assumption).
  assert (R : read_sign l = (neg, (c :: ip) ++ "."%char :: fp)%list).
  { unfold l. destruct neg; cbn [app]; [reflexivity | apply read_sign_digit, Hc]. }
  rewrite R. cbn [app]. rewrite (read_special_digit neg c _ Hc).
  change (c :: (ip ++ "."%char :: fp))%list with ((c :: ip) ++ "."%char :: fp)%list.
  rewrite read_number_numeral by assumption. reflexivity.
Qed.

(** *** The decimal representation is read back *)

(** The digits of the decimal representation of [m * 2^e] denote
    [m * 2^e]: with [k] digits after the point, the number [n] that all the
    digits write is such that [n / 10^k = m * 2^e]. *)
Lemma decimal_numeral (s : bool) (m : positive) (e : Z) :
  exists ip fp : list ascii,
    decimal (S754_finite s m e) = numeral s ip fp
    /\ ip <> []
    /\ Forall (fun c => isdigit c = true) ip
    /\ Forall (fun c => isdigit c = true) fp
    /\ 0 < digits_val (ip ++ fp)
    /\ digits_val (ip ++ fp) * 2 ^ Z.max (- e) 0
       = Z.pos m * 2 ^ Z.max e 0 * 10 ^ Z.of_nat (List.length fp).
Proof.
  cbn [decimal].
  set (k := Z.max (- e) 1).
  set (n := Z.pos m * 2 ^ (e + k) * 5 ^ k).
  assert (Hk : 1 <= k) by (unfold k; lia).
  assert (P2 : 0 < 2 ^ (e + k)) by (apply Z.pow_pos_nonneg; unfold k; lia).
  assert (P5 : 0 < 5 ^ k) by (apply Z.pow_pos_nonneg; lia).
  assert (P10 : 0 < 10 ^ k) by (apply Z.pow_pos_nonneg; lia).
  assert (Hn : 0 < n) by (unfold n; nia).
  destruct (int_digits_spec (n / 10 ^ k)) as (N & Fi & Vi); [apply Z.div_pos; lia|].
  destruct (last_digits_spec (Z.to_nat k) n) as (Ff & Lf & Vf); [lia|].
  exists (int_digits (n / 10 ^ k)), (last_digits (Z.to_nat k) n).
  split; [reflexivity|]. split; [exact N|]. split; [exact Fi|]. split; [exact Ff|].
  rewrite digits_val_app, Vi, Vf, Lf, Z2Nat.id by lia.
  replace (n / 10 ^ k * 10 ^ k + n mod 10 ^ k) with n
    by (rewrite (Z.div_mod n (10 ^ k)) at 1; lia).
  split; [exact Hn|]. unfold n.
  replace (10 ^ k) with (2 ^ k * 5 ^ k) by (rewrite <- Z.pow_mul_l; reflexivity).
  replace (Z.pos m * 2 ^ (e + k) * 5 ^ k * 2 ^ Z.max (- e) 0)
    with (Z.pos m * (2 ^ (e + k) * 2 ^ Z.max (- e) 0) * 5 ^ k) by ring.
  replace (Z.pos m * 2 ^ Z.max e 0 * (2 ^ k * 5 ^ k))
    with (Z.pos m * (2 ^ Z.max e 0 * 2 ^ k) * 5 ^ k) by ring.
  rewrite <- !Z.pow_add_r by (unfold k; lia).
  do 3 f_equal. unfold k. lia.
Qed.

(** [float] reads from the decimal representation of a double that
    double. *)
Lemma of_string_decimal (x : float) :
  valid_binary B64.prec B64.emax x = true ->
  of_string (decimal x) = Ok x.
Proof.
  intros V. destruct x as [s|s| |s m e]; try (destruct s; vm_compute; reflexivity).
  - vm_compute. reflexivity.
  - cbn [valid_binary] in V.
    destruct (decimal_numeral s m e) as (ip & fp & -> & N & Fi & Ff & Hn & E).
    rewrite of_string_numeral by assumption.
    f_equal. unfold B64.of_decimal.
    set (k := Z.of_nat (List.length fp)) in *.
    destruct (digits_val (ip ++ fp)) as [|p|p] eqn:En; try lia.
    replace (Z.max (- k) 0) with 0 by lia.
    replace (Z.max (- - k) 0) with k by lia.
    change (Z.to_pos (10 ^ 0)) with 1%positive. rewrite Pos.mul_1_r.
    apply div_exact; [exact V|].
    rewrite Z2Pos.id by (apply Z.pow_pos_nonneg; lia). exact E.
Qed.

Lemma strip_decimal (x : float) :
  is_finite x = true -> strip (decimal x) = decimal x.
Proof.
  intros F. destruct x as [s|s| |s m e]; try discriminate F; [destruct s; reflexivity|].
  destruct (decimal_numeral s m e) as (ip & fp & -> & N & Fi & Ff & _).
  unfold numeral. apply strip_list.
  apply Forall_app. split; [destruct s; repeat constructor|].
  apply Forall_app. split.
  - eapply Forall_impl; [|exact Fi]. intros c Hc. apply digit_plain, Hc.
  - constructor; [reflexivity|].
    eapply Forall_impl; [|exact Ff]. intros c Hc. apply digit_plain, Hc.
Qed.

(** [parse_float] reads from the decimal representation of a finite double
    that double. *)
Lemma parse_float_decimal (x : float) :
  valid_binary B64.prec B64.emax x = true ->
  is_finite x = true ->
  parse_float (decimal x) = Some x.
Proof.
  intros V F. unfold parse_float.
  rewrite (strip_decimal x F), (of_string_decimal x V).
  destruct (B64.eqb x x) eqn:E; [reflexivity|].
  apply eqb_self_false in E. subst x. discriminate F.
Qed.

End Decimal.

(** ** The rows, read at the resolved indices *)

Section Indices.

Lemma load_one_row (lat_idx lon_idx : nat) (row : list string) (lat_s lon_s : string) :
  nth_error row lat_idx = Some lat_s -> nth_error row lon_idx = Some lon_s ->
  process_row lat_idx lon_idx row = Ok (point_of_fields lat_s lon_s)
  /\ load_rows lat_idx lon_idx [row] []
     = Ok (match point_of_fields lat_s lon_s with Some p => [p] | None => [] end).
Proof.
  intros Ha Hb.
  assert (Hlen : (Nat.max lat_idx lon_idx < List.length row)%nat).
  { apply Nat.max_lub_lt; apply nth_error_Some; congruence. }
  assert (P : process_row lat_idx lon_idx row = Ok (point_of_fields lat_s lon_s)).
  { rewrite (process_row_repaired lat_idx lon_idx row row).
    - apply read_point_fields; assumption.
    - intros ->. simpl in Hlen. lia.
    - apply repair_long, Hlen. }
  split; [exact P|]. cbn [load_rows]. rewrite P. cbn [bind].
  destruct (point_of_fields lat_s lon_s); reflexivity.
Qed.


Lemma range_finite (x : float) :
  lat_in_range x = true \/ lon_in_range x = true -> is_finite x = true.
Proof.
  unfold lat_in_range, lon_in_range. rewrite !andb_true_iff.
  intros [[A B]|[A B]];
    (destruct x as [s|[|]| |s m e]; try reflexivity;
       try (vm_compute in A; discriminate A); vm_compute in B; discriminate B).
Qed.

End Indices.

(** ** The claims about the coordinate loader *)





(** C3, as the specification states it, fails: the header [x,y] does have
    named matches, and the row [1.0,2.0] does not give the point
    (1.0, 2.0). *)
Lemma C3_counterexample :
  load_csv_points [["x"; "y"]; ["1.0"; "2.0"]]
  <> Ok [(PyFloat.lit "1.0", PyFloat.lit "2.0")].
Proof. vm_compute. discriminate. Qed.

(** C3, amended. In the header [x,y] the name [y] is a latitude synonym, at
    index 1, and [x] a longitude synonym, at index 0: the row [1.0,2.0]
    gives the single point of latitude 2.0 and longitude 1.0. *)
Theorem C3_header_x_y :
  header_indices ["x"; "y"] = (Some 1%nat, Some 0%nat)
  /\ load_csv_points [["x"; "y"]; ["1.0"; "2.0"]]
     = Ok [(PyFloat.lit "2.0", PyFloat.lit "1.0")].
Proof. split; vm_compute; reflexivity. Qed.

(** C4. The repaired row is meant to be read as (identifier, latitude,
    longitude); the code reads it at the indices resolved from the header.
    Under the header [ip,lon,lat] the row [1.2.3.4, "48.85,2.35"] gives
    latitude 2.35 and longitude 48.85; under the header [lat,name,lon] the
    row [12, "48.85,2.35"] gives its first field as the latitude. Under the
    header [ip,lat,lon], that resolves to the indices 1 and 2, the row gives
    the point (48.85, 2.35). *)
Theorem C4_repaired_row_misread :
  load_csv_points [["ip"; "lon"; "lat"]; ["1.2.3.4"; "48.85,2.35"]]
  = Ok [(PyFloat.lit "2.35", PyFloat.lit "48.85")]
  /\ load_csv_points [["lat"; "name"; "lon"]; ["12"; "48.85,2.35"]]
     = Ok [(PyFloat.lit "12", PyFloat.lit "2.35")]
  /\ load_csv_points [["ip"; "lat"; "lon"]; ["1.2.3.4"; "48.85,2.35"]]
     = Ok [(PyFloat.lit "48.85", PyFloat.lit "2.35")].
Proof. repeat split; vm_compute; reflexivity. Qed.

(** C5. Round trip: for doubles [lat] in [-90, 90] and [lon] in
    [-180, 180], [parse_float] reads [lat] and [lon] back from their decimal
    representations, and under a header a data row that holds these
    representations at the resolved indices gives exactly the point
    [(lat, lon)], unchanged. *)
Theorem C5_round_trip :
  forall (header row : list string) (lat lon : float),
    header <> [] ->
    valid_binary B64.prec B64.emax lat = true ->
    valid_binary B64.prec B64.emax lon = true ->
    lat_in_range lat = true ->
    lon_in_range lon = true ->
    nth_error row (fst (resolve_indices header)) = Some (decimal lat) ->
    nth_error row (snd (resolve_indices header)) = Some (decimal lon) ->
    parse_float (decimal lat) = Some lat
    /\ parse_float (decimal lon) = Some lon
    /\ process_row (fst (resolve_indices header)) (snd (resolve_indices header)) row
       = Ok (Some (lat, lon))
    /\ load_csv_points [header; row] = Ok [(lat, lon)].
Proof.
  intros header row lat lon Hh Va Vb Ra Rb Ha Hb.
  assert (Pa : parse_float (decimal lat) = Some lat)
    by (apply parse_float_decimal; [exact Va | apply range_finite; left; exact Ra]).
  assert (Pb : parse_float (decimal lon) = Some lon)
    by (apply parse_float_decimal; [exact Vb | apply range_finite; right; exact Rb]).
  split; [exact Pa|]. split; [exact Pb|].
  destruct (load_one_row _ _ row _ _ Ha Hb) as [P L].
  assert (F : point_of_fields (decimal lat) (decimal lon) = Some (lat, lon)).
  { unfold point_of_fields. rewrite Pa, Pb. unfold in_range. rewrite Ra, Rb. reflexivity. }
  rewrite F in P, L. split; [exact P|].
  rewrite load_csv_points_rows by exact Hh. exact L.
Qed.

Lemma C5_round_trip_witness :
  ["ip"; "latitude"; "longitude"] <> []
  /\ valid_binary B64.prec B64.emax (PyFloat.lit "48.85") = true
  /\ valid_binary B64.prec B64.emax (PyFloat.lit "-122.1") = true
  /\ lat_in_range (PyFloat.lit "48.85") = true
  /\ lon_in_range (PyFloat.lit "-122.1") = true
  /\ decimal (PyFloat.lit "48.85") = "48.85000000000000142108547152020037174224853515625"
  /\ load_csv_points
       [["ip"; "latitude"; "longitude"];
        ["8.8.8.8"; decimal (PyFloat.lit "48.85"); decimal (PyFloat.lit "-122.1")]]
     = Ok [(PyFloat.lit "48.85", PyFloat.lit "-122.1")].
Proof.
  assert (N : ["ip"; "latitude"; "longitude"] <> []) by discriminate.
  assert (Va : valid_binary B64.prec B64.emax (PyFloat.lit "48.85") = true)
    by (vm_compute; reflexivity).
  assert (Vb : valid_binary B64.prec B64.emax (PyFloat.lit "-122.1") = true)
    by (vm_compute; reflexivity).
  assert (Ra : lat_in_range (PyFloat.lit "48.85") = true) by (vm_compute; reflexivity).
  assert (Rb : lon_in_range (PyFloat.lit "-122.1") = true) by (vm_compute; reflexivity).
  split; [exact N|]. split; [exact Va|]. split; [exact Vb|].
  split; [exact Ra|]. split; [exact Rb|]. split; [vm_compute; reflexivity|].
  exact (proj2 (proj2 (proj2
    (C5_round_trip ["ip"; "latitude"; "longitude"]
       ["8.8.8.8"; decimal (PyFloat.lit "48.85"); decimal (PyFloat.lit "-122.1")]
       (PyFloat.lit "48.85") (PyFloat.lit "-122.1") N Va Vb Ra Rb eq_refl eq_refl)))).
Defined.

(** C9. The loader is meant never to raise; the code does raise. Under a
    header whose coordinate columns lie beyond index 2, a two-field row with
    a comma in its second field is rebuilt as three fields and then read at
    the resolved index, out of range: [IndexError]. *)
Theorem C9_repaired_row_raises :
  load_csv_points [["id"; "name"; "lat"; "lon"]; ["1.2.3.4"; "48.85,2.35"]]
  = Raise IndexError.
Proof. vm_compute. reflexivity. Qed.

(** C10. Last resort: under a header with a single column, where the
    synonyms and both fallbacks leave an index unresolved, the loader
    reads latitude at index 1 and longitude at index 2; a data row then
    adds a point only when it has three fields or more, or is a two-field
    row with a comma in its second field. *)
Theorem C10_last_resort :
  forall header : list string,
    header <> [] ->
    (List.length header < 2)%nat ->
    is_none (fst (header_indices header)) || is_none (snd (header_indices header)) = true
    /\ resolve_indices header = (1%nat, 2%nat)
    /\ (forall rows, load_csv_points (header :: rows) = load_rows 1 2 rows [])
    /\ (forall (row : list string) (p : LatLng),
           process_row 1 2 row = Ok (Some p) ->
           (3 <= List.length row)%nat
           \/ (exists r0 r1, row = [r0; r1] /\ Str.contains "," r1 = true)).
Proof.
  intros header Hne Hlen.
  destruct header as [|c [|c' header]]; [congruence| |simpl in Hlen; lia].
  assert (U : is_none (fst (header_indices [c]))
              || is_none (snd (header_indices [c])) = true).
  { rewrite header_indices_eq. cbn [map first_match List.length Nat.leb].
    destruct (Str.mem (normalize c) lat_candidates) eqn:E.
    - rewrite (candidates_disjoint _ E). reflexivity.
    - reflexivity. }
  assert (R : resolve_indices [c] = (1%nat, 2%nat)).
  { unfold resolve_indices.
    destruct (header_indices [c]) as [[a|] [b|]]; try reflexivity.
    discriminate U. }
  repeat split.
  - exact U.
  - exact R.
  - intros rows. rewrite load_csv_points_rows by discriminate.
    rewrite R. reflexivity.
  - intros row p H.
    destruct (Nat.leb_spec 3 (List.length row)) as [L|L]; [left; exact L|].
    right. destruct row as [|r0 [|r1 [|r2 row]]]; try (simpl in L; lia).
    + discriminate H.
    + discriminate H.
    + exists r0, r1. split; [reflexivity|].
      destruct (Str.contains "," r1) eqn:C; [reflexivity|].
      unfold process_row, repair in H. cbn [List.length Nat.max Nat.leb] in H.
      rewrite C in H. discriminate H.
Qed.

Lemma C10_last_resort_witness :
  ["lat"] <> []
  /\ (List.length ["lat"] < 2)%nat
  /\ resolve_indices ["lat"] = (1%nat, 2%nat).
Proof.
  assert (H1 : ["lat"] <> []) by discriminate.
  assert (H2 : (List.length ["lat"] < 2)%nat) by (simpl; lia).
  split; [exact H1|]. split; [exact H2|].
  exact (proj1 (proj2 (C10_last_resort ["lat"] H1 H2))).
Defined.

(** ** The claims about the bounds aggregator and the palette *)

(** C6. [fit_bounds_from_points] returns no bounds exactly when the mapping
    has no point at all (it is empty, or all its trajectories are). When the
    mapping has a point, and no coordinate is NaN, it returns the pair
    ((minimum latitude, minimum longitude), (maximum latitude, maximum
    longitude)): each of the four is a coordinate of some point of the
    mapping and bounds that coordinate of every point, axis by axis. For
    a: (10,10), (20,20) and b: (-5,30) the result is ((-5,10), (20,30)). *)
Theorem C6_bounds :
  (forall d : points_dict,
      fit_bounds_from_points d = Ok None
      <-> (forall k pts, In (k, pts) d -> pts = []))
  /\
  (forall d : points_dict,
      nan_free d ->
      (exists p, point_in d p) ->
      exists min_lat min_lon max_lat max_lon : float,
        fit_bounds_from_points d
        = Ok (Some [(min_lat, min_lon); (max_lat, max_lon)])
        /\ is_bounds d min_lat min_lon max_lat max_lon)
  /\
  fit_bounds_from_points
    [("a", [(PyFloat.lit "10", PyFloat.lit "10"); (PyFloat.lit "20", PyFloat.lit "20")]);
     ("b", [(PyFloat.lit "-5", PyFloat.lit "30")])]
  = Ok (Some [(PyFloat.lit "-5", PyFloat.lit "10"); (PyFloat.lit "20", PyFloat.lit "30")]).
Proof.
  split; [|split].
  - intros d. rewrite <- no_point_iff. unfold fit_bounds_from_points.
    unfold collect_lats, collect_lons.
    destruct (List.concat (values d)) as [|[lat lon] l]; cbn [map is_nil orb].
    + split; reflexivity.
    + split; [|discriminate]. cbn [Py.min Py.max bind]. discriminate.
  - intros d N [p Hp].
    assert (Nlat : Forall (fun x => x <> S754_nan) (collect_lats d)).
    { apply Forall_forall. intros x Hx. apply in_lats in Hx.
      destruct Hx as [lon Hx]. apply (N _ _ Hx). }
    assert (Nlon : Forall (fun x => x <> S754_nan) (collect_lons d)).
    { apply Forall_forall. intros x Hx. apply in_lons in Hx.
      destruct Hx as [lat Hx]. apply (N _ _ Hx). }
    assert (Elat : collect_lats d <> []).
    { destruct p as [lat lon]. intros E.
      assert (I : In lat (collect_lats d)) by (apply in_lats; eauto).
      rewrite E in I. contradiction. }
    assert (Elon : collect_lons d <> []).
    { destruct p as [lat lon]. intros E.
      assert (I : In lon (collect_lons d)) by (apply in_lons; eauto).
      rewrite E in I. contradiction. }
    destruct (py_min_spec _ Elat Nlat) as (a & Ha & Ia & La).
    destruct (py_min_spec _ Elon Nlon) as (b & Hb & Ib & Lb).
    destruct (py_max_spec _ Elat Nlat) as (c & Hc & Ic & Lc).
    destruct (py_max_spec _ Elon Nlon) as (e & He & Ie & Le).
    exists a, b, c, e.
    rewrite Forall_forall in La, Lb, Lc, Le.
    split; [|unfold is_bounds; repeat split].
    + unfold fit_bounds_from_points. rewrite Ha, Hb, Hc, He.
      destruct (collect_lats d); [congruence|].
      destruct (collect_lons d); [congruence|]. reflexivity.
    + apply in_lats, Ia.
    + intros lat lon H. apply La, in_lats. eauto.
    + apply in_lons, Ib.
    + intros lat lon H. apply Lb, in_lons. eauto.
    + apply in_lats, Ic.
    + intros lat lon H. apply Lc, in_lats. eauto.
    + apply in_lons, Ie.
    + intros lat lon H. apply Le, in_lons. eauto.
  - vm_compute. reflexivity.
Qed.

Lemma C6_bounds_witness :
  nan_free [("b", [(PyFloat.lit "-5", PyFloat.lit "30")])]
  /\ (exists p, point_in [("b", [(PyFloat.lit "-5", PyFloat.lit "30")])] p)
  /\ exists min_lat min_lon max_lat max_lon : float,
       fit_bounds_from_points [("b", [(PyFloat.lit "-5", PyFloat.lit "30")])]
       = Ok (Some [(min_lat, min_lon); (max_lat, max_lon)])
       /\ is_bounds [("b", [(PyFloat.lit "-5", PyFloat.lit "30")])]
            min_lat min_lon max_lat max_lon.
Proof.
  assert (N : nan_free [("b", [(PyFloat.lit "-5", PyFloat.lit "30")])]).
  { intros lat lon (k & pts & [H|[]] & Hp). injection H as _ <-.
    destruct Hp as [Hp|[]]. injection Hp as <- <-.
    split; vm_compute; discriminate. }
  assert (E : exists p, point_in [("b", [(PyFloat.lit "-5", PyFloat.lit "30")])] p).
  { exists (PyFloat.lit "-5", PyFloat.lit "30"), "b", [(PyFloat.lit "-5", PyFloat.lit "30")].
    split; left; reflexivity. }
  split; [exact N|]. split; [exact E|].
  exact (proj1 (proj2 C6_bounds) _ N E).
Defined.

(** C7. [generate_palette 0] is the empty list; for every n > 0,
    [generate_palette n] returns n strings, each the character [#] followed
    by six lower-case hexadecimal digits, two for each of the three
    channels. *)
Theorem C7_palette_format :
  generate_palette 0 = Ok []
  /\ forall n : Z,
       0 < n ->
       exists colors : list string,
         generate_palette n = Ok colors
         /\ Z.of_nat (List.length colors) = n
         /\ Forall (fun c => is_color c = true /\ channel_color c) colors.
Proof.
  split; [reflexivity|]. intros n Hn. unfold generate_palette.
  destruct (Z.leb_spec n 0); [lia|].
  destruct (palette_loop_ok n (range n) (In_range n) []) as (cs & -> & L & F).
  exists cs. repeat split; [|exact F].
  rewrite L. unfold range. rewrite length_map, length_seq. lia.
Qed.

Lemma C7_palette_format_witness :
  0 < 3
  /\ exists colors : list string,
       generate_palette 3 = Ok colors
       /\ Z.of_nat (List.length colors) = 3
       /\ Forall (fun c => is_color c = true /\ channel_color c) colors.
Proof.
  assert (H : 0 < 3) by lia.
  split; [exact H | exact (proj2 C7_palette_format 3 H)].
Defined.

(** C8. For every n from 1 to 12, [generate_palette n] returns n colors that
    are pairwise distinct. *)
Theorem C8_palette_distinct :
  forall n : Z,
    1 <= n <= 12 ->
    exists colors : list string,
      generate_palette n = Ok colors
      /\ Z.of_nat (List.length colors) = n
      /\ NoDup colors.
Proof.
  assert (D : forall l, distinct l = true -> NoDup l).
  { induction l as [|x l IH]; cbn [distinct]; intros H; constructor.
    - apply andb_true_iff in H. destruct H as [H _].
      intros I. apply negb_true_iff in H. unfold Str.mem in H.
      assert (E : existsb (String.eqb x) l = true)
        by (apply existsb_exists; exists x; split; [exact I | apply String.eqb_refl]).
      congruence.
    - apply IH. apply andb_true_iff in H. apply H. }
  intros n Hn.
  assert (C : n = 1 \/ n = 2 \/ n = 3 \/ n = 4 \/ n = 5 \/ n = 6 \/ n = 7
              \/ n = 8 \/ n = 9 \/ n = 10 \/ n = 11 \/ n = 12) by lia.
  repeat (destruct C as [->|C]); try subst n;
    (eexists; split; [vm_compute; reflexivity
                     | split; [reflexivity | apply D; vm_compute; reflexivity]]).
Qed.

Lemma C8_palette_distinct_witness :
  1 <= 3 <= 12
  /\ exists colors : list string,
       generate_palette 3 = Ok colors
       /\ Z.of_nat (List.length colors) = 3
       /\ NoDup colors.
Proof.
  assert (H : 1 <= 3 <= 12) by lia.
  split; [exact H | exact (C8_palette_distinct 3 H)].
Defined.

(* ------------------------------------------------------------------ *)
(** * Further properties of the code *)

(** ** The legend *)

Section Legend.

Lemma append_assoc (a b c : string) : (a ++ b) ++ c = a ++ (b ++ c).
Proof. induction a; cbn [append]; congruence. Qed.

Lemma append_nil_r (a : string) : a ++ "" = a.
Proof. induction a; cbn [append]; congruence. Qed.

Lemma replace_app (old : ascii) (new a b : string) :
  Str2.replace old new (a ++ b) = Str2.replace old new a ++ Str2.replace old new b.
Proof.
  induction a as [|c a IH]; cbn [append Str2.replace]; [reflexivity|].
  rewrite IH. destruct (Ascii.eqb c old); [rewrite append_assoc|]; reflexivity.
Qed.

Lemma esc_app (a b : string) : esc (a ++ b) = esc a ++ esc b.
Proof. unfold esc. rewrite !replace_app. reflexivity. Qed.

Lemma esc_one (c : ascii) : esc (String c "") = esc_char c.
Proof.
  unfold esc, esc_char. cbn [Str2.replace].
  destruct (Ascii.eqb_spec c "&") as [->|N1]; [reflexivity|].
  cbn [Str2.replace].
  destruct (Ascii.eqb_spec c "<") as [->|N2]; [reflexivity|].
  cbn [Str2.replace].
  destruct (Ascii.eqb_spec c ">") as [->|N3]; reflexivity.
Qed.

Lemma esc_chars (s : string) : esc s = flat_map_string esc_char s.
Proof.
  induction s as [|c s IH]; [reflexivity|].
  change (String c s) with (String c "" ++ s).
  rewrite esc_app, esc_one, IH. reflexivity.
Qed.

Lemma count_app (c : ascii) (a b : string) :
  Str2.count c (a ++ b) = (Str2.count c a + Str2.count c b)%nat.
Proof. induction a; cbn [append Str2.count]; lia. Qed.

Lemma esc_char_markup (c : ascii) :
  Str2.count "<" (esc_char c) = 0%nat /\ Str2.count ">" (esc_char c) = 0%nat.
Proof.
  unfold esc_char.
  destruct (Ascii.eqb_spec c "&"); [split; reflexivity|].
  destruct (Ascii.eqb_spec c "<"); [split; reflexivity|].
  destruct (Ascii.eqb_spec c ">"); [split; reflexivity|].
  cbn [Str2.count].
  destruct (Ascii.eqb_spec c "<"); [contradiction|].
  destruct (Ascii.eqb_spec c ">"); [contradiction|]. split; reflexivity.
Qed.

Lemma esc_count_markup (s : string) :
  Str2.count "<" (esc s) = 0%nat /\ Str2.count ">" (esc s) = 0%nat.
Proof.
  rewrite esc_chars. induction s as [|c s [IH1 IH2]]; [split; reflexivity|].
  cbn [flat_map_string]. rewrite !count_app, IH1, IH2.
  destruct (esc_char_markup c) as [-> ->]. split; reflexivity.
Qed.

(** X1. The text [esc] returns holds neither [<] nor [>], whatever the name
    is. *)
Theorem esc_no_markup (s : string) :
  Str2.count "<" (esc s) = 0%nat /\ Str2.count ">" (esc s) = 0%nat.
Proof. exact (esc_count_markup s). Qed.

Lemma esc_char_prefix (c1 c2 : ascii) (a b : string) :
  esc_char c1 ++ a = esc_char c2 ++ b -> c1 = c2 /\ a = b.
Proof.
  unfold esc_char.
  destruct (Ascii.eqb_spec c1 "&") as [->|A1];
    [|destruct (Ascii.eqb_spec c1 "<") as [->|L1];
      [|destruct (Ascii.eqb_spec c1 ">") as [->|G1]]];
  (destruct (Ascii.eqb_spec c2 "&") as [->|A2];
    [|destruct (Ascii.eqb_spec c2 "<") as [->|L2];
      [|destruct (Ascii.eqb_spec c2 ">") as [->|G2]]]);
  cbn [append]; intros H; try discriminate H;
    try (injection H as -> ->; split; reflexivity);
    try (injection H as ->; split; reflexivity);
    try (injection H as E _; congruence).
Qed.

(** X2. [esc] loses nothing: two names with the same escaped text are the
    same name. *)
Theorem esc_injective (a b : string) : esc a = esc b -> a = b.
Proof.
  rewrite !esc_chars. revert b.
  induction a as [|c a IH]; intros [|d b]; cbn [flat_map_string]; intros H.
  - reflexivity.
  - exfalso. unfold esc_char in H.
    destruct (Ascii.eqb d "&"), (Ascii.eqb d "<"), (Ascii.eqb d ">"); discriminate H.
  - exfalso. unfold esc_char in H.
    destruct (Ascii.eqb c "&"), (Ascii.eqb c "<"), (Ascii.eqb c ">"); discriminate H.
  - destruct (esc_char_prefix _ _ _ _ H) as [-> E]. f_equal. apply IH, E.
Qed.

Lemma esc_injective_witness :
  esc "a<b" = esc "a<b" /\ "a<b" = "a<b".
Proof.
  split; [reflexivity | apply (esc_injective "a<b" "a<b"); reflexivity].
Defined.

Lemma join_count (c : ascii) (parts : list string) :
  Str2.count c nl = 0%nat ->
  Str2.count c (Str2.join nl parts) = list_sum (map (Str2.count c) parts).
Proof.
  intros H. induction parts as [|p [|q parts] IH].
  - reflexivity.
  - cbn. lia.
  - change (Str2.join nl (p :: q :: parts)) with (p ++ nl ++ Str2.join nl (q :: parts)).
    rewrite !count_app, H, IH. unfold list_sum. cbn [map fold_right]. lia.
Qed.

(** X3. When no color holds [<] or [>], the items of the legend hold six [<]
    and six [>] for each item, those of the two [div] and [span] tags the
    code writes: a name adds no tag of its own. *)
Theorem legend_markup (legend_items : list (string * string)) :
  Forall (fun item => Str2.count "<" (snd item) = 0%nat
                      /\ Str2.count ">" (snd item) = 0%nat) legend_items ->
  Str2.count "<" (items_html legend_items) = (6 * List.length legend_items)%nat
  /\ Str2.count ">" (items_html legend_items) = (6 * List.length legend_items)%nat.
Proof.
  intros F. unfold items_html.
  rewrite !join_count by reflexivity.
  induction F as [|[name color] items [Hl Hg] F IH]; unfold list_sum in *;
    cbn [map fold_right List.length].
  - split; reflexivity.
  - destruct IH as [-> ->]. cbn [snd] in Hl, Hg.
    unfold legend_item_html. rewrite !count_app, Hl, Hg.
    destruct (esc_count_markup name) as [-> ->].
    split; vm_compute Str2.count; lia.
Qed.

Lemma legend_markup_witness :
  Forall (fun item => Str2.count "<" (snd item) = 0%nat
                      /\ Str2.count ">" (snd item) = 0%nat)
    [("<b>a.csv</b>", "#bf4040")]
  /\ Str2.count "<" (items_html [("<b>a.csv</b>", "#bf4040")]) = 6%nat.
Proof.
  assert (F : Forall (fun item => Str2.count "<" (snd item) = 0%nat
                                  /\ Str2.count ">" (snd item) = 0%nat)
                [("<b>a.csv</b>", "#bf4040")]).
  { constructor; [split; reflexivity | constructor]. }
  split; [exact F | exact (proj1 (legend_markup _ F))].
Defined.

End Legend.

(** ** The map *)

Section MapBuilding.

Lemma last_cons {A : Type} (l : list A) : forall x y : A, last (y :: l) x = last l y.
Proof.
  induction l as [|z l IH]; intros x y; [reflexivity|].
  change (last (y :: z :: l) x) with (last (z :: l) x).
  rewrite (IH x z), (IH y z). reflexivity.
Qed.

Lemma nth_error_last {A : Type} (l : list A) :
  forall x : A, nth_error (x :: l) (List.length l) = Some (last l x).
Proof.
  induction l as [|y l IH]; intros x; [reflexivity|].
  cbn [List.length nth_error]. rewrite IH, last_cons. reflexivity.
Qed.

Lemma py_index_first {A : Type} (x : A) (l : list A) : py_index (x :: l) 0 = Ok x.
Proof.
  unfold py_index. cbn [List.length]. cbn [Z.ltb Z.compare].
  destruct (Z.leb_spec (Z.of_nat (S (List.length l))) 0); [lia|]. reflexivity.
Qed.

Lemma py_index_last {A : Type} (x : A) (l : list A) :
  py_index (x :: l) (-1) = Ok (last l x).
Proof.
  unfold py_index. cbn [List.length]. cbn [Z.ltb Z.compare].
  set (n := Z.of_nat (S (List.length l))).
  destruct (Z.ltb_spec (-1 + n) 0); [lia|].
  destruct (Z.leb_spec n (-1 + n)); [lia|]. cbn [orb].
  replace (Z.to_nat (-1 + n)) with (List.length l) by lia.
  rewrite nth_error_last. reflexivity.
Qed.

Lemma validate_each_ok (points : list LatLng) :
  existsb has_nan points = false -> validate_each points = Ok points.
Proof.
  induction points as [|p ps IH]; cbn [existsb validate_each]; [reflexivity|].
  intros H. apply orb_false_elim in H. destruct H as [Hp Hps].
  unfold validate_location. rewrite Hp, (IH Hps). reflexivity.
Qed.


Lemma existsb_has_nan_in (points : list LatLng) (p : LatLng) :
  existsb has_nan points = false -> In p points -> has_nan p = false.
Proof.
  intros H Hin. destruct (has_nan p) eqn:E; [|reflexivity].
  assert (existsb has_nan points = true) by (apply existsb_exists; eauto). congruence.
Qed.

Lemma last_in {A : Type} (l : list A) : forall x : A, In (last l x) (x :: l).
Proof.
  induction l as [|y l IH]; intros x; [left; reflexivity|].
  rewrite last_cons. right. apply IH.
Qed.

Lemma trajectory_group_ok (name : string) (points : list LatLng) (color : string) :
  points <> [] -> existsb has_nan points = false ->
  exists g, trajectory_group name points color = Ok g
            /\ group_for (name, points) color g.
Proof.
  destruct points as [|x l]; [congruence|]. intros _ V.
  unfold trajectory_group, validate_locations. cbn [is_nil].
  rewrite (validate_each_ok _ V), py_index_first, py_index_last. cbn [bind].
  unfold validate_location.
  rewrite (existsb_has_nan_in _ x V (or_introl eq_refl)).
  pose proof (last_in l x) as Hl.
  rewrite (existsb_has_nan_in _ _ V Hl). cbn [bind].
  eexists. split; [reflexivity|]. split; [reflexivity|].
  eexists. eexists. eexists. split; [reflexivity|].
  cbn [pl_locations pl_color cm_location snd hd_error]. repeat split.
  destruct l; reflexivity.
Qed.


Lemma build_groups_spec (items : list (string * list LatLng))
  (colors : Dict.t string) :
  (forall p, point_in items p -> has_nan p = false) ->
  forall legend_items groups,
  exists gs,
    build_groups items colors legend_items groups
    = Ok ((legend_items ++ map (fun kv => (fst kv, color_of colors (fst kv))) (kept items))%list,
          (groups ++ gs)%list)
    /\ Forall2 (fun kv g => group_for kv (color_of colors (fst kv)) g) (kept items) gs.
Proof.
  induction items as [|[name points] items IH]; intros V lg gs; cbn [build_groups kept filter].
  - exists []. rewrite !app_nil_r. split; [reflexivity | constructor].
  - assert (V' : forall p, point_in items p -> has_nan p = false).
    { intros p (k & pts & Hin & Hp). apply V. exists k, pts. split; [right; exact Hin | exact Hp]. }
    cbn [snd]. destruct points as [|x l]; cbn [is_nil negb].
    + apply IH, V'.
    + assert (Vp : existsb has_nan (x :: l) = false).
      { destruct (existsb has_nan (x :: l)) eqn:E; [|reflexivity].
        apply existsb_exists in E. destruct E as (p & Hp & N).
        rewrite V in N; [discriminate|]. exists name, (x :: l). split; [left; reflexivity | exact Hp]. }
      destruct (trajectory_group_ok name (x :: l) (color_of colors name)) as (g & Eg & Hg);
        [discriminate | exact Vp|].
      fold (color_of colors name). rewrite Eg. cbn [bind].
      destruct (IH V' (lg ++ [(name, color_of colors name)])%list (gs ++ [g])%list)
        as (gs' & E & F).
      exists (g :: gs'). fold (kept items). rewrite E. cbn [map fst].
      rewrite <- !app_assoc. split; [reflexivity|].
      constructor; assumption.
Qed.


Lemma fit_bounds_total (d : points_dict) :
  exists b, fit_bounds_from_points d = Ok b
            /\ (b = None <-> List.concat (values d) = []).
Proof.
  unfold fit_bounds_from_points, collect_lats, collect_lons.
  destruct (List.concat (values d)) as [|[lat lon] l]; cbn [map is_nil orb].
  - exists None. split; [reflexivity | tauto].
  - cbn [Py.min Py.max bind]. eexists. split; [reflexivity|].
    split; discriminate.
Qed.

Lemma kept_nil (d : points_dict) : kept d = [] <-> List.concat (values d) = [].
Proof.
  induction d as [|[k pts] d IH]; [tauto|].
  unfold values in *. cbn [kept filter map snd List.concat].
  destruct pts as [|p pts]; cbn [is_nil negb app].
  - exact IH.
  - split; discriminate.
Qed.

Lemma build_map_spec (has_element : bool) (d : points_dict)
  (colors : Dict.t string) (tiles : string) :
  (forall p, point_in d p -> has_nan p = false) ->
  exists m,
    build_map has_element true d colors tiles = Ok m
    /\ Forall2 (fun kv g => group_for kv (color_of colors (fst kv)) g)
         (kept d) (map_groups m)
    /\ (map_fit_bounds m = None <-> map_groups m = [])
    /\ (map_html m = [] <-> has_element = false \/ map_groups m = []).
Proof.
  intros V. unfold build_map. cbn [negb].
  destruct (build_groups_spec d colors V [] []) as (gs & -> & F). cbn [bind app].
  destruct (fit_bounds_total d) as (b & -> & Hb). cbn [bind].
  rewrite <- kept_nil in Hb.
  assert (G : gs = [] <-> kept d = []).
  { split; intros E; rewrite E in F; inversion F; reflexivity. }
  unfold add_legend. cbn [map_groups map_fit_bounds map_html].
  destruct (kept d) as [|kv kd] eqn:K; cbn [map is_nil orb].
  - eexists. split; [reflexivity|]. cbn [map_groups map_fit_bounds map_html].
    split; [exact F|]. assert (gs = []) by (apply G; reflexivity). subst gs.
    destruct Hb as [_ Hb]. rewrite (Hb eq_refl). split; [tauto|]. split; auto.
  - assert (Ngs : gs <> []) by (intros E; apply G in E; discriminate).
    assert (Nb : b <> None) by (intros E; apply Hb in E; discriminate).
    destruct has_element; cbn [negb];
      (eexists; split; [reflexivity|]); cbn [map_groups map_fit_bounds map_html];
      (split; [exact F|]);
      (split; [destruct b; [split; [discriminate | intros E; contradiction] | congruence]|]).
    + cbn [app]. split; [discriminate|]. intros [E|E]; [discriminate | contradiction].
    + split; auto.
Qed.



End MapBuilding.

(** ** [main] *)

Section Main.

(** *** Dictionaries *)

Lemma dict_set_in {V : Type} (k : string) (v : V) (d : Dict.t V) :
  forall k' v', In (k', v') (Dict.set k v d) -> (k', v') = (k, v) \/ In (k', v') d.
Proof.
  induction d as [|[k0 v0] d IH]; cbn [Dict.set]; intros k' v' H.
  - destruct H as [H|[]]. left. symmetry. exact H.
  - destruct (String.eqb_spec k k0) as [->|N].
    + destruct H as [H|H]; [left; symmetry; exact H | right; right; exact H].
    + destruct H as [H|H]; [right; left; exact H|].
      destruct (IH _ _ H); [left | right; right]; assumption.
Qed.

Lemma dict_set_keys {V : Type} (k : string) (v : V) (d : Dict.t V) :
  Dict.keys (Dict.set k v d)
  = if existsb (String.eqb k) (Dict.keys d) then Dict.keys d
    else (Dict.keys d ++ [k])%list.
Proof.
  induction d as [|[k0 v0] d IH]; cbn [Dict.set Dict.keys map fst existsb]; [reflexivity|].
  destruct (String.eqb_spec k k0) as [->|N]; cbn [orb map fst]; [reflexivity|].
  fold (Dict.keys d). fold (Dict.keys (Dict.set k v d)). rewrite IH.
  destruct (existsb (String.eqb k) (Dict.keys d)); reflexivity.
Qed.

Lemma existsb_eqb_in (k : string) (l : list string) :
  existsb (String.eqb k) l = true <-> In k l.
Proof.
  rewrite existsb_exists. split.
  - intros (x & H & E). apply String.eqb_eq in E. subst. exact H.
  - intros H. exists k. split; [exact H | apply String.eqb_refl].
Qed.

Lemma dict_set_nodup {V : Type} (k : string) (v : V) (d : Dict.t V) :
  NoDup (Dict.keys d) -> NoDup (Dict.keys (Dict.set k v d)).
Proof.
  intros H. rewrite dict_set_keys.
  destruct (existsb (String.eqb k) (Dict.keys d)) eqn:E; [exact H|].
  apply NoDup_app; [exact H | constructor; [intros [] | constructor]|].
  intros x Hx [<-|[]]. apply existsb_eqb_in in Hx. congruence.
Qed.

Lemma dict_set_absent {V : Type} (k : string) (v : V) (d : Dict.t V) :
  ~ In k (Dict.keys d) -> Dict.set k v d = (d ++ [(k, v)])%list.
Proof.
  induction d as [|[k0 v0] d IH]; cbn [Dict.set Dict.keys map fst app]; intros N;
    [reflexivity|].
  destruct (String.eqb_spec k k0) as [->|_]; [elim N; left; reflexivity|].
  rewrite IH; [reflexivity|]. intros H. apply N. right. exact H.
Qed.

Lemma of_pairs_fresh {V : Type} (ks : list string) :
  forall (vs : list V) (acc : Dict.t V),
    NoDup ks -> (forall k, In k ks -> ~ In k (Dict.keys acc)) ->
    fold_left (fun d kv => Dict.set (fst kv) (snd kv) d) (combine ks vs) acc
    = (acc ++ combine ks vs)%list.
Proof.
  induction ks as [|k ks IH]; intros vs acc N F; cbn [combine fold_left].
  - rewrite app_nil_r. reflexivity.
  - destruct vs as [|v vs]; cbn [fold_left fst snd]; [rewrite app_nil_r; reflexivity|].
    inversion N as [|? ? Nk Nks]; subst.
    rewrite dict_set_absent by (apply F; left; reflexivity).
    rewrite IH; [rewrite <- app_assoc; reflexivity | exact Nks|].
    intros k' Hk' H. unfold Dict.keys in H. rewrite map_app in H.
    apply in_app_or in H. destruct H as [H|[H|[]]].
    + apply (F k'); [right; exact Hk' | exact H].
    + cbn in H. subst. contradiction.
Qed.

Lemma colors_of_pairs (ks : list string) (vs : list string) :
  NoDup ks -> List.length vs = List.length ks ->
  map (color_of (Dict.of_pairs (combine ks vs))) ks = vs.
Proof.
  intros N L. unfold Dict.of_pairs.
  rewrite of_pairs_fresh by (try exact N; intros k _ []). cbn [app].
  revert vs L. induction N as [|k ks Nk N IH]; intros [|v vs] L; try discriminate L;
    [reflexivity|].
  cbn [combine map]. f_equal.
  - unfold color_of. cbn [Dict.get]. rewrite String.eqb_refl. reflexivity.
  - rewrite <- (IH vs) at 2 by (cbn in L; lia).
    apply map_ext_in. intros k' Hk'. unfold color_of. cbn [Dict.get].
    destruct (String.eqb_spec k' k) as [->|_]; [contradiction | reflexivity].
Qed.

(** *** The loop over the files *)

Lemma load_points_in_range (reader : list (list string)) (pts : list LatLng) :
  load_csv_points reader = Ok pts -> Forall (fun p => in_range p = true) pts.
Proof.
  intros H. destruct reader as [|header rows]; [injection H as <-; constructor|].
  destruct header as [|h header]; [injection H as <-; constructor|].
  rewrite load_csv_points_rows in H by discriminate.
  eapply load_rows_in_range; [|exact H]. constructor.
Qed.

Lemma load_files_kept (files : list (string * list (list string))) :
  forall acc pbf,
    kept_ok acc -> load_files files acc = Ok pbf -> kept_ok pbf.
Proof.
  induction files as [|[name reader] files IH]; intros acc pbf K H; cbn [load_files] in H.
  - injection H as <-. exact K.
  - destruct (load_csv_points reader) as [pts|e] eqn:E; cbn [bind] in H; [|discriminate].
    destruct pts as [|p pts]; cbn [is_nil] in H; [eapply IH; eassumption|].
    eapply IH; [|exact H]. destruct K as [N F]. split.
    + apply dict_set_nodup, N.
    + intros k pts' Hin. apply dict_set_in in Hin. destruct Hin as [[= -> ->]|Hin].
      * split; [discriminate | eapply load_points_in_range, E].
      * apply (F _ _ Hin).
Qed.


Lemma kept_all (d : points_dict) :
  (forall k pts, In (k, pts) d -> pts <> []) -> kept d = d.
Proof.
  induction d as [|[k pts] d IH]; intros H; cbn [kept filter snd]; [reflexivity|].
  destruct pts as [|p pts]; [elim (H k [] (or_introl eq_refl)); reflexivity|].
  cbn [is_nil negb]. f_equal. apply IH. intros k' pts' Hin. apply (H k' pts'). right. exact Hin.
Qed.

Lemma generate_palette_pos (n : Z) :
  0 < n ->
  exists colors, generate_palette n = Ok colors
                 /\ List.length colors = Z.to_nat n
                 /\ Forall (fun c => is_color c = true) colors.
Proof.
  intros Hn. unfold generate_palette. destruct (Z.leb_spec n 0); [lia|].
  destruct (palette_loop_ok n (range n) (In_range n) []) as (cs & -> & L & F).
  exists cs. repeat split.
  - rewrite L. unfold range. rewrite length_map, length_seq. reflexivity.
  - eapply Forall_impl; [|exact F]. intros c [Hc _]. exact Hc.
Qed.

Lemma palette_distinct_12 (n : Z) (colors : list string) :
  1 <= n <= 12 -> generate_palette n = Ok colors -> NoDup colors.
Proof.
  assert (D : forall l, distinct l = true -> NoDup l).
  { induction l as [|x l IH]; cbn [distinct]; intros H; constructor.
    - apply andb_true_iff in H. destruct H as [H _].
      apply negb_true_iff in H. unfold Str.mem in H.
      intros I. apply existsb_eqb_in in I. congruence.
    - apply IH. apply andb_true_iff in H. apply H. }
  intros Hn.
  assert (C : n = 1 \/ n = 2 \/ n = 3 \/ n = 4 \/ n = 5 \/ n = 6 \/ n = 7
              \/ n = 8 \/ n = 9 \/ n = 10 \/ n = 11 \/ n = 12) by lia.
  repeat (destruct C as [->|C]); try subst n;
    (intros H; vm_compute in H; injection H as <-; apply D; vm_compute; reflexivity).
Qed.

Lemma in_range_finite (lat lon : float) :
  in_range (lat, lon) = true -> is_finite lat = true /\ is_finite lon = true.
Proof.
  unfold in_range, lat_in_range, lon_in_range. rewrite !andb_true_iff.
  intros [[A B] [C D]]. split.
  - destruct lat as [s|[|]| |s m e]; try reflexivity;
      try (vm_compute in A; discriminate A); vm_compute in B; discriminate B.
  - destruct lon as [s|[|]| |s m e]; try reflexivity;
      try (vm_compute in C; discriminate C); vm_compute in D; discriminate D.
Qed.

Lemma in_range_not_nan (lat lon : float) :
  in_range (lat, lon) = true -> lat <> S754_nan /\ lon <> S754_nan.
Proof.
  intros H. destruct (in_range_finite _ _ H) as [A B].
  split; intros ->; discriminate.
Qed.

Lemma fit_bounds_spec (d : points_dict) :
  nan_free d -> (exists p, point_in d p) ->
  exists min_lat min_lon max_lat max_lon : float,
    fit_bounds_from_points d = Ok (Some [(min_lat, min_lon); (max_lat, max_lon)])
    /\ is_bounds d min_lat min_lon max_lat max_lon.
Proof.
  intros N [p Hp].
  assert (Nlat : Forall (fun x => x <> S754_nan) (collect_lats d)).
  { apply Forall_forall. intros x Hx. apply in_lats in Hx.
    destruct Hx as [lon Hx]. apply (N _ _ Hx). }
  assert (Nlon : Forall (fun x => x <> S754_nan) (collect_lons d)).
  { apply Forall_forall. intros x Hx. apply in_lons in Hx.
    destruct Hx as [lat Hx]. apply (N _ _ Hx). }
  assert (Elat : collect_lats d <> []).
  { destruct p as [lat lon]. intros E.
    assert (I : In lat (collect_lats d)) by (apply in_lats; eauto).
    rewrite E in I. contradiction. }
  assert (Elon : collect_lons d <> []).
  { destruct p as [lat lon]. intros E.
    assert (I : In lon (collect_lons d)) by (apply in_lons; eauto).
    rewrite E in I. contradiction. }
  destruct (py_min_spec _ Elat Nlat) as (a & Ha & Ia & La).
  destruct (py_min_spec _ Elon Nlon) as (b & Hb & Ib & Lb).
  destruct (py_max_spec _ Elat Nlat) as (c & Hc & Ic & Lc).
  destruct (py_max_spec _ Elon Nlon) as (e & He & Ie & Le).
  exists a, b, c, e. rewrite Forall_forall in La, Lb, Lc, Le.
  split; [|unfold is_bounds; repeat split].
  - unfold fit_bounds_from_points. rewrite Ha, Hb, Hc, He.
    destruct (collect_lats d); [congruence|].
    destruct (collect_lons d); [congruence|]. reflexivity.
  - apply in_lats, Ia.
  - intros lat lon H. apply La, in_lats. eauto.
  - apply in_lons, Ib.
  - intros lat lon H. apply Lb, in_lons. eauto.
  - apply in_lats, Ic.
  - intros lat lon H. apply Lc, in_lats. eauto.
  - apply in_lons, Ie.
  - intros lat lon H. apply Le, in_lons. eauto.
Qed.

Lemma fit_bounds_in_range (d : points_dict) :
  (forall p, point_in d p -> in_range p = true) ->
  (exists p, point_in d p) ->
  exists min_lat min_lon max_lat max_lon : float,
    fit_bounds_from_points d = Ok (Some [(min_lat, min_lon); (max_lat, max_lon)])
    /\ in_range (min_lat, min_lon) = true
    /\ in_range (max_lat, max_lon) = true
    /\ B64.leb min_lat max_lat = true
    /\ B64.leb min_lon max_lon = true.
Proof.
  intros R E.
  assert (N : nan_free d) by (intros lat lon H; apply in_range_not_nan, R, H).
  destruct (fit_bounds_spec d N E) as (a & b & c & e & F & B).
  exists a, b, c, e. split; [exact F|].
  destruct B as ((Ia & La) & (Ib & Lb) & (Ic & Lc) & (Ie & Le)).
  destruct Ia as [lon_a Ia], Ib as [lat_b Ib], Ic as [lon_c Ic], Ie as [lat_e Ie].
  pose proof (R _ Ia) as Ra. pose proof (R _ Ib) as Rb.
  pose proof (R _ Ic) as Rc. pose proof (R _ Ie) as Re.
  unfold in_range in *. rewrite andb_true_iff in Ra, Rb, Rc, Re.
  repeat split.
  - rewrite (proj1 Ra), (proj2 Rb). reflexivity.
  - rewrite (proj1 Rc), (proj2 Re). reflexivity.
  - apply (Lc _ _ Ia).
  - apply (Le _ _ Ib).
Qed.

(** X5. On points within the geographic ranges, as the loader returns them,
    the two corners of the bounds are within the ranges as well, and the
    first is below the second in latitude and in longitude. *)
Theorem bounds_in_range (d : points_dict) :
  (forall p, point_in d p -> in_range p = true) ->
  (exists p, point_in d p) ->
  exists min_lat min_lon max_lat max_lon : float,
    fit_bounds_from_points d = Ok (Some [(min_lat, min_lon); (max_lat, max_lon)])
    /\ in_range (min_lat, min_lon) = true
    /\ in_range (max_lat, max_lon) = true
    /\ B64.leb min_lat max_lat = true
    /\ B64.leb min_lon max_lon = true.
Proof. exact (fit_bounds_in_range d). Qed.

Lemma bounds_in_range_witness :
  (forall p, point_in [("b", [(PyFloat.lit "-5", PyFloat.lit "30")])] p -> in_range p = true)
  /\ (exists p, point_in [("b", [(PyFloat.lit "-5", PyFloat.lit "30")])] p)
  /\ exists min_lat min_lon max_lat max_lon : float,
       fit_bounds_from_points [("b", [(PyFloat.lit "-5", PyFloat.lit "30")])]
       = Ok (Some [(min_lat, min_lon); (max_lat, max_lon)])
       /\ in_range (min_lat, min_lon) = true
       /\ in_range (max_lat, max_lon) = true
       /\ B64.leb min_lat max_lat = true
       /\ B64.leb min_lon max_lon = true.
Proof.
  assert (R : forall p, point_in [("b", [(PyFloat.lit "-5", PyFloat.lit "30")])] p
                        -> in_range p = true).
  { intros p (k & pts & [H|[]] & Hp). injection H as _ <-.
    destruct Hp as [<-|[]]. vm_compute. reflexivity. }
  assert (E : exists p, point_in [("b", [(PyFloat.lit "-5", PyFloat.lit "30")])] p).
  { exists (PyFloat.lit "-5", PyFloat.lit "30"), "b", [(PyFloat.lit "-5", PyFloat.lit "30")].
    split; left; reflexivity. }
  split; [exact R|]. split; [exact E|]. exact (bounds_in_range _ R E).
Defined.

(** *** [main] *)

Lemma Forall2_combine_map {A B C : Type} (Q : A -> B -> C -> Prop) (f : A -> B) :
  forall (l : list A) (gs : list C),
    Forall2 (fun a g => Q a (f a) g) l gs ->
    Forall2 (fun ab g => Q (fst ab) (snd ab) g) (combine l (map f l)) gs.
Proof.
  intros l gs F. induction F; cbn [map combine]; constructor; assumption.
Qed.

Lemma in_range_no_nan (p : LatLng) : in_range p = true -> has_nan p = false.
Proof.
  destruct p as [lat lon]. intros H. destruct (in_range_finite _ _ H) as [A B].
  unfold has_nan. cbn [fst snd]. destruct lat, lon; try discriminate; reflexivity.
Qed.

Lemma kept_ok_no_nan (d : points_dict) :
  kept_ok d -> forall p, point_in d p -> has_nan p = false.
Proof.
  intros [_ K] p (k & pts & Hin & Hp). apply in_range_no_nan.
  destruct (K _ _ Hin) as [_ F]. rewrite Forall_forall in F. apply F, Hp.
Qed.



(** X7. When [main] returns 0, the map has one group for each file that gave
    a point, drawn in the color of its rank in the palette; the palette has
    as many colors as there are such files, each of the form [#rrggbb], all
    distinct up to twelve files; and the map is fitted to bounds whose
    corners are within the geographic ranges. *)
Theorem main_map (has_element : bool)
  (csv_files : list (string * list (list string))) (m : Map) :
  main has_element csv_files = Ok (0, Some m) ->
  exists (points_by_file : points_dict) (colors : list string),
    load_files csv_files [] = Ok points_by_file
    /\ kept_ok points_by_file
    /\ generate_palette (Z.of_nat (List.length points_by_file)) = Ok colors
    /\ List.length colors = List.length points_by_file
    /\ Forall (fun c => is_color c = true) colors
    /\ ((List.length colors <= 12)%nat -> NoDup colors)
    /\ Forall2 (fun kc g => group_for (fst kc) (snd kc) g)
         (combine points_by_file colors) (map_groups m)
    /\ exists min_lat min_lon max_lat max_lon : float,
         map_fit_bounds m = Some ([(min_lat, min_lon); (max_lat, max_lon)], (30, 30))
         /\ in_range (min_lat, min_lon) = true
         /\ in_range (max_lat, max_lon) = true.
Proof.
  unfold main. destruct csv_files as [|f files]; cbn [is_nil]; [discriminate|].
  set (fs := f :: files).
  destruct (load_files fs []) as [pbf|e] eqn:E; cbn [bind]; [|discriminate].
  assert (K : kept_ok pbf).
  { eapply load_files_kept; [|exact E]. split; [constructor | intros ? ? []]. }
  destruct pbf as [|kv pbf']; cbn [is_nil]; [discriminate|].
  set (pbf := kv :: pbf') in *.
  assert (Hn : 0 < Z.of_nat (List.length pbf)) by (cbn [List.length pbf]; lia).
  destruct (generate_palette_pos _ Hn) as (colors & G & Lc & Fc).
  rewrite G. cbn [bind]. rewrite Nat2Z.id in Lc.
  set (cbf := Dict.of_pairs (combine (Dict.keys pbf) colors)).
  destruct (build_map_spec has_element pbf cbf "CartoDB positron" (kept_ok_no_nan _ K))
    as (m' & B & Fg & Hb & _).
  rewrite B. cbn [bind]. intros [= <-].
  pose proof K as [Nk Kv].
  assert (Kall : kept pbf = pbf) by (apply kept_all; intros k pts H; apply (Kv k pts H)).
  rewrite Kall in Fg.
  assert (Cmap : map (fun kv => color_of cbf (fst kv)) pbf = colors).
  { transitivity (map (color_of cbf) (Dict.keys pbf)).
    - unfold Dict.keys. rewrite map_map. reflexivity.
    - apply colors_of_pairs; [exact Nk|].
      unfold Dict.keys. rewrite length_map. exact Lc. }
  exists pbf, colors. split; [reflexivity|]. split; [split; assumption|].
  split; [exact G|]. split; [exact Lc|]. split; [exact Fc|]. split; [|split].
  - intros L12. apply (palette_distinct_12 (Z.of_nat (List.length pbf))); [lia | exact G].
  - rewrite <- Cmap.
    apply (Forall2_combine_map (fun kv c g => group_for kv c g)). exact Fg.
  - assert (R : forall p, point_in pbf p -> in_range p = true).
    { intros p (k & pts & Hin & Hp). destruct (Kv _ _ Hin) as [_ F].
      rewrite Forall_forall in F. apply F, Hp. }
    assert (Ex : exists p, point_in pbf p).
    { destruct kv as [k [|p pts]].
      - destruct (Kv k [] (or_introl eq_refl)) as [N _]. congruence.
      - exists p, k, (p :: pts). split; left; reflexivity. }
    destruct (fit_bounds_in_range pbf R Ex) as (a & b & c & e & F & Ra & Rc & _).
    exists a, b, c, e. split; [|split; assumption].
    unfold build_map in B. cbn [negb] in B.
    destruct (build_groups pbf cbf [] []) as [[lg gs]|]; cbn [bind] in B; [|discriminate].
    rewrite F in B. cbn [bind] in B. injection B as <-.
    unfold add_legend. destruct (is_nil lg || negb has_element); reflexivity.
Qed.

Lemma main_map_witness :
  exists m,
    main true [("a.csv", [["lat"; "lon"]; ["48.85"; "2.35"]])] = Ok (0, Some m)
    /\ exists (points_by_file : points_dict) (colors : list string),
         load_files [("a.csv", [["lat"; "lon"]; ["48.85"; "2.35"]])] [] = Ok points_by_file
         /\ generate_palette (Z.of_nat (List.length points_by_file)) = Ok colors
         /\ List.length colors = List.length points_by_file.
Proof.
  eexists. split; [vm_compute; reflexivity|].
  destruct (main_map true [("a.csv", [["lat"; "lon"]; ["48.85"; "2.35"]])] _ eq_refl)
    as (pbf & colors & A & _ & B & C & _).
  exists pbf, colors. split; [exact A|]. split; [exact B | exact C].
Defined.

(** X8. With file names that are distinct, the loop of [main] over the files
    keeps, in order, the files that gave a point, each with its points. *)
Theorem load_files_distinct (csv_files : list (string * list (list string)))
  (loaded : points_dict) :
  NoDup (map fst csv_files) ->
  Forall2 (fun f kv => fst kv = fst f /\ load_csv_points (snd f) = Ok (snd kv))
    csv_files loaded ->
  load_files csv_files [] = Ok (kept loaded).
Proof.
  intros N F.
  assert (G : forall acc,
             (forall k, In k (map fst csv_files) -> ~ In k (Dict.keys acc)) ->
             load_files csv_files acc = Ok (acc ++ kept loaded)%list).
  { induction F as [|[name reader] [k pts] files loaded' [Hk Hl] F IH]; intros acc Fr.
    - cbn [load_files kept filter]. rewrite app_nil_r. reflexivity.
    - cbn [fst snd] in Hk, Hl. subst k. cbn [load_files]. rewrite Hl. cbn [bind].
      inversion N as [|? ? Nn Nf]; subst.
      cbn [kept filter snd]. fold (kept loaded').
      destruct pts as [|p pts]; cbn [is_nil negb].
      + apply IH; [exact Nf|]. intros k Hk. apply Fr. right. exact Hk.
      + rewrite dict_set_absent by (apply Fr; left; reflexivity).
        rewrite IH; [rewrite <- app_assoc; reflexivity | exact Nf|].
        intros k Hk H. unfold Dict.keys in H. rewrite map_app in H.
        apply in_app_or in H. destruct H as [H|[H|[]]].
        * apply (Fr k); [right; exact Hk | exact H].
        * cbn in H. subst. contradiction. }
  apply (G []). intros k _ [].
Qed.

Lemma load_files_distinct_witness :
  NoDup (map fst [("a.csv", [["lat"; "lon"]; ["48.85"; "2.35"]]); ("b.csv", [["lat"; "lon"]])])
  /\ load_files [("a.csv", [["lat"; "lon"]; ["48.85"; "2.35"]]); ("b.csv", [["lat"; "lon"]])] []
     = Ok (kept [("a.csv", [(PyFloat.lit "48.85", PyFloat.lit "2.35")]); ("b.csv", [])]).
Proof.
  assert (N : NoDup (map fst [("a.csv", [["lat"; "lon"]; ["48.85"; "2.35"]]);
                              ("b.csv", [["lat"; "lon"]])])).
  { constructor; [intros [H|[]]; discriminate H|].
    constructor; [intros []|constructor]. }
  split; [exact N|]. apply load_files_distinct; [exact N|].
  constructor; [split; [reflexivity | vm_compute; reflexivity]|].
  constructor; [split; [reflexivity | vm_compute; reflexivity] | constructor].
Defined.

End Main.

(** ** The loader, row by row *)

Section LoaderRows.

Lemma load_rows_acc (li lo : nat) (rows : list (list string)) :
  forall acc,
    load_rows li lo rows acc
    = (pts <- load_rows li lo rows [] ;; Ok (acc ++ pts)%list).
Proof.
  induction rows as [|row rows IH]; intros acc; cbn [load_rows bind].
  - rewrite app_nil_r. reflexivity.
  - destruct (process_row li lo row) as [[p|]|e]; cbn [bind]; [| |reflexivity].
    + rewrite (IH (acc ++ [p])%list), (IH ([] ++ [p])%list).
      destruct (load_rows li lo rows []); cbn [bind]; [|reflexivity].
      rewrite <- !app_assoc. reflexivity.
    + apply IH.
Qed.

Lemma load_rows_app (li lo : nat) (rows1 rows2 : list (list string)) :
  forall acc,
    load_rows li lo (rows1 ++ rows2) acc
    = (pts <- load_rows li lo rows1 acc ;; load_rows li lo rows2 pts).
Proof.
  induction rows1 as [|row rows1 IH]; intros acc; cbn [app load_rows bind]; [reflexivity|].
  destruct (process_row li lo row) as [[p|]|e]; cbn [bind]; [apply IH | apply IH | reflexivity].
Qed.

(** X9. The loader reads row by row: under one header, the points of the
    rows [rows1 ++ rows2] are the points of [rows1] followed by those of
    [rows2]. *)
Theorem load_concat (header : list string) (rows1 rows2 : list (list string))
  (pts1 pts2 : list LatLng) :
  load_csv_points (header :: rows1) = Ok pts1 ->
  load_csv_points (header :: rows2) = Ok pts2 ->
  load_csv_points (header :: rows1 ++ rows2) = Ok (pts1 ++ pts2)%list.
Proof.
  destruct header as [|h header].
  - cbn. intros [= <-] [= <-]. reflexivity.
  - rewrite !load_csv_points_rows by discriminate.
    intros H1 H2. rewrite load_rows_app, H1. cbn [bind].
    rewrite load_rows_acc, H2. reflexivity.
Qed.

Lemma load_concat_witness :
  load_csv_points (["lat"; "lon"] :: [["1"; "2"]]) = Ok [(PyFloat.lit "1", PyFloat.lit "2")]
  /\ load_csv_points (["lat"; "lon"] :: [["x"; "y"]; ["3"; "4"]])
     = Ok [(PyFloat.lit "3", PyFloat.lit "4")]
  /\ load_csv_points (["lat"; "lon"] :: [["1"; "2"]] ++ [["x"; "y"]; ["3"; "4"]])
     = Ok ([(PyFloat.lit "1", PyFloat.lit "2")] ++ [(PyFloat.lit "3", PyFloat.lit "4")])%list.
Proof.
  assert (A : load_csv_points (["lat"; "lon"] :: [["1"; "2"]])
              = Ok [(PyFloat.lit "1", PyFloat.lit "2")]) by (vm_compute; reflexivity).
  assert (B : load_csv_points (["lat"; "lon"] :: [["x"; "y"]; ["3"; "4"]])
              = Ok [(PyFloat.lit "3", PyFloat.lit "4")]) by (vm_compute; reflexivity).
  split; [exact A|]. split; [exact B | exact (load_concat _ _ _ _ _ A B)].
Defined.

Lemma read_point_total (li lo : nat) (row : list string) :
  (Nat.max li lo < List.length row)%nat -> exists p, read_point li lo row = Ok p.
Proof.
  intros H.
  destruct (nth_error row li) as [a|] eqn:A;
    [|apply nth_error_None in A; lia].
  destruct (nth_error row lo) as [b|] eqn:B;
    [|apply nth_error_None in B; lia].
  rewrite (read_point_fields _ _ _ _ _ A B). eauto.
Qed.

Lemma read_point_raise (li lo : nat) (row : list string) :
  (List.length row <= Nat.max li lo)%nat -> read_point li lo row = Raise IndexError.
Proof.
  intros H. unfold read_point, index.
  destruct (nth_error row li) as [a|] eqn:A; cbn [bind]; [|reflexivity].
  destruct (nth_error row lo) as [b|] eqn:B; cbn [bind]; [|reflexivity].
  assert (li < List.length row)%nat by (apply nth_error_Some; congruence).
  assert (lo < List.length row)%nat by (apply nth_error_Some; congruence).
  lia.
Qed.

(** when a row makes the loop raise *)
Lemma process_row_raise (li lo : nat) (row : list string) (e : exn) :
  process_row li lo row = Raise e <->
  e = IndexError /\ (2 < Nat.max li lo)%nat
  /\ exists r0 r1, row = [r0; r1] /\ Str.contains "," r1 = true.
Proof.
  split.
  - intros H. destruct (Nat.leb_spec (List.length row) (Nat.max li lo)) as [S|L].
    + destruct row as [|r0 [|r1 [|r2 row]]];
        try (rewrite process_row_skip in H
               by (apply repair_short_other; [exact S | intros ? ? [=]]);
             discriminate H).
      destruct (Str.contains "," r1) eqn:C.
      * destruct (Nat.leb_spec 2 (Nat.max li lo)) as [M|M]; [|cbn in S; lia].
        destruct (repair_short_comma li lo r0 r1 M C) as (p0 & p1 & _ & _ & R).
        assert (N2 : [r0; r1] <> []) by discriminate.
        rewrite (process_row_repaired _ _ _ _ N2 R) in H.
        destruct (Nat.leb_spec 3 (Nat.max li lo)) as [M3|M3].
        -- rewrite read_point_raise in H by (cbn; lia). injection H as <-.
           split; [reflexivity|]. split; [lia | eauto].
        -- destruct (read_point_total li lo [r0; p0; p1]) as [p E]; [cbn; lia|].
           congruence.
      * rewrite process_row_skip in H
          by (apply repair_short_other; [exact S | intros ? ? [= <- <-]; exact C]).
        discriminate H.
    + assert (N : row <> []) by (intros ->; cbn in L; lia).
      rewrite (process_row_repaired _ _ _ _ N (repair_long _ _ _ L)) in H.
      destruct (read_point_total li lo row L) as [p E]. congruence.
  - intros (-> & M & r0 & r1 & -> & C).
    assert (M2 : (2 <= Nat.max li lo)%nat) by lia.
    destruct (repair_short_comma li lo r0 r1 M2 C) as (p0 & p1 & _ & _ & R).
    assert (N2 : [r0; r1] <> []) by discriminate.
    rewrite (process_row_repaired _ _ _ _ N2 R).
    apply read_point_raise. cbn. lia.
Qed.

Lemma load_rows_raise (li lo : nat) (rows : list (list string)) (e : exn) :
  forall acc,
    load_rows li lo rows acc = Raise e <->
    exists row, In row rows /\ process_row li lo row = Raise e.
Proof.
  induction rows as [|row rows IH]; intros acc; cbn [load_rows].
  - split; [discriminate | intros (? & [] & _)].
  - destruct (process_row li lo row) as [p|e'] eqn:P; cbn [bind].
    + rewrite IH. split.
      * intros (r & Hin & Hr). exists r. split; [right; exact Hin | exact Hr].
      * intros (r & [<-|Hin] & Hr); [congruence | eauto].
    + split.
      * intros [= <-]. exists row. split; [left; reflexivity | exact P].
      * intros (r & [<-|Hin] & Hr); [congruence|].
        apply process_row_raise in Hr. apply process_row_raise in P.
        destruct Hr as (-> & _), P as (-> & _). reflexivity.
Qed.

Lemma load_raise_cases (header : list string) (rows : list (list string)) (e : exn) :
  header <> [] ->
  (load_csv_points (header :: rows) = Raise e <->
   e = IndexError
   /\ (2 < Nat.max (fst (resolve_indices header)) (snd (resolve_indices header)))%nat
   /\ exists r0 r1, In [r0; r1] rows /\ Str.contains "," r1 = true).
Proof.
  intros N. rewrite load_csv_points_rows by exact N. rewrite load_rows_raise. split.
  - intros (row & Hin & Hr). apply process_row_raise in Hr.
    destruct Hr as (-> & M & r0 & r1 & -> & C). eauto 7.
  - intros (-> & M & r0 & r1 & Hin & C). exists [r0; r1]. split; [exact Hin|].
    apply process_row_raise. eauto 7.
Qed.

(** X10. The only exception of the loader is [IndexError], and it is raised
    exactly when a resolved index is above 2 and some row has two fields of
    which the second holds a comma. *)
Theorem load_raises_iff (header : list string) (rows : list (list string)) (e : exn) :
  header <> [] ->
  (load_csv_points (header :: rows) = Raise e <->
   e = IndexError
   /\ (2 < Nat.max (fst (resolve_indices header)) (snd (resolve_indices header)))%nat
   /\ exists r0 r1, In [r0; r1] rows /\ Str.contains "," r1 = true).
Proof. exact (load_raise_cases header rows e). Qed.

Lemma load_raises_iff_witness :
  ["id"; "name"; "lat"; "lon"] <> []
  /\ (load_csv_points (["id"; "name"; "lat"; "lon"] :: [["1.2.3.4"; "48.85,2.35"]])
      = Raise IndexError
      <-> IndexError = IndexError
          /\ (2 < Nat.max (fst (resolve_indices ["id"; "name"; "lat"; "lon"]))
                     (snd (resolve_indices ["id"; "name"; "lat"; "lon"])))%nat
          /\ exists r0 r1, In [r0; r1] [["1.2.3.4"; "48.85,2.35"]]
                           /\ Str.contains "," r1 = true).
Proof.
  assert (N : ["id"; "name"; "lat"; "lon"] <> []) by discriminate.
  split; [exact N | exact (load_raises_iff _ [["1.2.3.4"; "48.85,2.35"]] IndexError N)].
Defined.

Lemma first_match_lt (cands cols : list string) (i : nat) :
  first_match cands cols 0 = Some i -> (i < List.length cols)%nat.
Proof.
  intros H. destruct (first_match_some _ _ _ _ H) as (_ & (c & Hc & _) & _).
  rewrite Nat.sub_0_r in Hc. apply nth_error_Some. congruence.
Qed.

Lemma resolve_indices_small (header : list string) :
  (List.length header <= 3)%nat ->
  (Nat.max (fst (resolve_indices header)) (snd (resolve_indices header)) <= 2)%nat.
Proof.
  intros L. unfold resolve_indices. rewrite header_indices_eq. cbv zeta.
  destruct (first_match lat_candidates (map normalize header) 0) as [a|] eqn:A;
    destruct (first_match lon_candidates (map normalize header) 0) as [b|] eqn:B;
    cbn [is_none orb];
    try (destruct (3 <=? List.length header)%nat; [cbn; lia|];
         destruct (2 <=? List.length header)%nat; cbn; lia).
  apply first_match_lt in A, B. rewrite length_map in A, B. cbn [fst snd]. lia.
Qed.

(** X11. Under a header of at most three columns the loader raises nothing,
    whatever the rows are. *)
Theorem load_three_columns (header : list string) (rows : list (list string)) :
  (List.length header <= 3)%nat ->
  exists pts, load_csv_points (header :: rows) = Ok pts.
Proof.
  intros L. destruct header as [|h header]; [exists []; reflexivity|].
  destruct (load_csv_points ((h :: header) :: rows)) as [pts|e] eqn:E; [eauto|].
  apply load_raise_cases in E; [|discriminate].
  destruct E as (_ & M & _). pose proof (resolve_indices_small (h :: header) L). lia.
Qed.

Lemma load_three_columns_witness :
  (List.length ["ip"; "lon"; "lat"] <= 3)%nat
  /\ exists pts, load_csv_points (["ip"; "lon"; "lat"] :: [["1.2.3.4"; "48.85,2.35"]]) = Ok pts.
Proof.
  assert (L : (List.length ["ip"; "lon"; "lat"] <= 3)%nat) by (simpl; lia).
  split; [exact L | exact (load_three_columns _ _ L)].
Defined.

(** X12. The coordinates the loader returns are finite numbers: neither an
    infinity nor a NaN. *)
Theorem load_points_finite (reader : list (list string)) (pts : list LatLng)
  (lat lon : float) :
  load_csv_points reader = Ok pts -> In (lat, lon) pts ->
  is_finite lat = true /\ is_finite lon = true.
Proof.
  intros H Hin. apply load_points_in_range in H.
  rewrite Forall_forall in H. apply in_range_finite, H, Hin.
Qed.

Lemma load_points_finite_witness :
  load_csv_points [["lat"; "lon"]; ["48.85"; "2.35"]; ["inf"; "2"]; ["1"; "nan"]]
  = Ok [(PyFloat.lit "48.85", PyFloat.lit "2.35")]
  /\ In (PyFloat.lit "48.85", PyFloat.lit "2.35") [(PyFloat.lit "48.85", PyFloat.lit "2.35")]
  /\ is_finite (PyFloat.lit "48.85") = true /\ is_finite (PyFloat.lit "2.35") = true.
Proof.
  assert (A : load_csv_points [["lat"; "lon"]; ["48.85"; "2.35"]; ["inf"; "2"]; ["1"; "nan"]]
              = Ok [(PyFloat.lit "48.85", PyFloat.lit "2.35")]) by (vm_compute; reflexivity).
  assert (B : In (PyFloat.lit "48.85", PyFloat.lit "2.35")
                [(PyFloat.lit "48.85", PyFloat.lit "2.35")]) by (left; reflexivity).
  split; [exact A|]. split; [exact B | exact (load_points_finite _ _ _ _ A B)].
Defined.

End LoaderRows.

(** ** [geoloc/get_loc_ipv4.py] *)

Section Addresses.

Lemma rev_append_app (s : string) : forall acc, Str.rev_append s acc = Str.rev s ++ acc.
Proof.
  unfold Str.rev. induction s as [|c s IH]; intros acc; cbn [Str.rev_append]; [reflexivity|].
  rewrite (IH (String c acc)), (IH (String c "")), append_assoc. reflexivity.
Qed.

Lemma rev_cons (c : ascii) (s : string) : Str.rev (String c s) = Str.rev s ++ String c "".
Proof. unfold Str.rev at 1. cbn [Str.rev_append]. apply rev_append_app. Qed.

Lemma rev_app (a b : string) : Str.rev (a ++ b) = Str.rev b ++ Str.rev a.
Proof.
  induction a as [|c a IH]; cbn [append].
  - rewrite append_nil_r. reflexivity.
  - rewrite !rev_cons, IH, append_assoc. reflexivity.
Qed.

Lemma rev_involutive (s : string) : Str.rev (Str.rev s) = s.
Proof.
  induction s as [|c s IH]; [reflexivity|].
  rewrite rev_cons, rev_app, IH. reflexivity.
Qed.

Lemma all_in_app (chars a b : string) :
  all_in chars (a ++ b) = all_in chars a && all_in chars b.
Proof.
  induction a as [|c a IH]; cbn [append all_in]; [reflexivity|].
  rewrite IH, andb_assoc. reflexivity.
Qed.

Lemma all_in_rev (chars s : string) : all_in chars (Str.rev s) = all_in chars s.
Proof.
  induction s as [|c s IH]; [reflexivity|].
  rewrite rev_cons, all_in_app, IH. cbn [all_in]. rewrite andb_true_r, andb_comm. reflexivity.
Qed.

Lemma lstrip_chars_spec (chars s : string) :
  exists pre, s = pre ++ Str2.lstrip_chars chars s
              /\ all_in chars pre = true
              /\ starts_in chars (Str2.lstrip_chars chars s) = false.
Proof.
  induction s as [|c s (pre & E & A & S)]; cbn [Str2.lstrip_chars].
  - exists "". repeat split.
  - destruct (Str.contains c chars) eqn:C.
    + exists (String c pre). cbn [append all_in]. rewrite C, A, <- E. repeat split. exact S.
    + exists "". cbn [append all_in starts_in]. repeat split. exact C.
Qed.

(** [s.strip(chars)]: what is removed at both ends are characters of [chars], and
    what is left neither begins nor ends with one *)
Lemma strip_chars_spec (chars s : string) :
  exists pre suf,
    s = pre ++ Str2.strip_chars chars s ++ suf
    /\ all_in chars pre = true /\ all_in chars suf = true
    /\ starts_in chars (Str2.strip_chars chars s) = false
    /\ ends_in chars (Str2.strip_chars chars s) = false.
Proof.
  unfold Str2.strip_chars.
  destruct (lstrip_chars_spec chars s) as (pre & E & A & S).
  set (y := Str2.lstrip_chars chars s) in *.
  destruct (lstrip_chars_spec chars (Str.rev y)) as (pre' & E' & A' & S').
  set (z := Str2.lstrip_chars chars (Str.rev y)) in *.
  assert (Ey : y = Str.rev z ++ Str.rev pre').
  { rewrite <- (rev_involutive y), E', rev_app. reflexivity. }
  exists pre, (Str.rev pre'). split; [rewrite <- Ey; exact E|].
  split; [exact A|]. split; [rewrite all_in_rev; exact A'|]. split.
  - rewrite Ey in S. destruct (Str.rev z); [reflexivity | exact S].
  - unfold ends_in. rewrite rev_involutive. exact S'.
Qed.

Lemma strip_chars_fixed (chars s : string) :
  starts_in chars s = false -> ends_in chars s = false -> Str2.strip_chars chars s = s.
Proof.
  intros S E. unfold Str2.strip_chars.
  assert (L : forall t, starts_in chars t = false -> Str2.lstrip_chars chars t = t).
  { intros [|c t]; cbn [starts_in Str2.lstrip_chars]; [reflexivity|]. intros ->. reflexivity. }
  rewrite (L s S), (L _ E), rev_involutive. reflexivity.
Qed.

(** *** The list of addresses *)

(** X13. Every entry of the list of addresses is a line with a text left
    once trimmed, without its asterisks at both ends; so no entry begins or
    ends with an asterisk. *)
Theorem collect_ips_entries (lines : list string) :
  Forall (fun x =>
            (exists line, In line lines /\ Str.strip line <> ""
                          /\ x = Str2.strip_chars "*" (Str.strip line))
            /\ starts_in "*" x = false /\ ends_in "*" x = false)
    (collect_ips lines).
Proof.
  unfold collect_ips.
  assert (G : forall acc,
             Forall (fun x =>
                       (exists line, In line lines /\ Str.strip line <> ""
                                     /\ x = Str2.strip_chars "*" (Str.strip line))
                       /\ starts_in "*" x = false /\ ends_in "*" x = false) acc ->
             forall ls, (forall l, In l ls -> In l lines) ->
             Forall (fun x =>
                       (exists line, In line lines /\ Str.strip line <> ""
                                     /\ x = Str2.strip_chars "*" (Str.strip line))
                       /\ starts_in "*" x = false /\ ends_in "*" x = false)
               (fold_left collect_step ls acc)).
  { intros acc F ls. revert acc F. induction ls as [|l ls IH]; intros acc F Sub; [exact F|].
    cbn [fold_left]. apply IH; [|intros l' H; apply Sub; right; exact H].
    unfold collect_step.
    destruct (String.eqb_spec (Str.strip l) "") as [|N]; cbn [negb andb]; [exact F|].
    destruct (Str.mem (Str.strip l) acc); cbn [negb]; [exact F|].
    apply Forall_app. split; [exact F|]. constructor; [|constructor].
    destruct (strip_chars_spec "*" (Str.strip l)) as (_ & _ & _ & _ & _ & S & E).
    split; [|split; assumption].
    exists l. split; [apply Sub; left; reflexivity|]. split; [exact N | reflexivity]. }
  apply G; [constructor | auto].
Qed.

(** X14. When no trimmed line begins or ends with an asterisk, the list of
    addresses has no entry twice, and its entries are the trimmed lines that
    are not empty. *)
Theorem collect_ips_distinct (lines : list string) :
  (forall line, In line lines ->
     starts_in "*" (Str.strip line) = false /\ ends_in "*" (Str.strip line) = false) ->
  NoDup (collect_ips lines)
  /\ forall x, In x (collect_ips lines)
               <-> x <> "" /\ exists line, In line lines /\ Str.strip line = x.
Proof.
  unfold collect_ips. intros H.
  assert (G : forall ls acc,
             (forall l, In l ls ->
                starts_in "*" (Str.strip l) = false /\ ends_in "*" (Str.strip l) = false) ->
             NoDup acc ->
             NoDup (fold_left collect_step ls acc)
             /\ forall x, In x (fold_left collect_step ls acc)
                          <-> In x acc
                              \/ (x <> "" /\ exists l, In l ls /\ Str.strip l = x)).
  { induction ls as [|l ls IH]; intros acc Hs N; cbn [fold_left].
    - split; [exact N|]. intros x. split; [auto|]. intros [A|(_ & l & [] & _)]. exact A.
    - destruct (Hs l (or_introl eq_refl)) as [S E].
      assert (Hs' : forall l', In l' ls ->
                starts_in "*" (Str.strip l') = false /\ ends_in "*" (Str.strip l') = false)
        by (intros l' Hl; apply Hs; right; exact Hl).
      unfold collect_step at 2 4. rewrite (strip_chars_fixed _ _ S E).
      destruct (String.eqb_spec (Str.strip l) "") as [Z|NZ]; cbn [negb andb].
      + destruct (IH acc Hs' N) as [N' M]. split; [exact N'|]. intros x. rewrite M.
        split; intros [A|(Nx & l' & Hl & El)]; auto.
        * right. split; [exact Nx|]. exists l'. split; [right; exact Hl | exact El].
        * destruct Hl as [<-|Hl]; [congruence|]. right. eauto.
      + destruct (Str.mem (Str.strip l) acc) eqn:Mem; cbn [negb].
        * destruct (IH acc Hs' N) as [N' M]. split; [exact N'|]. intros x. rewrite M.
          split; intros [A|(Nx & l' & Hl & El)]; auto.
          -- right. split; [exact Nx|]. exists l'. split; [right; exact Hl | exact El].
          -- destruct Hl as [<-|Hl]; [|right; eauto].
             left. subst x. apply existsb_eqb_in, Mem.
        * assert (Nin : ~ In (Str.strip l) acc).
          { intros I. apply existsb_eqb_in in I. unfold Str.mem in Mem. congruence. }
          assert (N2 : NoDup (acc ++ [Str.strip l])%list).
          { apply NoDup_app; [exact N | constructor; [intros [] | constructor]|].
            intros y Hy [<-|[]]. contradiction. }
          destruct (IH _ Hs' N2) as [N' M]. split; [exact N'|]. intros x. rewrite M.
          rewrite in_app_iff. cbn [In]. split.
          -- intros [[A|[<-|[]]]|(Nx & l' & Hl & El)]; auto.
             ++ right. split; [exact NZ|]. exists l. auto.
             ++ right. split; [exact Nx|]. exists l'. auto.
          -- intros [A|(Nx & l' & [<-|Hl] & El)]; auto.
             right. eauto. }
  destruct (G lines [] H (NoDup_nil _)) as [N M]. split; [exact N|].
  intros x. rewrite M. split; [intros [[]|A]; exact A | auto].
Qed.

Lemma collect_ips_distinct_witness :
  (forall line, In line ["1.2.3.4 "; ""; " 5.6.7.8"; "1.2.3.4"] ->
     starts_in "*" (Str.strip line) = false /\ ends_in "*" (Str.strip line) = false)
  /\ NoDup (collect_ips ["1.2.3.4 "; ""; " 5.6.7.8"; "1.2.3.4"]).
Proof.
  assert (H : forall line, In line ["1.2.3.4 "; ""; " 5.6.7.8"; "1.2.3.4"] ->
                starts_in "*" (Str.strip line) = false
                /\ ends_in "*" (Str.strip line) = false).
  { intros line [<-|[<-|[<-|[<-|[]]]]]; split; vm_compute; reflexivity. }
  split; [exact H | exact (proj1 (collect_ips_distinct _ H))].
Defined.

End Addresses.

(** ** [24_data/process_data.py] *)

Section ProcessData.

Lemma dict_get_set {V : Type} (k a : string) (x : V) (d : Dict.t V) :
  Dict.get k (Dict.set a x d) = if String.eqb k a then Some x else Dict.get k d.
Proof.
  induction d as [|[k0 v0] d IH]; cbn [Dict.set Dict.get].
  - destruct (String.eqb k a); reflexivity.
  - destruct (String.eqb_spec a k0) as [->|N]; cbn [Dict.get].
    + destruct (String.eqb k k0); reflexivity.
    + rewrite IH. destruct (String.eqb_spec k k0) as [->|N']; [|reflexivity].
      destruct (String.eqb_spec k0 a); [congruence | reflexivity].
Qed.

Lemma parse_args_step {V : Type} (arg : string) (args : list string) (data : Dict.t V)
  (d : Dict.t (list V)) (v : V) :
  Dict.get arg data = Some v ->
  parse_args (arg :: args) data d
  = parse_args args data (Dict.set arg (appended (Dict.get arg d) v) d).
Proof.
  intros E. cbn [parse_args]. rewrite E. unfold appended.
  destruct (Dict.get arg d) as [[|x l]|]; reflexivity.
Qed.

Lemma parse_args_found {V : Type} (args : list string) (data : Dict.t V) :
  forall d : Dict.t (list V),
    (forall arg, In arg args -> Dict.get arg data <> None) ->
    exists d', parse_args args data d = Found d'.
Proof.
  induction args as [|arg args IH]; intros d H; [exists d; reflexivity|].
  destruct (Dict.get arg data) as [v|] eqn:E.
  - rewrite (parse_args_step _ _ _ _ _ E). apply IH. intros a Ha. apply H. right. exact Ha.
  - elim (H arg (or_introl eq_refl)). exact E.
Qed.

Lemma parse_args_key_error {V : Type} (args : list string) (data : Dict.t V) (k : string) :
  forall d : Dict.t (list V),
    parse_args args data d = KeyError k -> In k args /\ Dict.get k data = None.
Proof.
  induction args as [|arg args IH]; intros d H; [discriminate H|].
  destruct (Dict.get arg data) as [v|] eqn:E.
  - rewrite (parse_args_step _ _ _ _ _ E) in H. destruct (IH _ H). split; [right|]; assumption.
  - cbn [parse_args] in H. rewrite E in H. injection H as <-. split; [left; reflexivity | exact E].
Qed.

Lemma parse_args_found_inv {V : Type} (args : list string) (data : Dict.t V) :
  forall d d' : Dict.t (list V),
    parse_args args data d = Found d' ->
    forall arg, In arg args -> Dict.get arg data <> None.
Proof.
  induction args as [|a args IH]; intros d d' H arg Ha; [destruct Ha|].
  destruct (Dict.get a data) as [v|] eqn:E;
    [|cbn [parse_args] in H; rewrite E in H; discriminate H].
  rewrite (parse_args_step _ _ _ _ _ E) in H.
  destruct Ha as [<-|Ha]; [congruence | exact (IH _ _ H arg Ha)].
Qed.

Lemma parse_args_get {V : Type} (args : list string) (data : Dict.t V) :
  forall d d' : Dict.t (list V),
    NoDup args -> parse_args args data d = Found d' ->
    forall k, (~ In k args -> Dict.get k d' = Dict.get k d)
              /\ (In k args -> forall v, Dict.get k data = Some v ->
                  Dict.get k d' = Some (appended (Dict.get k d) v)).
Proof.
  induction args as [|arg args IH]; intros d d' N H k.
  - injection H as <-. split; [reflexivity | intros []].
  - inversion N as [|? ? Na Nargs]; subst.
    destruct (Dict.get arg data) as [v|] eqn:E;
      [|cbn [parse_args] in H; rewrite E in H; discriminate H].
    rewrite (parse_args_step _ _ _ _ _ E) in H.
    destruct (IH _ _ Nargs H k) as [Out In_]. split.
    + intros Nk. rewrite Out by (intros I; apply Nk; right; exact I).
      rewrite dict_get_set. destruct (String.eqb_spec k arg) as [->|_]; [|reflexivity].
      elim Nk. left. reflexivity.
    + intros [<-|I] v' Ev.
      * rewrite Out by exact Na. rewrite dict_get_set, String.eqb_refl. congruence.
      * rewrite (In_ I v' Ev), dict_get_set.
        destruct (String.eqb_spec k arg) as [->|_]; [contradiction | reflexivity].
Qed.

Lemma parse_args_keys_old {V : Type} (args : list string) (data : Dict.t V) :
  forall d d' : Dict.t (list V),
    parse_args args data d = Found d' ->
    (forall a, In a args -> In a (Dict.keys d)) ->
    Dict.keys d' = Dict.keys d.
Proof.
  induction args as [|arg args IH]; intros d d' H K; [injection H as <-; reflexivity|].
  destruct (Dict.get arg data) as [v|] eqn:E;
    [|cbn [parse_args] in H; rewrite E in H; discriminate H].
  rewrite (parse_args_step _ _ _ _ _ E) in H.
  assert (S : Dict.keys (Dict.set arg (appended (Dict.get arg d) v) d) = Dict.keys d).
  { rewrite dict_set_keys.
    destruct (existsb (String.eqb arg) (Dict.keys d)) eqn:M; [reflexivity|].
    assert (I : In arg (Dict.keys d)) by (apply K; left; reflexivity).
    apply existsb_eqb_in in I. congruence. }
  rewrite (IH _ _ H); [exact S|]. intros a Ha. rewrite S. apply K. right. exact Ha.
Qed.

Lemma parse_args_keys_new {V : Type} (args : list string) (data : Dict.t V) :
  forall d d' : Dict.t (list V),
    parse_args args data d = Found d' ->
    NoDup args -> (forall a, In a args -> ~ In a (Dict.keys d)) ->
    Dict.keys d' = (Dict.keys d ++ args)%list.
Proof.
  induction args as [|arg args IH]; intros d d' H N K;
    [injection H as <-; rewrite app_nil_r; reflexivity|].
  inversion N as [|? ? Na Nargs]; subst.
  destruct (Dict.get arg data) as [v|] eqn:E;
    [|cbn [parse_args] in H; rewrite E in H; discriminate H].
  rewrite (parse_args_step _ _ _ _ _ E) in H.
  assert (S : Dict.keys (Dict.set arg (appended (Dict.get arg d) v) d)
              = (Dict.keys d ++ [arg])%list).
  { rewrite dict_set_keys.
    destruct (existsb (String.eqb arg) (Dict.keys d)) eqn:M; [|reflexivity].
    apply existsb_eqb_in in M. elim (K arg (or_introl eq_refl)). exact M. }
  rewrite (IH _ _ H Nargs); [rewrite S, <- app_assoc; reflexivity|].
  intros a Ha. rewrite S. intros I. apply in_app_or in I. destruct I as [I|[<-|[]]].
  - apply (K a); [right; exact Ha | exact I].
  - contradiction.
Qed.

Lemma column_nonempty {V : Type} (arg : string) (data : Dict.t V) (done : list (Dict.t V))
  (l : list V) (v : V) :
  column arg (data :: done) l -> appended (Some l) v = (l ++ [v])%list.
Proof. intros C. inversion C; subst. reflexivity. Qed.

Lemma parsed_step {V : Type} (args : list string) (done : list (Dict.t V))
  (data : Dict.t V) (d d' : Dict.t (list V)) :
  NoDup args -> parsed args done d -> parse_args args data d = Found d' ->
  parsed args (done ++ [data]) d'.
Proof.
  intros N P H. destruct done as [|data0 done]; cbn [parsed app] in *.
  - subst d. split.
    + rewrite (parse_args_keys_new _ _ _ _ H N); [reflexivity | intros a _ []].
    + intros arg Ha.
      destruct (Dict.get arg data) as [v|] eqn:E.
      * exists [v]. split; [|constructor; [exact E | constructor]].
        destruct (parse_args_get _ _ _ _ N H arg) as [_ G]. apply (G Ha v E).
      * apply parse_args_found_inv with (arg := arg) in H; [contradiction | exact Ha].
  - destruct P as [K C]. split.
    + rewrite (parse_args_keys_old _ _ _ _ H); [exact K|]. intros a Ha. rewrite K. exact Ha.
    + intros arg Ha. destruct (C arg Ha) as (l & G & Cl).
      destruct (Dict.get arg data) as [v|] eqn:E.
      * exists (l ++ [v])%list. split.
        -- destruct (parse_args_get _ _ _ _ N H arg) as [_ G']. rewrite (G' Ha v E), G.
           f_equal. apply (column_nonempty _ _ _ _ _ Cl).
        -- change (data0 :: (done ++ [data]))%list with ((data0 :: done) ++ [data])%list.
           apply Forall2_app; [exact Cl | constructor; [exact E | constructor]].
      * apply parse_args_found_inv with (arg := arg) in H; [contradiction | exact Ha].
Qed.

Lemma parse_files_spec {V : Type} (args : list string) :
  NoDup args ->
  forall (datas done : list (Dict.t V)) (d : Dict.t (list V)),
    parsed args done d ->
    Forall (fun data => Forall (fun arg => Dict.get arg data <> None) args) datas ->
    exists d', parse_files args datas d = Found d' /\ parsed args (done ++ datas) d'.
Proof.
  intros N. induction datas as [|data datas IH]; intros done d P F; cbn [parse_files].
  - exists d. rewrite app_nil_r. split; [reflexivity | exact P].
  - inversion F as [|? ? Fd Fds]; subst.
    destruct (parse_args_found args data d) as (d1 & E1).
    { intros arg Ha. rewrite Forall_forall in Fd. apply Fd, Ha. }
    rewrite E1. destruct (IH (done ++ [data])%list d1) as (d' & E' & P').
    + apply (parsed_step _ _ _ _ _ N P E1).
    + exact Fds.
    + exists d'. rewrite <- app_assoc in P'. split; assumption.
Qed.

(** X15. With distinct keys that every object has, [parse_json] returns a
    dictionary whose keys are [args] in order, each with the list of its
    values across the objects in order; with no object the dictionary is
    empty. *)
Theorem parse_json_columns {V : Type} (args : list string) (datas : list (Dict.t V)) :
  NoDup args ->
  Forall (fun data => Forall (fun arg => Dict.get arg data <> None) args) datas ->
  exists d,
    parse_json args datas = Found d
    /\ (datas = [] -> d = [])
    /\ (datas <> [] ->
        Dict.keys d = args
        /\ forall arg, In arg args ->
             exists l, Dict.get arg d = Some l
                       /\ Forall2 (fun data v => Dict.get arg data = Some v) datas l).
Proof.
  intros N F. unfold parse_json.
  destruct (parse_files_spec args N datas [] [] eq_refl F) as (d & E & P).
  exists d. split; [exact E|]. cbn [app] in P. destruct datas as [|data datas].
  - split; [intros _; exact P | intros C; elim C; reflexivity].
  - split; [discriminate | intros _; exact P].
Qed.

Lemma parse_json_columns_witness :
  NoDup ["total_time"; "size"]
  /\ Forall (fun data => Forall (fun arg => Dict.get arg data <> None) ["total_time"; "size"])
       [[("total_time", 3); ("size", 10)]; [("size", 20); ("total_time", 4)]]
  /\ exists d,
       parse_json ["total_time"; "size"]
         [[("total_time", 3); ("size", 10)]; [("size", 20); ("total_time", 4)]] = Found d.
Proof.
  assert (N : NoDup ["total_time"; "size"]).
  { constructor; [intros [H|[]]; discriminate H|].
    constructor; [intros []|constructor]. }
  assert (F : Forall (fun data : Dict.t Z =>
                        Forall (fun arg => Dict.get arg data <> None) ["total_time"; "size"])
                [[("total_time", 3); ("size", 10)]; [("size", 20); ("total_time", 4)]]).
  { repeat constructor; vm_compute; discriminate. }
  split; [exact N|]. split; [exact F|].
  destruct (parse_json_columns _ _ N F) as (d & E & _). exists d. exact E.
Defined.

Lemma parse_files_key_error {V : Type} (args : list string) (k : string) :
  forall (datas : list (Dict.t V)) (d : Dict.t (list V)),
    parse_files args datas d = KeyError k ->
    In k args /\ exists data, In data datas /\ Dict.get k data = None.
Proof.
  induction datas as [|data datas IH]; intros d H; cbn [parse_files] in H; [discriminate H|].
  destruct (parse_args args data d) as [d1|k1] eqn:E.
  - destruct (IH _ H) as (I & data' & Hd & G). split; [exact I|].
    exists data'. split; [right; exact Hd | exact G].
  - injection H as <-. destruct (parse_args_key_error _ _ _ _ E) as [I G].
    split; [exact I|]. exists data. split; [left; reflexivity | exact G].
Qed.

Lemma parse_files_found_inv {V : Type} (args : list string) :
  forall (datas : list (Dict.t V)) (d d' : Dict.t (list V)),
    parse_files args datas d = Found d' ->
    Forall (fun data => Forall (fun arg => Dict.get arg data <> None) args) datas.
Proof.
  induction datas as [|data datas IH]; intros d d' H; [constructor|].
  cbn [parse_files] in H. destruct (parse_args args data d) as [d1|k1] eqn:E; [|discriminate H].
  constructor; [|exact (IH _ _ H)].
  apply Forall_forall. intros arg Ha. exact (parse_args_found_inv _ _ _ _ E arg Ha).
Qed.

(** X16. [parse_json] raises [KeyError] exactly when some object lacks one of
    [args], whether [args] repeats a key or not, and the key of the error is
    one of [args] that an object lacks. *)
Theorem parse_json_key_error {V : Type} (args : list string) (datas : list (Dict.t V)) :
  ((exists k, parse_json args datas = KeyError k)
   <-> Exists (fun data => Exists (fun arg => Dict.get arg data = None) args) datas)
  /\ forall k, parse_json args datas = KeyError k ->
               In k args /\ exists data, In data datas /\ Dict.get k data = None.
Proof.
  unfold parse_json. split; [split|].
  - intros (k & H). destruct (parse_files_key_error _ _ _ _ H) as (I & data & Hd & G).
    apply Exists_exists. exists data. split; [exact Hd|].
    apply Exists_exists. exists k. split; assumption.
  - intros Ex. destruct (parse_files args datas []) as [d|k] eqn:E; [|exists k; reflexivity].
    apply parse_files_found_inv in E. exfalso.
    apply Exists_exists in Ex. destruct Ex as (data & Hd & Ex).
    apply Exists_exists in Ex. destruct Ex as (arg & Ha & G).
    rewrite Forall_forall in E. specialize (E data Hd). rewrite Forall_forall in E.
    exact (E arg Ha G).
  - intros k H. exact (parse_files_key_error _ _ _ _ H).
Qed.

Lemma parse_json_key_error_witness :
  parse_json ["total_time"; "size"] [[("total_time", 3); ("size", 10)]; [("total_time", 4)]]
  = KeyError "size"
  /\ In "size" ["total_time"; "size"]
  /\ exists data,
       In data [[("total_time", 3); ("size", 10)]; [("total_time", 4)]]
       /\ Dict.get "size" data = None.
Proof.
  assert (E : parse_json ["total_time"; "size"]
                [[("total_time", 3); ("size", 10)]; [("total_time", 4)]]
              = KeyError "size") by reflexivity.
  split; [exact E | exact (proj2 (parse_json_key_error _ _) "size" E)].
Defined.

(** *** The tick indices *)

Lemma insert_sorted_in (z : Z) (l : list Z) :
  forall x, In x (insert_sorted z l) <-> x = z \/ In x l.
Proof.
  induction l as [|y l IH]; intros x; cbn [insert_sorted In].
  - intuition.
  - destruct (Z.ltb_spec z y); cbn [In]; [intuition|].
    destruct (Z.eqb_spec z y) as [->|N]; cbn [In]; [intuition|].
    rewrite IH. intuition.
Qed.

Lemma insert_sorted_sorted (z : Z) (l : list Z) :
  StronglySorted Z.lt l -> StronglySorted Z.lt (insert_sorted z l).
Proof.
  induction l as [|y l IH]; intros S; cbn [insert_sorted].
  - constructor; constructor.
  - inversion S as [|? ? Sl Fl]; subst.
    destruct (Z.ltb_spec z y).
    + constructor; [exact S|]. constructor; [assumption|].
      eapply Forall_impl; [|exact Fl]. cbn. intros; lia.
    + destruct (Z.eqb_spec z y) as [->|N]; [exact S|].
      constructor; [apply IH, Sl|].
      apply Forall_forall. intros x Hx. apply insert_sorted_in in Hx.
      destruct Hx as [->|Hx]; [lia|]. rewrite Forall_forall in Fl. apply Fl, Hx.
Qed.

Lemma sorted_set_spec (l : list Z) :
  StronglySorted Z.lt (sorted_set l) /\ forall x, In x (sorted_set l) <-> In x l.
Proof.
  unfold sorted_set. induction l as [|z l [S M]]; cbn [fold_right].
  - split; [constructor | reflexivity].
  - split; [apply insert_sorted_sorted, S|].
    intros x. rewrite insert_sorted_in, M. cbn [In]. intuition.
Qed.

Lemma range_step_in (stop step : Z) :
  0 < step ->
  forall i, In i (range_step stop step) <-> 0 <= i < stop /\ i mod step = 0.
Proof.
  intros P i. unfold range_step. rewrite in_map_iff. split.
  - intros (k & <- & Hk). apply in_seq in Hk.
    assert (B : Z.of_nat k < (stop + step - 1) / step) by lia.
    split; [|apply Z.mod_mul; lia].
    assert (Z.of_nat k + 1 <= (stop + step - 1) / step) by lia.
    assert (step * ((stop + step - 1) / step) <= stop + step - 1)
      by (apply Z.mul_div_le; lia).
    nia.
  - intros [[L U] M]. exists (Z.to_nat (i / step)).
    assert (E : i = step * (i / step)) by (apply Z.div_exact; lia).
    assert (0 <= i / step) by (apply Z.div_pos; lia).
    split; [rewrite Z2Nat.id by lia; lia|].
    apply in_seq. split; [lia|]. cbn [Nat.add].
    apply Z2Nat.inj_lt; [lia | |].
    + apply Z.div_pos; lia.
    + apply Z.div_lt_upper_bound; [lia|].
      assert (stop + step - 1 < step * ((stop + step - 1) / step) + step).
      { pose proof (Z.mod_pos_bound (stop + step - 1) step P).
        pose proof (Z.div_mod (stop + step - 1) step). lia. }
      lia.
Qed.

(** X17. For a list of [n >= 1] values the tick indices are strictly
    increasing, and they are the last position and the multiples of 25 below
    [n]; so each of them is a position of the list. *)
Theorem tick_indices_spec (n : Z) :
  1 <= n ->
  StronglySorted Z.lt (tick_indices n)
  /\ (forall i, In i (tick_indices n) <-> i = n - 1 \/ (0 <= i < n /\ i mod 25 = 0))
  /\ Forall (fun i => 0 <= i < n) (tick_indices n).
Proof.
  intros H. unfold tick_indices.
  destruct (sorted_set_spec ([0; n - 1] ++ range_step n 25)%list) as [S M].
  assert (M' : forall i, In i (sorted_set ([0; n - 1] ++ range_step n 25)%list)
                         <-> i = n - 1 \/ (0 <= i < n /\ i mod 25 = 0)).
  { intros i. rewrite M. cbn [app In]. rewrite (range_step_in n 25) by lia.
    split.
    - intros [<-|[<-|R]]; [right; split; [lia | reflexivity] | left; reflexivity | right; exact R].
    - intros [->|R]; [right; left; reflexivity | right; right; exact R]. }
  split; [exact S|]. split; [exact M'|].
  apply Forall_forall. intros i Hi. apply M' in Hi. destruct Hi as [->|[R _]]; lia.
Qed.

Lemma tick_indices_spec_witness :
  1 <= 60 /\ Forall (fun i => 0 <= i < 60) (tick_indices 60).
Proof.
  assert (H : 1 <= 60) by lia.
  split; [exact H | exact (proj2 (proj2 (tick_indices_spec 60 H)))].
Defined.

Lemma split_head (sep : ascii) (s : string) :
  exists p ps, Str2.split sep s = p :: ps /\ Str2.count sep p = 0%nat.
Proof.
  induction s as [|c s (p & ps & E & C)]; cbn [Str2.split].
  - exists "", []. split; reflexivity.
  - destruct (Ascii.eqb c sep) eqn:Ec.
    + exists "", (Str2.split sep s). split; reflexivity.
    + rewrite E. exists (String c p), ps. split; [reflexivity|].
      cbn [Str2.count]. rewrite Ec, C. reflexivity.
Qed.

Lemma split_prefix (sep : ascii) (a rest : string) :
  Str2.count sep a = 0%nat ->
  Str2.split sep (a ++ String sep rest) = a :: Str2.split sep rest.
Proof.
  induction a as [|c a IH]; cbn [append Str2.split Str2.count]; intros C.
  - rewrite Ascii.eqb_refl. reflexivity.
  - destruct (Ascii.eqb c sep); [discriminate C|]. rewrite IH by exact C. reflexivity.
Qed.

Lemma all_in_count (chars s : string) (c : ascii) :
  Str.contains c chars = false -> all_in chars s = true -> Str2.count c s = 0%nat.
Proof.
  intros N. induction s as [|d s IH]; cbn [all_in Str2.count]; [reflexivity|].
  intros A. apply andb_prop in A. destruct A as [A1 A2].
  destruct (Ascii.eqb_spec d c) as [->|_]; [congruence|]. rewrite IH by exact A2. reflexivity.
Qed.

Lemma lstrip_chars_prefix (chars pre s : string) :
  all_in chars pre = true -> starts_in chars s = false ->
  Str2.lstrip_chars chars (pre ++ s) = s.
Proof.
  intros A S. induction pre as [|c pre IH]; cbn [append].
  - destruct s as [|c s]; cbn [Str2.lstrip_chars starts_in] in *; [reflexivity|].
    rewrite S. reflexivity.
  - cbn [all_in] in A. apply andb_prop in A. destruct A as [A1 A2].
    cbn [Str2.lstrip_chars]. rewrite A1. apply IH, A2.
Qed.

(** X18. A path made of characters of [data/], then a name that neither
    begins nor ends with one of these characters and holds no underscore,
    then an underscore and anything: the abscissa is the name. *)
Theorem x_label_name (pre ts rest : string) :
  all_in "data/" pre = true ->
  starts_in "data/" ts = false -> ends_in "data/" ts = false ->
  Str2.count "_" ts = 0%nat ->
  x_label (pre ++ ts ++ "_" ++ rest) = Ok ts.
Proof.
  intros A S E C. unfold x_label.
  rewrite <- append_assoc. change ("_" ++ rest) with (String "_" rest).
  rewrite split_prefix.
  - rewrite py_index_first. cbn [bind]. f_equal. unfold Str2.strip_chars.
    rewrite (lstrip_chars_prefix _ _ _ A S).
    pose proof (lstrip_chars_prefix "data/" "" (Str.rev ts) eq_refl E) as R.
    cbn [append] in R. rewrite R.
    apply rev_involutive.
  - rewrite count_app, C, (all_in_count "data/" pre "_" eq_refl A). reflexivity.
Qed.

Lemma x_label_name_witness :
  all_in "data/" "data/" = true
  /\ starts_in "data/" "1700000000" = false /\ ends_in "data/" "1700000000" = false
  /\ Str2.count "_" "1700000000" = 0%nat
  /\ x_label ("data/" ++ "1700000000" ++ "_" ++ "fandom.json") = Ok "1700000000".
Proof.
  split; [reflexivity|]. split; [reflexivity|]. split; [reflexivity|].
  split; [reflexivity|].
  apply (x_label_name "data/" "1700000000" "fandom.json"); reflexivity.
Defined.

(** X19. The abscissa of a path is always defined; it holds no underscore and
    neither begins nor ends with a character of [data/]. *)
Theorem x_label_total (j : string) :
  exists s, x_label j = Ok s
            /\ Str2.count "_" s = 0%nat
            /\ starts_in "data/" s = false /\ ends_in "data/" s = false.
Proof.
  unfold x_label. destruct (split_head "_" j) as (p & ps & E & C).
  rewrite E, py_index_first. cbn [bind].
  exists (Str2.strip_chars "data/" p). split; [reflexivity|].
  destruct (strip_chars_spec "data/" p) as (pre & suf & Ep & _ & _ & S & En).
  split; [|split; assumption].
  rewrite Ep in C. rewrite !count_app in C. lia.
Qed.

End ProcessData.
